(** * Callable classification registry of [torch/_dynamo/allowed_functions.py]

    A shallow embedding of the identity-keyed classification sets
    ([make_function_id_set]), of the namespace discovery pass
    ([_allowed_function_ids] and its local [_find_torch_objects]) and of
    the override entry points ([allow_in_graph], [disallow_in_graph],
    [forbid_in_graph]), followed by the properties established about them.

    Object identities ([id(obj)]) are integers; Python dictionaries keyed
    by identities are finite maps, Python sets of identities are finite
    sets. *)

From Stdlib Require Import ZArith String List Bool Lia.
From stdpp Require Import base option list gmap sets strings.

Local Open Scope Z_scope.
Local Open Scope string_scope.
Set Warnings "-register-all,-clear-no-such-hyp".

(** ** Python objects as the discovery pass sees them *)

Module Discovery.

(** An object is either a module ([isinstance(obj, types.ModuleType)]),
    with its [__name__] and the items of its [__dict__] in order (binding
    name, identity of the bound object), or any other object, of which the
    pass reads only [inspect.getmodule(obj)] (the [__name__] of the module
    found, if any) and [is_safe_constant(obj)]. *)
Inductive PyObject : Type :=
  | Module (name : string) (dict : list (string * Z))
  | Object (getmodule : option string) (safe_constant : bool).

(** The object store: identity to live object. *)
Abbreviation Heap := (gmap Z PyObject).

(** [str.startswith]: [startswith s p] is [s.startswith(p)]. *)
Definition startswith (s p : string) : bool := String.prefix p s.

(** [inspect.getmodule(obj)] returns a module object unchanged. *)
Definition inspect_getmodule (obj : PyObject) : option string :=
  match obj with
  | Module name _ => Some name
  | Object getmodule _ => getmodule
  end.

Definition is_safe_constant (obj : PyObject) : bool :=
  match obj with
  | Module _ _ => false
  | Object _ safe_constant => safe_constant
  end.

Definition allowed_modules : list string := ["torch"; "math"].

Definition disallowed_modules : list string :=
  [ "torch.optim.";
    "torch.nn.modules.rnn.";
    "torch._dynamo.";
    "torch._C._dynamo.";
    "torch._inductor.";
    "torch._C.inductor.";
    "torch.fx.";
    "torch.distributed.fsdp." ].

Definition allowed_modules_dot : list string :=
  map (fun x => x ++ ".") allowed_modules.

Definition _is_allowed_module_prefix (obj : PyObject) : bool :=
  match inspect_getmodule obj with
  | None => false
  | Some mod_name =>
      if existsb (fun m => startswith mod_name m) disallowed_modules
      then false
      else existsb (String.eqb mod_name) allowed_modules
           || existsb (fun m => startswith mod_name m) allowed_modules_dot
  end.

(** The dictionary under construction: identity to recorded name. *)
Abbreviation Names := (gmap Z string).

Section FindTorchObjects.

(** [config.allowed_functions_module_string_ignorelist] *)
Variable ignorelist : list string.
Variable heap : Heap.

Definition ignored (module_name : string) : bool :=
  existsb (fun mod_name => startswith module_name mod_name) ignorelist.

(** The body of the [for name, obj in module.__dict__.items()] loop for
    one binding; [recurse] stands for the call [_find_torch_objects(obj)].
    A binding whose identity the store does not hold has no reading
    ([None]). *)
Definition visit_binding (recurse : Z -> Names -> option Names)
    (module_name : string) (binding : string * Z)
    (torch_object_ids : Names) : option Names :=
  let '(name, obj_id) := binding in
  match torch_object_ids !! obj_id with
  | Some _ => Some torch_object_ids
  | None =>
      match heap !! obj_id with
      | None => None
      | Some obj =>
          match obj with
          | Module obj_name _ =>
              if startswith obj_name "torch." && _is_allowed_module_prefix obj
              then recurse obj_id
                     (<[obj_id := module_name ++ "." ++ name]> torch_object_ids)
              else Some torch_object_ids
          | Object _ _ =>
              if _is_allowed_module_prefix obj
              then Some (<[obj_id := module_name ++ "." ++ name]> torch_object_ids)
              else if bool_decide (inspect_getmodule obj = None)
                      && negb (is_safe_constant obj)
              then Some (<[obj_id := module_name ++ "." ++ name]> torch_object_ids)
              else Some torch_object_ids
          end
      end
  end.

Fixpoint visit_bindings (recurse : Z -> Names -> option Names)
    (module_name : string) (items : list (string * Z))
    (torch_object_ids : Names) : option Names :=
  match items with
  | [] => Some torch_object_ids
  | binding :: rest =>
      match visit_binding recurse module_name binding torch_object_ids with
      | None => None
      | Some ids => visit_bindings recurse module_name rest ids
      end
  end.

(** [_find_torch_objects(module)], threading the dictionary
    [torch_object_ids]. The recursion follows the namespace graph, one
    nested call for each module entered; [fuel] is the number of nested
    calls there is room for, and the call has no reading ([None]) when
    they are used up, as when it meets an identity the store does not
    hold. *)
Fixpoint _find_torch_objects (fuel : nat) (module : Z)
    (torch_object_ids : Names) : option Names :=
  match fuel with
  | O => None
  | S fuel' =>
      match heap !! module with
      | Some (Module module_name items) =>
          if ignored module_name then Some torch_object_ids
          else visit_bindings (_find_torch_objects fuel') module_name items
                 (<[module := module_name]> torch_object_ids)
      | _ => None
      end
  end.

(** *** The same traversal with the log of its calls

    [_find_torch_objects_traced] computes the same dictionary and
    also lists, in order, the modules on which [_find_torch_objects]
    is called (the top-level call first). It is used to state that no
    module is entered twice. *)
Definition visit_binding_traced (recurse : Z -> Names -> option (Names * list Z))
    (module_name : string) (binding : string * Z)
    (torch_object_ids : Names) : option (Names * list Z) :=
  let '(name, obj_id) := binding in
  match torch_object_ids !! obj_id with
  | Some _ => Some (torch_object_ids, [])
  | None =>
      match heap !! obj_id with
      | None => None
      | Some obj =>
          match obj with
          | Module obj_name _ =>
              if startswith obj_name "torch." && _is_allowed_module_prefix obj
              then recurse obj_id
                     (<[obj_id := module_name ++ "." ++ name]> torch_object_ids)
              else Some (torch_object_ids, [])
          | Object _ _ =>
              if _is_allowed_module_prefix obj
              then Some (<[obj_id := module_name ++ "." ++ name]> torch_object_ids, [])
              else if bool_decide (inspect_getmodule obj = None)
                      && negb (is_safe_constant obj)
              then Some (<[obj_id := module_name ++ "." ++ name]> torch_object_ids, [])
              else Some (torch_object_ids, [])
          end
      end
  end.

Fixpoint visit_bindings_traced (recurse : Z -> Names -> option (Names * list Z))
    (module_name : string) (items : list (string * Z))
    (torch_object_ids : Names) : option (Names * list Z) :=
  match items with
  | [] => Some (torch_object_ids, [])
  | binding :: rest =>
      match visit_binding_traced recurse module_name binding torch_object_ids with
      | None => None
      | Some (ids, calls) =>
          match visit_bindings_traced recurse module_name rest ids with
          | None => None
          | Some (ids', calls') => Some (ids', (calls ++ calls')%list)
          end
      end
  end.

Fixpoint _find_torch_objects_traced (fuel : nat) (module : Z)
    (torch_object_ids : Names) : option (Names * list Z) :=
  match fuel with
  | O => None
  | S fuel' =>
      match heap !! module with
      | Some (Module module_name items) =>
          if ignored module_name then Some (torch_object_ids, [module])
          else
            match visit_bindings_traced (_find_torch_objects_traced fuel')
                    module_name items (<[module := module_name]> torch_object_ids) with
            | None => None
            | Some (ids, calls) => Some (ids, module :: calls)
            end
      | _ => None
      end
  end.

(** Every binding of every module of the store refers to an object of
    the store. *)
Definition closed : bool :=
  forallb (fun entry : Z * PyObject =>
             match entry.2 with
             | Module _ items =>
                 forallb (fun binding : string * Z =>
                            bool_decide (is_Some (heap !! binding.2))) items
             | Object _ _ => true
             end)
          (map_to_list heap).

Definition is_module (obj_id : Z) : bool :=
  match heap !! obj_id with
  | Some (Module _ _) => true
  | _ => false
  end.

(** *** Notions used to state the properties of the traversal *)

(** The number of objects of the store that are not recorded yet. *)
Definition pending (ids : Names) : nat := size (dom heap ∖ dom ids : gset Z).

(** The calls made while the dictionary grows from [ids] to [r]: all
    distinct, on identities absent from [ids] and present in [r]. *)
Definition fresh_calls (ids r : Names) (calls : list Z) : Prop :=
  (dom ids ⊆ dom r) /\ NoDup calls /\
  (forall c, c ∈ calls -> (c ∉ dom ids) /\ (c ∈ dom r)).

(** The log of a call on [module] that starts from [ids] and ends
    with [r]: [module], then distinct other modules, none recorded in
    [ids]. *)
Definition entered_once (module : Z) (ids r : Names) (calls : list Z) : Prop :=
  exists rest,
    calls = module :: rest /\ (dom ids ⊆ dom r) /\ NoDup rest /\
    (forall c, c ∈ rest -> (c ≠ module) /\ (c ∉ dom ids) /\ (c ∈ dom r)).

(** [name] is what the visit of a module that matches no ignore-list
    prefix records for [j]: the module's own [__name__], or its
    [__name__], a dot and the name of one of its bindings of [j]. *)
Definition recorded_from_visited (j : Z) (name : string) : Prop :=
  exists module module_name items,
    heap !! module = Some (Module module_name items) /\
    ignored module_name = false /\
    ((j = module /\ name = module_name) \/
     (exists binding,
         (binding, j) ∈ items /\ name = module_name ++ "." ++ binding)).

(** [enters parent child]: the visit of [parent] calls
    [_find_torch_objects] on [child] when it meets it unrecorded, that
    is, [parent] is a module that matches no ignore-list prefix and
    binds [child], a module named [torch.*] that passes
    [_is_allowed_module_prefix]. *)
Definition enters (parent child : Z) : bool :=
  match heap !! parent, heap !! child with
  | Some (Module module_name items), Some (Module obj_name obj_items) =>
      negb (ignored module_name)
      && existsb (fun binding : string * Z => Z.eqb binding.2 child) items
      && (startswith obj_name "torch."
          && _is_allowed_module_prefix (Module obj_name obj_items))
  | _, _ => false
  end.

(** A chain of nested calls: each module enters the next one. *)
Fixpoint nested (path : list Z) : bool :=
  match path with
  | [] => true
  | parent :: rest =>
      match rest with
      | [] => true
      | child :: _ => enters parent child && nested rest
      end
  end.

(** No chain of distinct modules that starts at [root] is longer than
    [limit]. *)
Definition nesting_within (limit : nat) (root : Z) : Prop :=
  forall path,
    nested (root :: path) = true -> NoDup (root :: path) ->
    (length (root :: path) <= limit)%nat.

End FindTorchObjects.

(** What the pass reads from the running process: the object store, the
    policy configuration, the two root modules [torch] and [math], and
    [dir(torch.Tensor)] as (attribute name, identity of
    [getattr(torch.Tensor, name)], whether that attribute is an instance
    of [types.MethodDescriptorType]). *)
Record World : Type := {
  heap : Heap;
  allowed_functions_module_string_ignorelist : list string;
  torch : Z;
  math : Z;
  tensor_dir : list (string * Z * bool);
}.

(** The loop [for name in dir(torch.Tensor)]. *)
Definition record_tensor_methods (methods : list (string * Z * bool))
    (torch_object_ids : Names) : Names :=
  foldl (fun ids '(name, method, is_method_descriptor) =>
           if is_method_descriptor : bool
           then <[method := "torch.Tensor." ++ name]> ids
           else ids)
        torch_object_ids methods.

(** Lines 132 to 190 of [_allowed_function_ids]: the dictionary built by
    the two traversals and the method loop, before the disallowed
    identities are subtracted. *)
Definition walk_torch (fuel : nat) (w : World) : option Names :=
  let find := _find_torch_objects (allowed_functions_module_string_ignorelist w) (heap w) fuel in
  match find (torch w) ∅ with
  | None => None
  | Some ids =>
      match find (math w) ids with
      | None => None
      | Some ids' => Some (record_tensor_methods (tensor_dir w) ids')
      end
  end.

(** *** The recursion limit of the interpreter

    [_find_torch_objects] calls itself once for each nested module,
    every call in a frame of its own, and nothing in the module catches
    the [RecursionError] the interpreter raises when its recursion
    limit is reached: the exception leaves [_allowed_function_ids] and
    the dictionary under construction is lost. The [fuel] of the
    traversal is that bound: [recursion_limit] is the number of nested
    calls of [_find_torch_objects], each with the calls its body makes,
    that the interpreter has room for when the pass starts. On a store that is [well_formed] below, the traversal
    has no reading only when this bound is reached. *)
Inductive Discovered : Type :=
  | Built (torch_object_ids : Names)
  | RecursionError.

Definition discovery_pass (recursion_limit : nat) (w : World) : Discovered :=
  match walk_torch recursion_limit w with
  | Some torch_object_ids => Built torch_object_ids
  | None => RecursionError
  end.

(** The store is closed and both roots are modules. *)
Definition well_formed (w : World) : bool :=
  closed (heap w) && is_module (heap w) (torch w) && is_module (heap w) (math w).

(** A recursion depth that always suffices: one more than the number of
    objects in the store. *)
Definition enough_fuel (h : Heap) : nat := S (size h).

End Discovery.

(** ** The classification sets and the override entry points *)

Module Registry.

Inductive Exception : Type :=
  | AssertionError
  | IncorrectUsage
  | AttributeError
  | TypeError.

Inductive Outcome (A : Type) : Type :=
  | Return (a : A)
  | Raise (e : Exception).
Arguments Return {A} a.
Arguments Raise {A} e.

(** One instance of the class [FunctionIdSet]: both attributes start as
    [None]. [function_names] is assigned once, by [__call__]; [add] and
    [remove] act on [function_ids] only. *)
Record FunctionIdSet : Type := {
  function_ids : option (gset Z);
  function_names : option (gmap Z string);
}.

Definition make_function_id_set : FunctionIdSet :=
  {| function_ids := None; function_names := None |}.

(** What a lazy initializer returns: a [dict] or a [set]. *)
Inductive LazyValue : Type :=
  | DictValue (value : gmap Z string)
  | SetValue (value : gset Z).

(** The module-level state: the two classification sets the override
    entry points touch, and the objects that carry the attribute
    [_dynamo_forbidden]. *)
Record Globals : Type := {
  _allowed_function_ids : FunctionIdSet;
  _disallowed_function_ids : FunctionIdSet;
  _dynamo_forbidden : gset Z;
}.

(** The state right after the definitions of the two sets. *)
Definition initial : Globals :=
  {| _allowed_function_ids := make_function_id_set;
     _disallowed_function_ids := make_function_id_set;
     _dynamo_forbidden := ∅ |}.

(** Computations over the module state that return or raise; the state
    reached when an exception is raised is kept. *)
Definition M (A : Type) : Type := Globals -> Outcome A * Globals.

Definition ret {A} (a : A) : M A := fun g => (Return a, g).
Definition raise {A} (e : Exception) : M A := fun g => (Raise e, g).
Definition bind {A B} (m : M A) (k : A -> M B) : M B :=
  fun g =>
    match m g with
    | (Return a, g') => k a g'
    | (Raise e, g') => (Raise e, g')
    end.

Notation "'let*' x := m 'in' k" := (bind m (fun x => k))
  (at level 10, x name, m at level 100, k at level 200, only parsing).

(** A list comprehension [[f(x) for x in items]]. *)
Section ListComprehension.
Context {A B : Type} (f : A -> M B).
Fixpoint comprehension (items : list A) : M (list B) :=
  match items with
  | [] => ret []
  | x :: rest =>
      let* y := f x in
      let* ys := comprehension rest in
      ret (y :: ys)
  end.
End ListComprehension.

(** What the registry reads from the running process. *)
Record Env : Type := {
  (** [callable(obj)] *)
  callable : Z -> bool;
  (** [isinstance(obj, (torch._ops.OpOverloadPacket,
      torch._ops.OpOverload, torch._ops._OpNamespace))] *)
  is_dispatch_wrapper : Z -> bool;
  (** the identities of the list [remove] of [_disallowed_function_ids],
      dtypes and storages included *)
  remove_ids : list Z;
  (** the dictionary [torch_object_ids] as lines 132 to 190 leave it
      ([Discovery.walk_torch]) *)
  torch_object_ids : gmap Z string;
  (** [id(is_fx_tracing)] and [id(is_compiling)] *)
  is_fx_tracing : Z;
  is_compiling : Z;
  (** whether an attribute can be assigned on the object: the assignment
      raises [AttributeError] on an object without instance dictionary,
      a built-in function for one *)
  accepts_attributes : Z -> bool;
  (** whether the object is a built-in or extension class, [int] or
      [collections.OrderedDict] for one: on such a class the assignment
      of an attribute raises [TypeError], not [AttributeError] *)
  is_immutable_type : Z -> bool;
}.

(** An argument of an override entry point: an object, given by its
    identity, or a [list] or [tuple] of arguments. *)
Inductive PyValue : Type :=
  | Ref (obj : Z)
  | PyList (items : list PyValue)
  | PyTuple (items : list PyValue).

(** A classification set as a module-level variable: where its instance
    lives in the module state, and its lazy initializer. *)
Record Handle : Type := {
  instance : Globals -> FunctionIdSet;
  store : FunctionIdSet -> Globals -> Globals;
  lazy_initializer : M LazyValue;
}.

Definition read (self : Handle) : M FunctionIdSet :=
  fun g => (Return (instance self g), g).

(** The assignments [self.function_ids = value] and
    [self.function_names = value]. *)
Definition assign_function_ids (self : Handle) (value : gset Z) : M unit :=
  fun g =>
    (Return tt,
     store self {| function_ids := Some value;
                 function_names := function_names (instance self g) |} g).

Definition assign_function_names (self : Handle) (value : gmap Z string) : M unit :=
  fun g =>
    (Return tt,
     store self {| function_ids := function_ids (instance self g);
                 function_names := Some value |} g).

(** ** Methods of [FunctionIdSet] *)

(** [__call__]: the set returned is the object [self.function_ids]
    itself, so [add] and [remove] below update the attribute. *)
Definition __call__ (self : Handle) : M (gset Z) :=
  let* s := read self in
  match function_ids s with
  | None =>
      let* value := lazy_initializer self in
      match value with
      | DictValue value =>
          let* _ := assign_function_ids self (dom value) in
          let* _ := assign_function_names self value in
          ret (dom value)
      | SetValue value =>
          let* _ := assign_function_ids self value in
          ret value
      end
  | Some ids => ret ids
  end.

(** [self.function_names.get(idx, default)] raises [AttributeError] when
    [self.function_names] is [None]. *)
Definition get_name (self : Handle) (idx : Z) (default : string) : M string :=
  let* _ := __call__ self in
  let* s := read self in
  match function_names s with
  | None => raise AttributeError
  | Some names =>
      ret (match names !! idx with Some name => name | None => default end)
  end.

Definition add (self : Handle) (idx : Z) : M unit :=
  let* ids := __call__ self in
  assign_function_ids self ({[idx]} ∪ ids).

Definition remove (self : Handle) (idx : Z) : M unit :=
  let* ids := __call__ self in
  if bool_decide (idx ∈ ids)
  then assign_function_ids self (ids ∖ {[idx]})
  else ret tt.

Definition __contains__ (self : Handle) (idx : Z) : M bool :=
  let* ids := __call__ self in
  ret (bool_decide (idx ∈ ids)).

(** ** The two sets *)

Section WithEnv.

Variable E : Env.

Definition disallowed : Handle :=
  {| instance := _disallowed_function_ids;
     store := fun s g =>
       {| _allowed_function_ids := _allowed_function_ids g;
          _disallowed_function_ids := s;
          _dynamo_forbidden := _dynamo_forbidden g |};
     lazy_initializer := ret (SetValue (list_to_set (remove_ids E))) |}.

(** Lines 192 to 199 of [_allowed_function_ids]. *)
Definition subtract_disallowed (ids : gset Z) (d : gmap Z string) : gmap Z string :=
  set_fold (fun idx d => delete idx d) d ids.

Definition add_extras (d : gmap Z string) : gmap Z string :=
  <[is_compiling E := "torch._dynamo.external_utils.is_compiling"]>
    (<[is_fx_tracing E := "torch.fx._symbolic_trace.is_fx_tracing"]> d).

Definition allowed : Handle :=
  {| instance := _allowed_function_ids;
     store := fun s g =>
       {| _allowed_function_ids := s;
          _disallowed_function_ids := _disallowed_function_ids g;
          _dynamo_forbidden := _dynamo_forbidden g |};
     lazy_initializer :=
       let* ids := __call__ disallowed in
       ret (DictValue (add_extras (subtract_disallowed ids (torch_object_ids E)))) |}.

(** ** Queries *)

Definition is_allowed (obj : Z) : M bool :=
  let* found := __contains__ allowed obj in
  ret (found || is_dispatch_wrapper E obj).

Definition torch_get_name (obj : Z) (default : string) : M string :=
  get_name allowed obj default.

(** The pair [(idx in _allowed_function_ids,
    idx in _disallowed_function_ids)], evaluated in that order. *)
Definition membership (idx : Z) : M (bool * bool) :=
  let* a := __contains__ allowed idx in
  let* d := __contains__ disallowed idx in
  ret (a, d).

(** ** Override entry points *)

(** [fn._dynamo_forbidden = True]. An object that rejects the
    attribute raises [TypeError] when it is a built-in or extension
    class and [AttributeError] otherwise. *)
Definition set_dynamo_forbidden (fn : Z) : M unit :=
  fun g =>
    if accepts_attributes E fn
    then (Return tt,
          {| _allowed_function_ids := _allowed_function_ids g;
             _disallowed_function_ids := _disallowed_function_ids g;
             _dynamo_forbidden := {[fn]} ∪ _dynamo_forbidden g |})
    else if is_immutable_type E fn
    then (Raise TypeError, g)
    else (Raise AttributeError, g).

Fixpoint allow_in_graph (fn : PyValue) : M PyValue :=
  match fn with
  | PyList items | PyTuple items =>
      let* result := comprehension allow_in_graph items in
      ret (PyList result)
  | Ref f =>
      if callable E f then
        let* _ := add allowed f in
        let* _ := remove disallowed f in
        ret (Ref f)
      else raise AssertionError
  end.

(** [inner] of [_disallow_in_graph_helper(throw_if_not_allowed)]. On a
    sequence [inner] calls the module-level [disallow_in_graph], which
    is [inner] with [throw_if_not_allowed=True], whatever the flag of
    the enclosing helper. *)
Fixpoint _disallow_in_graph_helper (throw_if_not_allowed : bool)
    (fn : PyValue) : M PyValue :=
  match fn with
  | PyList items | PyTuple items =>
      let* result := comprehension (_disallow_in_graph_helper true) items in
      ret (PyList result)
  | Ref f =>
      if callable E f then
        let* not_allowed :=
          (if throw_if_not_allowed
           then let* a := is_allowed f in ret (negb a)
           else ret false) in
        if not_allowed : bool then raise IncorrectUsage
        else
          let* _ := remove allowed f in
          let* _ := add disallowed f in
          ret (Ref f)
      else raise AssertionError
  end.

Definition disallow_in_graph (fn : PyValue) : M PyValue :=
  _disallow_in_graph_helper true fn.

Fixpoint forbid_in_graph (fn : PyValue) : M PyValue :=
  match fn with
  | PyList items | PyTuple items =>
      let* result := comprehension forbid_in_graph items in
      ret (PyList result)
  | Ref f =>
      if callable E f then
        let* _ := set_dynamo_forbidden f in
        ret (Ref f)
      else raise AssertionError
  end.

(** ** Sequences of calls *)

(** One call into the module from outside: a materialization of the
    allowed set (the discovery), a query, or an override. *)
Inductive Operation : Type :=
  | Discover
  | IsAllowed (obj : Z)
  | TorchGetName (obj : Z) (default : string)
  | AllowInGraph (fn : PyValue)
  | DisallowInGraph (throw_if_not_allowed : bool) (fn : PyValue)
  | ForbidInGraph (fn : PyValue).

(** The state a computation leaves, returned or raised, and its outcome. *)
Definition exec {A} (m : M A) (g : Globals) : Globals := snd (m g).
Definition outcome {A} (m : M A) (g : Globals) : Outcome A := fst (m g).

Definition perform (op : Operation) (g : Globals) : Globals :=
  match op with
  | Discover => exec (__call__ allowed) g
  | IsAllowed obj => exec (is_allowed obj) g
  | TorchGetName obj default => exec (torch_get_name obj default) g
  | AllowInGraph fn => exec (allow_in_graph fn) g
  | DisallowInGraph throw fn => exec (_disallow_in_graph_helper throw fn) g
  | ForbidInGraph fn => exec (forbid_in_graph fn) g
  end.

Definition run (ops : list Operation) (g : Globals) : Globals :=
  foldl (fun g op => perform op g) g ops.

(** ** Readings of the state

    What [_disallowed_function_ids()] and [_allowed_function_ids()]
    return in a state, and the state the second leaves, written without
    the monad; [call_disallowed] and [call_allowed] below show that the
    methods compute exactly these. *)

Definition disallowed_ids (g : Globals) : gset Z :=
  match function_ids (_disallowed_function_ids g) with
  | Some ids => ids
  | None => list_to_set (remove_ids E)
  end.

Definition discovered (g : Globals) : gmap Z string :=
  add_extras (subtract_disallowed (disallowed_ids g) (torch_object_ids E)).

Definition allowed_ids (g : Globals) : gset Z :=
  match function_ids (_allowed_function_ids g) with
  | Some ids => ids
  | None => dom (discovered g)
  end.

Definition force_disallowed (g : Globals) : Globals :=
  {| _allowed_function_ids := _allowed_function_ids g;
     _disallowed_function_ids :=
       {| function_ids := Some (disallowed_ids g);
          function_names := function_names (_disallowed_function_ids g) |};
     _dynamo_forbidden := _dynamo_forbidden g |}.

Definition force_allowed (g : Globals) : Globals :=
  match function_ids (_allowed_function_ids g) with
  | Some _ => g
  | None =>
      {| _allowed_function_ids :=
           {| function_ids := Some (dom (discovered g));
              function_names := Some (discovered g) |};
         _disallowed_function_ids := _disallowed_function_ids (force_disallowed g);
         _dynamo_forbidden := _dynamo_forbidden g |}
  end.

Definition allowed_names (g : Globals) : option (gmap Z string) :=
  function_names (_allowed_function_ids (force_allowed g)).

(** The state a successful [allow_in_graph(f)] leaves. *)
Definition allow_state (f : Z) (g : Globals) : Globals :=
  {| _allowed_function_ids :=
       {| function_ids := Some ({[f]} ∪ allowed_ids g);
          function_names := allowed_names g |};
     _disallowed_function_ids :=
       {| function_ids := Some (disallowed_ids g ∖ {[f]});
          function_names := function_names (_disallowed_function_ids g) |};
     _dynamo_forbidden := _dynamo_forbidden g |}.

(** The state a successful disallow of [f] leaves. *)
Definition disallow_state (f : Z) (g : Globals) : Globals :=
  {| _allowed_function_ids :=
       {| function_ids := Some (allowed_ids g ∖ {[f]});
          function_names := allowed_names g |};
     _disallowed_function_ids :=
       {| function_ids := Some ({[f]} ∪ disallowed_ids g);
          function_names := function_names (_disallowed_function_ids g) |};
     _dynamo_forbidden := _dynamo_forbidden g |}.

(** The two sets, as a query reads them, have no identity in common. *)
Definition consistent (g : Globals) : Prop :=
  allowed_ids g ## disallowed_ids g.

(** The allowed set has been materialized. *)
Definition materialized (g : Globals) : Prop :=
  is_Some (function_ids (_allowed_function_ids g)).

End WithEnv.

(** A relation between the state before and the state after holds
    for every run of a computation. *)
Definition respects (R : Globals -> Globals -> Prop) {A} (m : M A) : Prop :=
  forall g, R g (exec m g).

(** What an entry point returns for an argument when it returns: the
    argument itself, every tuple in it replaced by a list of the same
    items. *)
Fixpoint as_list (fn : PyValue) : PyValue :=
  match fn with
  | Ref f => Ref f
  | PyList items | PyTuple items => PyList (map as_list items)
  end.

End Registry.

(** ** The class [FunctionIdSet] for a set kept anywhere

    [make_function_id_set] is applied five times in the file. The methods
    are written here once more for an instance kept in any state [S],
    so that the three fixed-domain sets below use them too; on the
    module state of [Registry] they are the methods of [Registry]
    ([ClassFacts.registry_methods]). *)

Module Class.

Section Methods.

Context {S : Type}.

Definition MS (A : Type) : Type := S -> Registry.Outcome A * S.

Definition ret {A} (a : A) : MS A := fun g => (Registry.Return a, g).
Definition raise {A} (e : Registry.Exception) : MS A := fun g => (Registry.Raise e, g).
Definition bind {A B} (m : MS A) (k : A -> MS B) : MS B :=
  fun g =>
    match m g with
    | (Registry.Return a, g') => k a g'
    | (Registry.Raise e, g') => (Registry.Raise e, g')
    end.

Definition exec {A} (m : MS A) (g : S) : S := snd (m g).
Definition outcome {A} (m : MS A) (g : S) : Registry.Outcome A := fst (m g).

Record Handle : Type := {
  instance : S -> Registry.FunctionIdSet;
  store : Registry.FunctionIdSet -> S -> S;
  lazy_initializer : MS Registry.LazyValue;
}.

Definition read (self : Handle) : MS Registry.FunctionIdSet :=
  fun g => (Registry.Return (instance self g), g).

Definition assign_function_ids (self : Handle) (value : gset Z) : MS unit :=
  fun g =>
    (Registry.Return tt,
     store self {| Registry.function_ids := Some value;
                   Registry.function_names :=
                     Registry.function_names (instance self g) |} g).

Definition assign_function_names (self : Handle) (value : gmap Z string) : MS unit :=
  fun g =>
    (Registry.Return tt,
     store self {| Registry.function_ids := Registry.function_ids (instance self g);
                   Registry.function_names := Some value |} g).

Definition __call__ (self : Handle) : MS (gset Z) :=
  bind (read self) (fun s =>
  match Registry.function_ids s with
  | None =>
      bind (lazy_initializer self) (fun value =>
      match value with
      | Registry.DictValue value =>
          bind (assign_function_ids self (dom value)) (fun _ =>
          bind (assign_function_names self value) (fun _ =>
          ret (dom value)))
      | Registry.SetValue value =>
          bind (assign_function_ids self value) (fun _ =>
          ret value)
      end)
  | Some ids => ret ids
  end).

Definition get_name (self : Handle) (idx : Z) (default : string) : MS string :=
  bind (__call__ self) (fun _ =>
  bind (read self) (fun s =>
  match Registry.function_names s with
  | None => raise Registry.AttributeError
  | Some names =>
      ret (match names !! idx with Some name => name | None => default end)
  end)).

Definition add (self : Handle) (idx : Z) : MS unit :=
  bind (__call__ self) (fun ids =>
  assign_function_ids self ({[idx]} ∪ ids)).

Definition remove (self : Handle) (idx : Z) : MS unit :=
  bind (__call__ self) (fun ids =>
  if bool_decide (idx ∈ ids)
  then assign_function_ids self (ids ∖ {[idx]})
  else ret tt).

Definition __contains__ (self : Handle) (idx : Z) : MS bool :=
  bind (__call__ self) (fun ids =>
  ret (bool_decide (idx ∈ ids))).

(** What the methods take for granted about a module-level variable:
    assigning the instance and reading it back gives what was assigned,
    a second assignment replaces the first, and the lazy initializer
    returns without raising and leaves the instance as it is. *)
Record lawful (self : Handle) : Prop := {
  instance_store : forall s g, instance self (store self s g) = s;
  store_store : forall s s' g, store self s (store self s' g) = store self s g;
  initializer_returns :
    forall g, exists value g',
      lazy_initializer self g = (Registry.Return value, g')
      /\ instance self g' = instance self g;
}.

End Methods.

Arguments Handle S : clear implicits.
Arguments MS S A : clear implicits.

(** The variable of [Registry] as a variable in the state [Globals]. *)
Definition of_registry (self : Registry.Handle) : Handle Registry.Globals :=
  {| instance := Registry.instance self;
     store := Registry.store self;
     lazy_initializer := Registry.lazy_initializer self |}.

End Class.

(** ** The fixed-domain sets: built-ins, operator, numpy *)

Module Collectors.

(** What the three collectors read from the running process. *)
Record Namespaces : Type := {
  (** [callable(v)] *)
  callable : Z -> bool;
  (** [builtins.__dict__.items()] and [operator.__dict__.items()], in
      order: binding name, identity of the value *)
  builtins : list (string * Z);
  operator : list (string * Z);
  (** [id(itertools.chain)], [id(itertools.islice)], whose [__name__]
      are ["chain"] and ["islice"], and [id(functools.reduce)] *)
  itertools_chain : Z;
  itertools_islice : Z;
  functools_reduce : Z;
  HAS_NUMPY : bool;
  (** [np.__name__], [np.__dict__.items()] and the same for [np.random] *)
  np_name : string;
  np : list (string * Z);
  np_random_name : string;
  np_random : list (string * Z);
  (** [getattr(v, "__module__", None)] *)
  dunder_module : Z -> option string;
  (** [isinstance(obj, np.ndarray)] *)
  is_ndarray : Z -> bool;
}.

(** A dictionary comprehension [{id(v): f"{prefix}.{k}" for k, v in
    items if keep(k, v)}]: a later item replaces an earlier one with the
    same identity. *)
Definition dict_comprehension (prefix : string) (keep : string -> Z -> bool)
    (items : list (string * Z)) : gmap Z string :=
  foldl (fun rv '(k, v) => if keep k v then <[v := prefix ++ "." ++ k]> rv else rv)
        ∅ items.

(** [rv.update(other)]: the entries of [other] replace those of [rv]. *)
Definition update (rv other : gmap Z string) : gmap Z string := other ∪ rv.

Section WithNamespaces.

Variable N : Namespaces.

Definition public_callable (k : string) (v : Z) : bool :=
  negb (Discovery.startswith k "_") && callable N v.

Definition public_constant (k : string) (v : Z) : bool :=
  negb (Discovery.startswith k "_") && negb (callable N v).

(** The lazy initializer of [_builtin_function_ids]. *)
Definition builtin_function_ids_init : gmap Z string :=
  let rv := dict_comprehension "builtins" public_callable (builtins N) in
  let rv := update rv (dict_comprehension "operator" public_callable (operator N)) in
  let rv := update rv (<[itertools_islice N := "functools.islice"]>
                         (<[itertools_chain N := "functools.chain"]> ∅)) in
  <[functools_reduce N := "functools.reduce"]> rv.

(** [getattr(v, "__module__", None) or mod.__name__]: [None] and the
    empty string count as false. *)
Definition module_or (v : Z) (mod_name : string) : string :=
  match dunder_module N v with
  | Some m => if String.eqb m "" then mod_name else m
  | None => mod_name
  end.

Definition numpy_callable (mod_name : string) (k : string) (v : Z) : bool :=
  callable N v && String.eqb (module_or v mod_name) mod_name.

(** The lazy initializer of [_numpy_function_ids]. *)
Definition numpy_function_ids_init : gmap Z string :=
  if HAS_NUMPY N then
    let rv := update ∅ (dict_comprehension (np_name N)
                          (numpy_callable (np_name N)) (np N)) in
    update rv (dict_comprehension (np_random_name N)
                 (numpy_callable (np_random_name N)) (np_random N))
  else ∅.

(** The lazy initializer of [_builtin_constant_ids]. *)
Definition builtin_constant_ids_init : gmap Z string :=
  dict_comprehension "builtins" public_constant (builtins N).

(** The three module-level variables. *)
Record Sets : Type := {
  _builtin_function_ids : Registry.FunctionIdSet;
  _numpy_function_ids : Registry.FunctionIdSet;
  _builtin_constant_ids : Registry.FunctionIdSet;
}.

Definition initial : Sets :=
  {| _builtin_function_ids := Registry.make_function_id_set;
     _numpy_function_ids := Registry.make_function_id_set;
     _builtin_constant_ids := Registry.make_function_id_set |}.

Definition builtin_functions : Class.Handle Sets :=
  {| Class.instance := _builtin_function_ids;
     Class.store := fun s g =>
       {| _builtin_function_ids := s;
          _numpy_function_ids := _numpy_function_ids g;
          _builtin_constant_ids := _builtin_constant_ids g |};
     Class.lazy_initializer :=
       Class.ret (Registry.DictValue builtin_function_ids_init) |}.

Definition numpy_functions : Class.Handle Sets :=
  {| Class.instance := _numpy_function_ids;
     Class.store := fun s g =>
       {| _builtin_function_ids := _builtin_function_ids g;
          _numpy_function_ids := s;
          _builtin_constant_ids := _builtin_constant_ids g |};
     Class.lazy_initializer :=
       Class.ret (Registry.DictValue numpy_function_ids_init) |}.

Definition builtin_constants : Class.Handle Sets :=
  {| Class.instance := _builtin_constant_ids;
     Class.store := fun s g =>
       {| _builtin_function_ids := _builtin_function_ids g;
          _numpy_function_ids := _numpy_function_ids g;
          _builtin_constant_ids := s |};
     Class.lazy_initializer :=
       Class.ret (Registry.DictValue builtin_constant_ids_init) |}.

Definition is_builtin_callable (obj : Z) : Class.MS Sets bool :=
  Class.__contains__ builtin_functions obj.

Definition is_builtin_constant (obj : Z) : Class.MS Sets bool :=
  Class.__contains__ builtin_constants obj.

Definition is_numpy (obj : Z) : Class.MS Sets bool :=
  if HAS_NUMPY N then
    if is_ndarray N obj then Class.ret true
    else Class.__contains__ numpy_functions obj
  else Class.ret false.

(** One query of the fixed-domain sets. *)
Inductive Query : Type :=
  | IsBuiltinCallable (obj : Z)
  | IsBuiltinConstant (obj : Z)
  | IsNumpy (obj : Z).

Definition ask (q : Query) : Class.MS Sets bool :=
  match q with
  | IsBuiltinCallable obj => is_builtin_callable obj
  | IsBuiltinConstant obj => is_builtin_constant obj
  | IsNumpy obj => is_numpy obj
  end.

Definition ask_all (qs : list Query) (g : Sets) : Sets :=
  foldl (fun g q => Class.exec (ask q) g) g qs.

End WithNamespaces.

End Collectors.

(** ** What runs when the module is imported *)

Module ModuleImport.
Import Registry.

(** The package [einops] as [_allow_in_graph_einops] reads it:
    [allow_ops_in_compiled_graph] of [einops._torch_specific] when that
    import succeeds (einops 0.6.1 and later), a function of the package
    of which nothing is known here; [rearrange] and [reduce]; and the
    four functions looked up with [hasattr]. *)
Record Einops : Type := {
  allow_ops_in_compiled_graph : option (M unit);
  rearrange : Z;
  reduce : Z;
  repeat : option Z;
  einsum : option Z;
  pack : option Z;
  unpack : option Z;
}.

Record Imports : Type := {
  (** the function object of [def graph_break(): pass] *)
  graph_break : Z;
  (** [import einops], [None] when it raises [ImportError] *)
  einops : option Einops;
}.

Section WithEnv.

Variable E : Env.
Variable I : Imports.

(** The decorator line of [graph_break]: [inner] is called on the
    function at import time, and its result is bound to the name. *)
Definition decorate_graph_break : M PyValue :=
  _disallow_in_graph_helper E false (Ref (graph_break I)).

(** [if hasattr(einops, name): allow_in_graph(einops.name)] *)
Definition allow_if_present (f : option Z) : M unit :=
  match f with
  | Some f => let* _ := allow_in_graph E (Ref f) in ret tt
  | None => ret tt
  end.

Definition _allow_in_graph_einops : M unit :=
  match einops I with
  | None => ret tt
  | Some e =>
      match allow_ops_in_compiled_graph e with
      | Some allow_ops => allow_ops
      | None =>
          let* _ := allow_in_graph E (Ref (rearrange e)) in
          let* _ := allow_in_graph E (Ref (reduce e)) in
          let* _ := allow_if_present (repeat e) in
          let* _ := allow_if_present (einsum e) in
          let* _ := allow_if_present (pack e) in
          allow_if_present (unpack e)
      end
  end.

(** The statements of the module that touch the sets, in order. *)
Definition module_import : M unit :=
  let* _ := decorate_graph_break in
  _allow_in_graph_einops.

(** The functions of [einops] that the branch for the older releases
    allows. *)
Definition legacy_functions (e : Einops) : list Z :=
  rearrange e :: reduce e
  :: (option_list (repeat e) ++ option_list (einsum e)
      ++ option_list (pack e) ++ option_list (unpack e))%list.

End WithEnv.

End ModuleImport.

(** ** Notions used to state further properties *)

Module Notions.
Import Discovery Registry.

(** The test under which the loop of [_find_torch_objects] records a
    binding whose identity is not recorded yet. *)
Definition recordable (obj : PyObject) : bool :=
  match obj with
  | Module obj_name _ =>
      startswith obj_name "torch." && _is_allowed_module_prefix obj
  | Object _ _ =>
      _is_allowed_module_prefix obj
      || (bool_decide (inspect_getmodule obj = None) && negb (is_safe_constant obj))
  end.

(** The result of the single-object override on each object of a list,
    in order. *)
Definition allow_all (E : Env) (fs : list Z) (g : Globals) : Globals :=
  foldl (fun g f => allow_state E f g) g fs.

(** The calls that only read: a discovery or a query. *)
Definition is_query (op : Operation) : bool :=
  match op with
  | Discover | IsAllowed _ | TorchGetName _ _ => true
  | _ => false
  end.

(** The set and the names that [__call__] assigns for the value of the
    lazy initializer. *)
Definition ids_of (value : LazyValue) : gset Z :=
  match value with
  | DictValue d => dom d
  | SetValue s => s
  end.

Definition names_after (value : LazyValue) (names : option (gmap Z string)) :
    option (gmap Z string) :=
  match value with
  | DictValue d => Some d
  | SetValue _ => names
  end.

(** Every entry of [ids] is in [r] with the same name. *)
Definition kept (ids r : Names) : Prop :=
  forall j n, ids !! j = Some n -> r !! j = Some n.

(** The module [c], when it matches no ignore-list prefix, is in [r]
    under its own [__name__], together with every object it binds that
    passes the test of the loop. *)
Definition visited_in_full (ignorelist : list string) (h : Heap)
    (r : Names) (c : Z) : Prop :=
  forall name items,
    h !! c = Some (Module name items) ->
    ignored ignorelist name = false ->
    r !! c = Some name
    /\ forall binding j obj,
         (binding, j) ∈ items -> h !! j = Some obj -> recordable obj = true ->
         is_Some (r !! j).

(** What a call on [c] that starts from [ids], ends with [r] and makes
    the calls [calls] guarantees. *)
Definition call_spec (ignorelist : list string) (h : Heap)
    (c : Z) (ids r : Names) (calls : list Z) : Prop :=
  (forall j n, j ≠ c -> ids !! j = Some n -> r !! j = Some n)
  /\ (is_Some (ids !! c) -> is_Some (r !! c))
  /\ Forall (visited_in_full ignorelist h r) calls.

(** Each of the three fixed-domain sets is not materialized yet, or
    holds what its initializer returns. *)
Definition untouched (N : Collectors.Namespaces) (g : Collectors.Sets) : Prop :=
  (function_ids (Collectors._builtin_function_ids g) = None
   \/ function_ids (Collectors._builtin_function_ids g)
      = Some (dom (Collectors.builtin_function_ids_init N)))
  /\ (function_ids (Collectors._numpy_function_ids g) = None
      \/ function_ids (Collectors._numpy_function_ids g)
         = Some (dom (Collectors.numpy_function_ids_init N)))
  /\ (function_ids (Collectors._builtin_constant_ids g) = None
      \/ function_ids (Collectors._builtin_constant_ids g)
         = Some (dom (Collectors.builtin_constant_ids_init N))).

End Notions.

(** ** A small process to evaluate the definitions on *)

Module Examples.
Import Discovery Registry.

(** The root [torch] (1) binds the module [torch.A] (2), a function
    [add] (5), the module [torch.nn.functional] (9) under the alias [F],
    and itself. [torch.A] binds a function [f] (3), the module
    [torch.A.sub] (4) and its parent; [torch.A.sub] binds a function [g]
    (6) and its parent. The root [math] (8) binds [sin] (10). *)
Definition heap_A : Heap :=
  list_to_map
    [ (1, Module "torch" [("A", 2); ("add", 5); ("F", 9); ("self", 1)]);
      (2, Module "torch.A" [("f", 3); ("sub", 4); ("parent", 1)]);
      (3, Object (Some "torch.A") false);
      (4, Module "torch.A.sub" [("g", 6); ("up", 2)]);
      (5, Object (Some "torch") false);
      (6, Object (Some "torch.A.sub") false);
      (8, Module "math" [("sin", 10)]);
      (9, Module "torch.nn.functional" []);
      (10, Object (Some "math") false) ].

Definition world_A : World :=
  {| heap := heap_A;
     allowed_functions_module_string_ignorelist := ["torch.A.sub."];
     torch := 1;
     math := 8;
     tensor_dir := [("abs", 7, true); ("__doc__", 11, false)] |}.

(** The same process with the prefix written without its final dot. *)
Definition world_B : World :=
  {| heap := heap_A;
     allowed_functions_module_string_ignorelist := ["torch.A.sub"];
     torch := 1;
     math := 8;
     tensor_dir := [("abs", 7, true); ("__doc__", 11, false)] |}.

(** What the traversals and the method loop build for [world_A]. *)
Definition names_A : Names :=
  list_to_map
    [ (1, "torch"); (2, "torch.A"); (3, "torch.A.f"); (4, "torch.A.sub");
      (5, "torch.add"); (6, "torch.A.sub.g"); (7, "torch.Tensor.abs");
      (8, "math"); (9, "torch.nn.functional"); (10, "math.sin") ].

(** Every object is callable but the constant 50; 40 is an operator
    overload; [remove] lists 50, 51 and the function [torch.add] (5); 60
    and 61 are [is_fx_tracing] and [is_compiling]; 70 is a function of
    the user, outside [torch]; 80 is a built-in function and 81 the
    built-in class [int], on which no attribute can be assigned. *)
Definition env_A : Env :=
  {| callable := fun obj => negb (Z.eqb obj 50);
     is_dispatch_wrapper := fun obj => Z.eqb obj 40;
     remove_ids := [50; 51; 5];
     torch_object_ids := names_A;
     is_fx_tracing := 60;
     is_compiling := 61;
     accepts_attributes := fun obj => negb (Z.eqb obj 80 || Z.eqb obj 81);
     is_immutable_type := fun obj => Z.eqb obj 81 |}.

End Examples.

Module MoreExamples.

(** [builtins] binds the function [len] (100), the constant [True]
    (101), a private function (102), the string [__doc__] (103) and [abs]
    (104); [operator] binds [add] (110), [abs] again and a private alias
    (111); 120, 121 and 122 are [chain], [islice] and [reduce]. [np]
    binds [sum] (130), the class [ndarray] (131) and [seed] (132), a
    function of [numpy.random], which [np.random] binds too; 140 is an
    array. *)
Definition namespaces_A : Collectors.Namespaces :=
  {| Collectors.callable := fun v => negb (Z.eqb v 101 || Z.eqb v 103 || Z.eqb v 140);
     Collectors.builtins :=
       [("len", 100); ("True", 101); ("_private", 102); ("__doc__", 103); ("abs", 104)];
     Collectors.operator := [("add", 110); ("abs", 104); ("_abs", 111)];
     Collectors.itertools_chain := 120;
     Collectors.itertools_islice := 121;
     Collectors.functools_reduce := 122;
     Collectors.HAS_NUMPY := true;
     Collectors.np_name := "numpy";
     Collectors.np := [("sum", 130); ("ndarray", 131); ("seed", 132)];
     Collectors.np_random_name := "numpy.random";
     Collectors.np_random := [("seed", 132)];
     Collectors.dunder_module := fun v =>
       if Z.eqb v 130 || Z.eqb v 131 then Some "numpy"
       else if Z.eqb v 132 then Some "numpy.random"
       else None;
     Collectors.is_ndarray := fun v => Z.eqb v 140 |}.

(** [graph_break] is the function 90; the package [einops] is an old
    release with [rearrange] (91), [reduce] (92) and [repeat] (93). *)
Definition imports_A : ModuleImport.Imports :=
  {| ModuleImport.graph_break := 90;
     ModuleImport.einops :=
       Some {| ModuleImport.allow_ops_in_compiled_graph := None;
               ModuleImport.rearrange := 91;
               ModuleImport.reduce := 92;
               ModuleImport.repeat := Some 93;
               ModuleImport.einsum := None;
               ModuleImport.pack := None;
               ModuleImport.unpack := None |} |}.

(** A store where [torch] binds a safe constant without module (20),
    a class of [torch.optim.sgd] (21), the module [os] (22) and the
    function [add] (5). *)
Definition heap_C : Discovery.Heap :=
  list_to_map
    [ (1, Discovery.Module "torch" [("pi", 20); ("SGD", 21); ("os", 22); ("add", 5)]);
      (5, Discovery.Object (Some "torch") false);
      (8, Discovery.Module "math" []);
      (20, Discovery.Object None true);
      (21, Discovery.Object (Some "torch.optim.sgd") false);
      (22, Discovery.Module "os" []) ].

Definition world_C : Discovery.World :=
  {| Discovery.heap := heap_C;
     Discovery.allowed_functions_module_string_ignorelist := [];
     Discovery.torch := 1;
     Discovery.math := 8;
     Discovery.tensor_dir := [("abs", 7, true)] |}.

Definition names_C : gmap Z string :=
  list_to_map [ (1, "torch"); (5, "torch.add"); (7, "torch.Tensor.abs"); (8, "math") ].

(** What the traversal from [torch] builds for [Examples.world_A], and
    the modules it is called on. *)
Definition names_A_torch : gmap Z string :=
  list_to_map
    [ (1, "torch"); (2, "torch.A"); (3, "torch.A.f"); (4, "torch.A.sub");
      (5, "torch.add"); (6, "torch.A.sub.g"); (9, "torch.nn.functional") ].

Definition calls_A : list Z := [1; 2; 4; 9].

(** A store without cycle of [depth + 1] modules nested in one another:
    [torch] (0) binds [torch.m] (1), which binds [torch.m.m] (2), and
    so on down to the module of identity [depth], which binds nothing;
    [math] (-1) binds nothing. *)
Fixpoint deep_suffix (k : nat) : string :=
  match k with
  | O => ""
  | S k' => ".m" ++ deep_suffix k'
  end.

Definition deep_name (k : nat) : string := "torch" ++ deep_suffix k.

Fixpoint deep_modules (k depth : nat) : Discovery.Heap :=
  match depth with
  | O => {[ Z.of_nat k := Discovery.Module (deep_name k) [] ]}
  | S depth' =>
      <[ Z.of_nat k := Discovery.Module (deep_name k) [("m", Z.of_nat (S k))] ]>
        (deep_modules (S k) depth')
  end.

Definition deep_world (depth : nat) : Discovery.World :=
  {| Discovery.heap := <[ -1 := Discovery.Module "math" [] ]> (deep_modules 0 depth);
     Discovery.allowed_functions_module_string_ignorelist := [];
     Discovery.torch := 0;
     Discovery.math := -1;
     Discovery.tensor_dir := [] |}.

End MoreExamples.

(** * Properties *)

Module DiscoveryFacts.
Import Discovery.

Section Traversal.

Variable ignorelist : list string.
Variable h : Heap.

Lemma pending_mono (ids ids' : Names) :
  dom ids ⊆ dom ids' -> (pending h ids' <= pending h ids)%nat.
Proof.
  intros Hsub. unfold pending. apply subseteq_size. set_solver.
Qed.

Lemma pending_insert (ids : Names) j n o :
  h !! j = Some o -> ids !! j = None ->
  (pending h (<[j := n]> ids) < pending h ids)%nat.
Proof.
  intros Hj Hnone. unfold pending. apply subset_size.
  assert (j ∈ dom h) by (apply elem_of_dom; eauto).
  assert (j ∉ dom ids) by (apply not_elem_of_dom; done).
  rewrite dom_insert_L. set_solver.
Qed.

Lemma closed_lookup m name items :
  closed h = true ->
  h !! m = Some (Module name items) ->
  Forall (fun binding : string * Z => is_Some (h !! binding.2)) items.
Proof.
  unfold closed. rewrite forallb_forall. intros Hc Hm.
  specialize (Hc (m, Module name items)).
  rewrite <- list_elem_of_In, elem_of_map_to_list in Hc.
  specialize (Hc Hm). cbn in Hc.
  rewrite forallb_forall in Hc. apply Forall_forall. intros b Hb.
  apply list_elem_of_In, Hc, bool_decide_eq_true in Hb. exact Hb.
Qed.

(** ** Termination *)

Lemma visit_bindings_total recurse k module_name :
  (forall c (ids : Names), is_module h c = true -> (pending h ids < k)%nat ->
     exists r : Names, recurse c ids = Some r /\ dom ids ⊆ dom r) ->
  forall items (ids : Names),
    Forall (fun binding : string * Z => is_Some (h !! binding.2)) items ->
    (pending h ids <= k)%nat ->
    exists r : Names,
      visit_bindings h recurse module_name items ids = Some r /\ dom ids ⊆ dom r.
Proof.
  intros Hrec. induction items as [|[name j] rest IH]; intros ids Hall Hk.
  - exists ids. split; [reflexivity | set_solver].
  - inversion Hall as [|? ? [o Ho] Hrest]; subst. cbn in Ho.
    assert (exists ids1 : Names,
               visit_binding h recurse module_name (name, j) ids = Some ids1
               /\ dom ids ⊆ dom ids1) as (ids1 & Hstep & Hsub).
    { unfold visit_binding. destruct (ids !! j) eqn:Hj.
      - exists ids. split; [reflexivity | set_solver].
      - rewrite Ho. destruct o as [obj_name obj_items | gm sc].
        + destruct (_ && _).
          * destruct (Hrec j (<[j := module_name ++ "." ++ name]> ids)) as (r & Hr & Hd).
            { unfold is_module. rewrite Ho. reflexivity. }
            { eapply Nat.lt_le_trans; [eapply pending_insert; eauto | exact Hk]. }
            exists r. split; [exact Hr|]. rewrite dom_insert_L in Hd. set_solver.
          * exists ids. split; [reflexivity | set_solver].
        + repeat match goal with |- context [if ?b then _ else _] => destruct b end;
            eexists; (split; [reflexivity|]); rewrite ?dom_insert_L; set_solver. }
    cbn [visit_bindings]. rewrite Hstep.
    destruct (IH ids1 Hrest) as (r & Hr & Hd).
    { etransitivity; [apply pending_mono; exact Hsub | exact Hk]. }
    exists r. split; [exact Hr | set_solver].
Qed.

Lemma find_torch_objects_total :
  closed h = true ->
  forall fuel module (ids : Names),
    is_module h module = true ->
    (pending h ids < fuel)%nat ->
    exists r : Names,
      _find_torch_objects ignorelist h fuel module ids = Some r /\ dom ids ⊆ dom r.
Proof.
  intros Hclosed. induction fuel as [|fuel IH]; intros module ids Hmod Hfuel; [lia|].
  unfold is_module in Hmod. cbn [_find_torch_objects].
  destruct (h !! module) as [[module_name items|]|] eqn:Hm; try discriminate.
  destruct (ignored ignorelist module_name).
  - exists ids. split; [reflexivity | set_solver].
  - destruct (visit_bindings_total (_find_torch_objects ignorelist h fuel) fuel
                module_name IH items (<[module := module_name]> ids))
      as (r & Hr & Hd).
    + eapply closed_lookup; eauto.
    + assert (pending h (<[module := module_name]> ids) <= pending h ids)%nat.
      { apply pending_mono. rewrite dom_insert_L. set_solver. }
      lia.
    + exists r. split; [exact Hr|]. rewrite dom_insert_L in Hd. set_solver.
Qed.

Lemma pending_bound (ids : Names) : (pending h ids < enough_fuel h)%nat.
Proof.
  unfold pending, enough_fuel. rewrite <- (size_dom (D := gset Z) h).
  apply Nat.lt_succ_r, subseteq_size. set_solver.
Qed.

(** More fuel does not change a result. *)
Lemma visit_bindings_more (rec1 rec2 : Z -> Names -> option Names) module_name :
  (forall c ids r, rec1 c ids = Some r -> rec2 c ids = Some r) ->
  forall items ids r,
    visit_bindings h rec1 module_name items ids = Some r ->
    visit_bindings h rec2 module_name items ids = Some r.
Proof.
  intros Hrec. induction items as [|[name j] rest IH]; intros ids r; [done|].
  cbn [visit_bindings].
  destruct (visit_binding h rec1 module_name (name, j) ids) as [ids1|] eqn:Hstep;
    [|discriminate].
  assert (visit_binding h rec2 module_name (name, j) ids = Some ids1) as ->.
  { revert Hstep. unfold visit_binding.
    destruct (ids !! j); [done|]. destruct (h !! j) as [[? ?|? ?]|]; try done.
    destruct (_ && _); [apply Hrec | done]. }
  apply IH.
Qed.

Lemma find_torch_objects_more fuel :
  forall fuel' module ids r,
    (fuel <= fuel')%nat ->
    _find_torch_objects ignorelist h fuel module ids = Some r ->
    _find_torch_objects ignorelist h fuel' module ids = Some r.
Proof.
  induction fuel as [|fuel IH]; intros fuel' module ids r Hle; [discriminate|].
  destruct fuel' as [|fuel']; [lia|]. cbn [_find_torch_objects].
  destruct (h !! module) as [[module_name items|]|]; try done.
  destruct (ignored ignorelist module_name); [done|].
  apply visit_bindings_more. intros c ids1 r1. apply IH. lia.
Qed.

(** ** The traced traversal computes the same dictionary *)

Lemma visit_bindings_traced_fst rect (rec : Z -> Names -> option Names) module_name :
  (forall c ids, fst <$> rect c ids = rec c ids) ->
  forall items ids,
    fst <$> visit_bindings_traced h rect module_name items ids
    = visit_bindings h rec module_name items ids.
Proof.
  intros Hrec. induction items as [|[name j] rest IH]; intros ids; [done|].
  cbn [visit_bindings visit_bindings_traced].
  assert (fst <$> visit_binding_traced h rect module_name (name, j) ids
          = visit_binding h rec module_name (name, j) ids) as Hstep.
  { unfold visit_binding, visit_binding_traced.
    destruct (ids !! j); [done|]. destruct (h !! j) as [[? ?|? ?]|]; try done.
    - destruct (_ && _); [apply Hrec | done].
    - repeat match goal with |- context [if ?b then _ else _] => destruct b end; done. }
  rewrite <- Hstep.
  destruct (visit_binding_traced h rect module_name (name, j) ids) as [[ids1 c1]|];
    [|done].
  cbn. rewrite <- IH.
  destruct (visit_bindings_traced h rect module_name rest ids1) as [[ids2 c2]|]; done.
Qed.

Lemma find_torch_objects_traced_fst fuel :
  forall module ids,
    fst <$> _find_torch_objects_traced ignorelist h fuel module ids
    = _find_torch_objects ignorelist h fuel module ids.
Proof.
  induction fuel as [|fuel IH]; intros module ids; [done|].
  cbn [_find_torch_objects _find_torch_objects_traced].
  destruct (h !! module) as [[module_name items|]|]; try done.
  destruct (ignored ignorelist module_name); [done|].
  rewrite <- (visit_bindings_traced_fst _ _ module_name (IH)).
  destruct (visit_bindings_traced _ _ _ _ _) as [[ids1 c1]|]; done.
Qed.

(** ** No module is entered twice *)

Lemma fresh_calls_nil (ids : Names) : fresh_calls ids ids [].
Proof. split; [set_solver|]. split; [constructor|]. intros c Hc. inversion Hc. Qed.

Lemma fresh_calls_insert (ids : Names) j n :
  fresh_calls ids (<[j := n]> ids) [].
Proof.
  split; [rewrite dom_insert_L; set_solver|]. split; [constructor|].
  intros c Hc. inversion Hc.
Qed.

Lemma fresh_calls_app (ids r1 r2 : Names) c1 c2 :
  fresh_calls ids r1 c1 -> fresh_calls r1 r2 c2 -> fresh_calls ids r2 (c1 ++ c2).
Proof.
  intros (Hd1 & Hn1 & Hc1) (Hd2 & Hn2 & Hc2). split; [set_solver|]. split.
  - apply NoDup_app. split; [exact Hn1|]. split; [|exact Hn2].
    intros c Hin1 Hin2. apply Hc1 in Hin1. apply Hc2 in Hin2. tauto.
  - intros c Hc. apply elem_of_app in Hc as [Hc|Hc].
    + apply Hc1 in Hc. set_solver.
    + apply Hc2 in Hc. set_solver.
Qed.

Lemma visit_bindings_traced_fresh rect module_name :
  (forall c ids r calls, rect c ids = Some (r, calls) -> entered_once c ids r calls) ->
  forall items ids r calls,
    visit_bindings_traced h rect module_name items ids = Some (r, calls) ->
    fresh_calls ids r calls.
Proof.
  intros Hrec. induction items as [|[name j] rest IH]; intros ids r calls.
  - cbn. intros [= <- <-]. apply fresh_calls_nil.
  - cbn [visit_bindings_traced].
    destruct (visit_binding_traced h rect module_name (name, j) ids)
      as [[ids1 c1]|] eqn:Hstep; [|discriminate].
    destruct (visit_bindings_traced h rect module_name rest ids1)
      as [[ids2 c2]|] eqn:Hrest; [|discriminate].
    intros [= <- <-]. apply fresh_calls_app with ids1; [|eapply IH; exact Hrest].
    clear Hrest IH. revert Hstep. unfold visit_binding_traced.
    destruct (ids !! j) eqn:Hj; [intros [= <- <-]; apply fresh_calls_nil|].
    destruct (h !! j) as [[? ?|? ?]|]; try discriminate.
    + destruct (_ && _); [|intros [= <- <-]; apply fresh_calls_nil].
      intros Hcall. apply Hrec in Hcall as (rest' & -> & Hd & Hn & Hc).
      rewrite dom_insert_L in Hd, Hc.
      apply not_elem_of_dom in Hj.
      split; [set_solver|]. split.
      * constructor; [|exact Hn]. intros Hin. apply Hc in Hin. tauto.
      * intros c Hin. apply elem_of_cons in Hin as [->|Hin]; [set_solver|].
        apply Hc in Hin. set_solver.
    + repeat match goal with |- context [if ?b then _ else _] => destruct b end;
        intros [= <- <-]; auto using fresh_calls_nil, fresh_calls_insert.
Qed.

Lemma find_torch_objects_traced_once fuel :
  forall module ids r calls,
    _find_torch_objects_traced ignorelist h fuel module ids = Some (r, calls) ->
    entered_once module ids r calls.
Proof.
  induction fuel as [|fuel IH]; intros module ids r calls; [discriminate|].
  cbn [_find_torch_objects_traced].
  destruct (h !! module) as [[module_name items|]|]; try discriminate.
  destruct (ignored ignorelist module_name).
  - intros [= <- <-]. exists []. split; [reflexivity|]. split; [set_solver|].
    split; [constructor|]. intros c Hc. inversion Hc.
  - destruct (visit_bindings_traced _ _ _ _ _) as [[ids1 c1]|] eqn:Hloop; [|discriminate].
    intros [= <- <-].
    apply (visit_bindings_traced_fresh _ module_name IH) in Hloop as (Hd & Hn & Hc).
    rewrite dom_insert_L in Hd, Hc.
    exists c1. split; [reflexivity|]. split; [set_solver|]. split; [exact Hn|].
    intros c Hin. apply Hc in Hin. set_solver.
Qed.

(** ** Entries already present survive a visit *)

Lemma visit_binding_traced_present recurse module_name name j (ids : Names) n :
  ids !! j = Some n ->
  visit_binding_traced h recurse module_name (name, j) ids = Some (ids, []).
Proof. intros Hj. unfold visit_binding_traced. rewrite Hj. reflexivity. Qed.

Lemma visit_binding_present recurse module_name name j (ids : Names) n :
  ids !! j = Some n ->
  visit_binding h recurse module_name (name, j) ids = Some ids.
Proof. intros Hj. unfold visit_binding. rewrite Hj. reflexivity. Qed.

Lemma visit_bindings_keeps (recurse : Z -> Names -> option Names) module_name :
  (forall c (ids r : Names), recurse c ids = Some r ->
     forall j n, j ≠ c -> ids !! j = Some n -> r !! j = Some n) ->
  forall items (ids r : Names),
    visit_bindings h recurse module_name items ids = Some r ->
    forall j n, ids !! j = Some n -> r !! j = Some n.
Proof.
  intros Hrec. induction items as [|[name k] rest IH]; intros ids r.
  - cbn. intros [= <-]. auto.
  - cbn [visit_bindings].
    destruct (visit_binding h recurse module_name (name, k) ids) as [ids1|] eqn:Hstep;
      [|discriminate].
    intros Hrest j n Hj. eapply IH; [exact Hrest|].
    revert Hstep. unfold visit_binding.
    destruct (ids !! k) eqn:Hk; [intros [= <-]; exact Hj|].
    assert (j ≠ k) as Hne by congruence.
    destruct (h !! k) as [[? ?|? ?]|]; try discriminate.
    + destruct (_ && _); [|intros [= <-]; exact Hj].
      intros Hcall. eapply Hrec; [exact Hcall | exact Hne |].
      rewrite lookup_insert_ne by congruence. exact Hj.
    + repeat match goal with |- context [if ?b then _ else _] => destruct b end;
        intros [= <-]; rewrite ?lookup_insert_ne by congruence; exact Hj.
Qed.

Lemma find_torch_objects_keeps fuel :
  forall module (ids r : Names),
    _find_torch_objects ignorelist h fuel module ids = Some r ->
    forall j n, j ≠ module -> ids !! j = Some n -> r !! j = Some n.
Proof.
  induction fuel as [|fuel IH]; intros module ids r; [discriminate|].
  cbn [_find_torch_objects].
  destruct (h !! module) as [[module_name items|]|]; try discriminate.
  destruct (ignored ignorelist module_name); [intros [= <-]; auto|].
  intros Hloop j n Hne Hj.
  eapply (visit_bindings_keeps _ module_name IH); [exact Hloop|].
  rewrite lookup_insert_ne by congruence. exact Hj.
Qed.

(** The module a call is made on: its entry is set to its [__name__],
    unless that name matches the ignore list, and then the call changes
    nothing. *)
Lemma find_torch_objects_own_entry fuel module (ids r : Names) :
  _find_torch_objects ignorelist h fuel module ids = Some r ->
  exists module_name items,
    h !! module = Some (Module module_name items)
    /\ (ignored ignorelist module_name = true -> r = ids)
    /\ (ignored ignorelist module_name = false -> r !! module = Some module_name).
Proof.
  destruct fuel as [|fuel]; [discriminate|]. cbn [_find_torch_objects].
  destruct (h !! module) as [[module_name items|]|]; try discriminate.
  intros Hr. exists module_name, items. split; [reflexivity|].
  destruct (ignored ignorelist module_name).
  - split; [intros _; congruence | discriminate].
  - split; [discriminate | intros _].
    eapply (visit_bindings_keeps _ module_name (find_torch_objects_keeps fuel));
      [exact Hr|].
    apply lookup_insert_eq.
Qed.

(** ** Where recorded names come from *)

Lemma visit_bindings_origin (recurse : Z -> Names -> option Names) module module_name all :
  h !! module = Some (Module module_name all) ->
  ignored ignorelist module_name = false ->
  (forall c (ids r : Names), recurse c ids = Some r ->
     forall j n, r !! j = Some n -> ids !! j = Some n \/ recorded_from_visited ignorelist h j n) ->
  forall items (ids r : Names),
    items ⊆ all ->
    visit_bindings h recurse module_name items ids = Some r ->
    forall j n, r !! j = Some n -> ids !! j = Some n \/ recorded_from_visited ignorelist h j n.
Proof.
  intros Hm Hign Hrec. induction items as [|[name k] rest IH]; intros ids r Hsub.
  - cbn. intros [= <-]. auto.
  - cbn [visit_bindings].
    destruct (visit_binding h recurse module_name (name, k) ids) as [ids1|] eqn:Hstep;
      [|discriminate].
    intros Hrest j n Hj.
    assert (forall j n, <[k := module_name ++ "." ++ name]> ids !! j = Some n ->
              ids !! j = Some n \/ recorded_from_visited ignorelist h j n) as Hins.
    { intros j' n'. destruct (decide (j' = k)) as [->|Hne].
      - rewrite lookup_insert_eq. intros [= <-]. right.
        exists module, module_name, all. repeat split; try assumption.
        right. exists name. split; [|reflexivity]. apply Hsub. left.
      - rewrite lookup_insert_ne by congruence. auto. }
    destruct (IH ids1 r) with (j := j) (n := n) as [Hj1|Hj1]; auto.
    { intros x Hx. apply Hsub. right. exact Hx. }
    revert Hstep. unfold visit_binding.
    destruct (ids !! k); [intros [= <-]; auto|].
    destruct (h !! k) as [[? ?|? ?]|]; try discriminate.
    + destruct (_ && _); [|intros [= <-]; auto].
      intros Hcall. destruct (Hrec _ _ _ Hcall j n Hj1); auto.
    + repeat match goal with |- context [if ?b then _ else _] => destruct b end;
        intros [= <-]; auto.
Qed.

Lemma find_torch_objects_origin fuel :
  forall module (ids r : Names),
    _find_torch_objects ignorelist h fuel module ids = Some r ->
    forall j n, r !! j = Some n -> ids !! j = Some n \/ recorded_from_visited ignorelist h j n.
Proof.
  induction fuel as [|fuel IH]; intros module ids r; [discriminate|].
  cbn [_find_torch_objects].
  destruct (h !! module) as [[module_name items|]|] eqn:Hm; try discriminate.
  destruct (ignored ignorelist module_name) eqn:Hign; [intros [= <-]; auto|].
  intros Hloop j n Hj.
  destruct (visit_bindings_origin _ module module_name items Hm Hign IH
              items _ r (reflexivity _) Hloop j n Hj) as [Hin|Hrec]; [|auto].
  destruct (decide (j = module)) as [->|Hne].
  - rewrite lookup_insert_eq in Hin. injection Hin as <-. right.
    exists module, module_name, items. repeat split; auto.
  - rewrite lookup_insert_ne in Hin by congruence. auto.
Qed.

Lemma find_torch_objects_ignored fuel module module_name items (ids : Names) :
  h !! module = Some (Module module_name items) ->
  ignored ignorelist module_name = true ->
  _find_torch_objects ignorelist h (S fuel) module ids = Some ids.
Proof. intros Hm Hign. cbn [_find_torch_objects]. rewrite Hm, Hign. reflexivity. Qed.

(** ** The depth of the recursion *)

Lemma enters_intro module module_name items name j obj_name obj_items :
  h !! module = Some (Module module_name items) ->
  ignored ignorelist module_name = false ->
  (name, j) ∈ items ->
  h !! j = Some (Module obj_name obj_items) ->
  startswith obj_name "torch." && _is_allowed_module_prefix (Module obj_name obj_items)
  = true ->
  enters ignorelist h module j = true.
Proof.
  intros Hm Hign Hin Hj Htest. unfold enters. rewrite Hm, Hj, Hign, Htest.
  rewrite andb_true_r. cbn. apply existsb_exists. exists (name, j).
  split; [apply list_elem_of_In; exact Hin | apply Z.eqb_refl].
Qed.

Lemma enters_children parent child :
  enters ignorelist h parent child = true ->
  exists module_name items,
    h !! parent = Some (Module module_name items)
    /\ child ∈ map snd items
    /\ is_module h child = true.
Proof.
  unfold enters, is_module.
  destruct (h !! parent) as [[module_name items|]|]; try discriminate.
  destruct (h !! child) as [[obj_name obj_items|]|]; try discriminate.
  rewrite !andb_true_iff. intros [[_ Hin] _]. exists module_name, items.
  split; [reflexivity|]. split; [|reflexivity].
  apply existsb_exists in Hin as ([name j] & Hin & Heq). cbn in Heq.
  apply Z.eqb_eq in Heq. subst child. apply list_elem_of_In in Hin.
  apply list_elem_of_fmap. exists (name, j). split; [reflexivity | exact Hin].
Qed.

Lemma nested_modules root path :
  is_module h root = true ->
  nested ignorelist h (root :: path) = true ->
  forall c, c ∈ root :: path -> is_module h c = true.
Proof.
  revert root. induction path as [|child rest IH]; intros root Hroot Hnested c Hc.
  - apply list_elem_of_singleton in Hc as ->. exact Hroot.
  - apply elem_of_cons in Hc as [->|Hc]; [exact Hroot|].
    cbn [nested] in Hnested. apply andb_true_iff in Hnested as [Henters Hrest].
    apply enters_children in Henters as (? & ? & _ & _ & Hchild).
    eapply IH; eassumption.
Qed.

(** A chain of distinct modules is no longer than the store is large. *)
Lemma nesting_within_size root :
  is_module h root = true -> nesting_within ignorelist h (size h) root.
Proof.
  intros Hroot path Hnested Hnodup.
  rewrite <- (size_dom (D := gset Z) h).
  rewrite <- (size_list_to_set (C := gset Z) (root :: path)) by exact Hnodup.
  apply subseteq_size. intros c Hc. apply elem_of_list_to_set in Hc.
  pose proof (nested_modules root path Hroot Hnested c Hc) as Hmod.
  unfold is_module in Hmod. apply elem_of_dom.
  destruct (h !! c); [eauto | discriminate].
Qed.

Lemma visit_bindings_within recurse module_name (enter : Z -> Names -> Prop) :
  (forall c (ids : Names), enter c ids ->
     exists r : Names, recurse c ids = Some r /\ dom ids ⊆ dom r) ->
  forall items (ids : Names),
    Forall (fun binding : string * Z => is_Some (h !! binding.2)) items ->
    (forall name j obj_name obj_items (ids' : Names),
        (name, j) ∈ items -> dom ids ⊆ dom ids' -> ids' !! j = None ->
        h !! j = Some (Module obj_name obj_items) ->
        startswith obj_name "torch."
        && _is_allowed_module_prefix (Module obj_name obj_items) = true ->
        enter j (<[j := module_name ++ "." ++ name]> ids')) ->
    exists r : Names,
      visit_bindings h recurse module_name items ids = Some r /\ dom ids ⊆ dom r.
Proof.
  intros Hrec. induction items as [|[name j] rest IH]; intros ids Hall Henter.
  - exists ids. split; [reflexivity | set_solver].
  - inversion Hall as [|? ? [o Ho] Hrest]; subst. cbn in Ho.
    assert (exists ids1 : Names,
               visit_binding h recurse module_name (name, j) ids = Some ids1
               /\ dom ids ⊆ dom ids1) as (ids1 & Hstep & Hsub).
    { unfold visit_binding. destruct (ids !! j) eqn:Hj.
      - exists ids. split; [reflexivity | set_solver].
      - rewrite Ho. destruct o as [obj_name obj_items | gm sc].
        + destruct (_ && _) eqn:Htest.
          * destruct (Hrec j (<[j := module_name ++ "." ++ name]> ids)) as (r & Hr & Hd).
            { eapply Henter; eauto. left. }
            exists r. split; [exact Hr|]. rewrite dom_insert_L in Hd. set_solver.
          * exists ids. split; [reflexivity | set_solver].
        + repeat match goal with |- context [if ?b then _ else _] => destruct b end;
            eexists; (split; [reflexivity|]); rewrite ?dom_insert_L; set_solver. }
    cbn [visit_bindings]. rewrite Hstep.
    destruct (IH ids1 Hrest) as (r & Hr & Hd).
    { intros name' j' obj_name obj_items ids' Hin Hdom. apply Henter.
      - right. exact Hin.
      - set_solver. }
    exists r. split; [exact Hr | set_solver].
Qed.

(** A call returns when the recursion limit leaves room for every chain
    of distinct modules, none recorded yet, that starts at its module. *)
Lemma find_torch_objects_within :
  closed h = true ->
  forall fuel module (ids : Names),
    is_module h module = true ->
    (forall path,
        nested ignorelist h (module :: path) = true -> NoDup (module :: path) ->
        (forall c, c ∈ path -> ids !! c = None) ->
        (length (module :: path) <= fuel)%nat) ->
    exists r : Names,
      _find_torch_objects ignorelist h fuel module ids = Some r /\ dom ids ⊆ dom r.
Proof.
  intros Hclosed. induction fuel as [|fuel IH]; intros module ids Hmod Hdepth.
  - specialize (Hdepth [] eq_refl (NoDup_singleton module)).
    cbn in Hdepth. exfalso. apply (Nat.nle_succ_0 0), Hdepth.
    intros c Hc. inversion Hc.
  - unfold is_module in Hmod. cbn [_find_torch_objects].
    destruct (h !! module) as [[module_name items|]|] eqn:Hm; try discriminate.
    destruct (ignored ignorelist module_name) eqn:Hign.
    { exists ids. split; [reflexivity | set_solver]. }
    destruct (visit_bindings_within (_find_torch_objects ignorelist h fuel) module_name
                (fun c ids' =>
                   is_module h c = true
                   /\ forall path,
                       nested ignorelist h (c :: path) = true -> NoDup (c :: path) ->
                       (forall x, x ∈ path -> ids' !! x = None) ->
                       (length (c :: path) <= fuel)%nat))
      with (items := items) (ids := <[module := module_name]> ids) as (r & Hr & Hd).
    + intros c ids' [Hc Hpaths]. apply IH; assumption.
    + eapply closed_lookup; eauto.
    + intros name j obj_name obj_items ids' Hin Hdom Hfresh Hj Htest.
      split; [unfold is_module; rewrite Hj; reflexivity|].
      intros path Hnested Hnodup Havoid.
      assert (module ∈ dom ids') as Hmodule.
      { apply Hdom. rewrite dom_insert_L. set_solver. }
      assert (forall x, x ∈ path -> x ≠ j /\ ids' !! x = None) as Hpath.
      { intros x Hx. specialize (Havoid x Hx).
        destruct (decide (x = j)) as [->|Hne].
        - rewrite lookup_insert_eq in Havoid. discriminate.
        - rewrite lookup_insert_ne in Havoid by congruence. auto. }
      assert (forall x (m : Names), m !! x = None -> x ∉ dom m) as Hnot.
      { intros x m Hx. apply not_elem_of_dom. exact Hx. }
      assert (forall x, ids' !! x = None -> ids !! x = None) as Hsmaller.
      { intros x Hx. apply not_elem_of_dom. apply Hnot in Hx.
        rewrite dom_insert_L in Hdom. set_solver. }
      specialize (Hdepth (j :: path)). cbn [length] in Hdepth |- *.
      apply le_S_n, Hdepth.
      * change (nested ignorelist h (module :: j :: path))
          with (enters ignorelist h module j && nested ignorelist h (j :: path)).
        rewrite Hnested, andb_true_r. eapply enters_intro; eauto.
      * constructor; [|exact Hnodup].
        intros Hin'. apply elem_of_cons in Hin' as [->|Hin'].
        -- apply (Hnot _ _ Hfresh), Hmodule.
        -- apply Hpath in Hin' as [_ Hx]. apply (Hnot _ _ Hx), Hmodule.
      * intros c Hc. apply elem_of_cons in Hc as [->|Hc].
        -- apply Hsmaller, Hfresh.
        -- apply Hsmaller, Hpath, Hc.
    + exists r. split; [exact Hr|]. rewrite dom_insert_L in Hd. set_solver.
Qed.

End Traversal.

Lemma well_formed_parts (w : World) :
  well_formed w = true ->
  closed (heap w) = true /\ is_module (heap w) (torch w) = true
  /\ is_module (heap w) (math w) = true.
Proof.
  unfold well_formed. rewrite !andb_true_iff. tauto.
Qed.

Lemma discovery_pass_built limit (w : World) (names : Names) :
  discovery_pass limit w = Built names <-> walk_torch limit w = Some names.
Proof.
  unfold discovery_pass. destruct (walk_torch limit w); split; congruence.
Qed.

Lemma walk_torch_more (w : World) limit limit' (names : Names) :
  (limit <= limit')%nat ->
  walk_torch limit w = Some names -> walk_torch limit' w = Some names.
Proof.
  intros Hle. unfold walk_torch.
  destruct (_find_torch_objects _ (heap w) limit (torch w) ∅) as [r1|] eqn:Hr1;
    [|discriminate].
  destruct (_find_torch_objects _ (heap w) limit (math w) r1) as [r2|] eqn:Hr2;
    [|discriminate].
  rewrite (find_torch_objects_more _ (heap w) _ limit' _ _ _ Hle Hr1).
  rewrite (find_torch_objects_more _ (heap w) _ limit' _ _ _ Hle Hr2).
  auto.
Qed.

(** ** The store of nested modules *)

Lemma deep_modules_lookup depth : forall k j,
  (j <= depth)%nat ->
  MoreExamples.deep_modules k depth !! Z.of_nat (k + j)
  = Some (Module (MoreExamples.deep_name (k + j))
            (if (j <? depth)%nat then [("m", Z.of_nat (S (k + j)))] else [])).
Proof.
  induction depth as [|depth IH]; intros k j Hj.
  - assert (j = 0%nat) as -> by lia. rewrite Nat.add_0_r. cbn.
    apply lookup_singleton_eq.
  - cbn [MoreExamples.deep_modules]. destruct j as [|j].
    + rewrite Nat.add_0_r, lookup_insert_eq. reflexivity.
    + rewrite lookup_insert_ne by lia.
      rewrite Nat.add_succ_r. apply (IH (S k) j). lia.
Qed.

Lemma deep_modules_dom depth : forall k i o,
  MoreExamples.deep_modules k depth !! i = Some o ->
  exists j, (j <= depth)%nat /\ i = Z.of_nat (k + j).
Proof.
  induction depth as [|depth IH]; intros k i o.
  - cbn. intros [<- _]%lookup_singleton_Some. exists 0%nat. split; [lia|].
    rewrite Nat.add_0_r. reflexivity.
  - cbn [MoreExamples.deep_modules]. intros [[<- _]|[_ Hi]]%lookup_insert_Some.
    + exists 0%nat. split; [lia|]. rewrite Nat.add_0_r. reflexivity.
    + apply IH in Hi as (j & Hj & ->). exists (S j). split; [lia|].
      rewrite Nat.add_succ_r. reflexivity.
Qed.

Lemma deep_world_lookup depth j :
  (j <= depth)%nat ->
  heap (MoreExamples.deep_world depth) !! Z.of_nat j
  = Some (Module (MoreExamples.deep_name j)
            (if (j <? depth)%nat then [("m", Z.of_nat (S j))] else [])).
Proof.
  intros Hj. cbn [heap MoreExamples.deep_world].
  rewrite lookup_insert_ne by lia. apply (deep_modules_lookup depth 0 j Hj).
Qed.

Lemma deep_world_well_formed depth :
  well_formed (MoreExamples.deep_world depth) = true.
Proof.
  unfold well_formed. rewrite !andb_true_iff. repeat split.
  - unfold closed. apply forallb_forall. intros [i o] Hin.
    apply list_elem_of_In, elem_of_map_to_list in Hin.
    cbn [heap MoreExamples.deep_world] in Hin.
    apply lookup_insert_Some in Hin as [[<- <-]|[_ Hi]]; [reflexivity|].
    destruct (deep_modules_dom _ _ _ _ Hi) as (j & Hj & ->).
    rewrite (deep_modules_lookup depth 0 j Hj) in Hi. injection Hi as <-.
    cbn [snd]. destruct (j <? depth)%nat eqn:Hlt; [|reflexivity].
    apply Nat.ltb_lt in Hlt. cbn [forallb snd]. rewrite andb_true_r.
    apply bool_decide_eq_true. cbn [Nat.add].
    rewrite (deep_world_lookup depth (S j)) by lia. eauto.
  - unfold is_module. change (torch (MoreExamples.deep_world depth)) with (Z.of_nat 0).
    rewrite (deep_world_lookup depth 0) by lia. reflexivity.
  - unfold is_module. cbn [heap MoreExamples.deep_world math].
    rewrite lookup_insert_eq. reflexivity.
Qed.

Lemma deep_name_passes k items :
  startswith (MoreExamples.deep_name (S k)) "torch."
  && _is_allowed_module_prefix (Module (MoreExamples.deep_name (S k)) items) = true.
Proof. reflexivity. Qed.

(** With room for no more calls than the store has nested modules below
    [torch], the traversal runs out of frames. *)
Lemma deep_world_too_deep depth : forall fuel j (ids : Names),
  (fuel + j <= depth)%nat ->
  (forall i, (j < i)%nat -> ids !! Z.of_nat i = None) ->
  _find_torch_objects [] (heap (MoreExamples.deep_world depth)) fuel (Z.of_nat j) ids
  = None.
Proof.
  induction fuel as [|fuel IH]; intros j ids Hfuel Hids; [reflexivity|].
  cbn [_find_torch_objects]. rewrite (deep_world_lookup depth j) by lia.
  assert ((j <? depth)%nat = true) as -> by (apply Nat.ltb_lt; lia).
  change (ignored [] (MoreExamples.deep_name j)) with false.
  cbn [visit_bindings visit_binding].
  rewrite lookup_insert_ne by lia. rewrite Hids by lia.
  rewrite (deep_world_lookup depth (S j)) by lia.
  rewrite deep_name_passes. rewrite IH; [reflexivity | lia |].
  intros i Hi. rewrite !lookup_insert_ne by lia. apply Hids. lia.
Qed.

Lemma deep_world_deep_enough depth : forall fuel j (ids : Names),
  (j <= depth)%nat -> (depth < fuel + j)%nat ->
  exists r : Names,
    _find_torch_objects [] (heap (MoreExamples.deep_world depth)) fuel (Z.of_nat j) ids
    = Some r.
Proof.
  induction fuel as [|fuel IH]; intros j ids Hj Hfuel; [lia|].
  cbn [_find_torch_objects]. rewrite (deep_world_lookup depth j) by lia.
  change (ignored [] (MoreExamples.deep_name j)) with false.
  destruct (j <? depth)%nat eqn:Hlt; [|cbn; eauto].
  apply Nat.ltb_lt in Hlt. cbn [visit_bindings visit_binding].
  destruct (<[Z.of_nat j := MoreExamples.deep_name j]> ids !! Z.of_nat (S j));
    [eauto|].
  rewrite (deep_world_lookup depth (S j)) by lia. rewrite deep_name_passes.
  destruct (IH (S j)
              (<[Z.of_nat (S j) := MoreExamples.deep_name j ++ "." ++ "m"]>
                 (<[Z.of_nat j := MoreExamples.deep_name j]> ids)))
    as (r & ->); [lia | lia |]. eauto.
Qed.

Lemma deep_world_raises depth limit :
  (limit <= depth)%nat ->
  discovery_pass limit (MoreExamples.deep_world depth) = RecursionError.
Proof.
  intros Hle. unfold discovery_pass, walk_torch.
  cbn [allowed_functions_module_string_ignorelist torch MoreExamples.deep_world].
  change 0 with (Z.of_nat 0).
  rewrite (deep_world_too_deep depth limit 0 ∅); [reflexivity | lia |].
  intros i _. apply lookup_empty.
Qed.

Lemma deep_world_returns depth :
  exists names : Names,
    discovery_pass (S depth) (MoreExamples.deep_world depth) = Built names.
Proof.
  unfold discovery_pass, walk_torch.
  cbn [allowed_functions_module_string_ignorelist torch math tensor_dir
         MoreExamples.deep_world].
  change 0 with (Z.of_nat 0).
  destruct (deep_world_deep_enough depth (S depth) 0 ∅) as (r & ->); [lia | lia |].
  cbn [_find_torch_objects]. cbn [heap MoreExamples.deep_world].
  rewrite lookup_insert_eq. cbn. eauto.
Qed.

(** ** The store of the examples

    Under the ignore list of [Examples.world_A] the longest chain of
    nested modules is [torch], [torch.A], [torch.A.sub]. *)
Ltac children_of H :=
  let Hc := fresh "Hc" in
  let Hin := fresh "Hin" in
  first
    [ vm_compute in H; discriminate H
    | pose proof (enters_children _ _ _ _ H) as (? & ? & Hc & Hin & _);
      vm_compute in Hc; injection Hc as <- <-; cbn [map snd] in Hin;
      repeat (apply elem_of_cons in Hin as [->|Hin]);
      [..|apply elem_of_nil in Hin; contradiction] ].

Lemma nesting_world_A :
  nesting_within ["torch.A.sub."] Examples.heap_A 3 1
  /\ nesting_within ["torch.A.sub."] Examples.heap_A 3 8.
Proof.
  split; intros path Hnested Hnodup.
  - destruct path as [|a [|b [|c rest]]]; cbn [length]; try lia. exfalso.
    cbn [nested] in Hnested.
    apply andb_true_iff in Hnested as [H1 Hnested].
    apply andb_true_iff in Hnested as [H2 Hnested].
    assert (enters ["torch.A.sub."] Examples.heap_A b c = true) as H3.
    { destruct rest; [rewrite andb_true_r in Hnested; exact Hnested|].
      apply andb_true_iff in Hnested as [H3 _]. exact H3. }
    clear Hnested.
    children_of H1; try (vm_compute in H1; discriminate H1);
      children_of H2; try (vm_compute in H2; discriminate H2);
      children_of H3; try (vm_compute in H3; discriminate H3);
      repeat match goal with
             | H : NoDup (_ :: _) |- _ => apply NoDup_cons in H as [? ?]
             end; set_solver.
  - destruct path as [|a rest]; cbn [length]; [lia|]. exfalso.
    assert (enters ["torch.A.sub."] Examples.heap_A 8 a = true) as H1.
    { cbn [nested] in Hnested. destruct rest; [rewrite andb_true_r in Hnested; exact Hnested|].
      apply andb_true_iff in Hnested as [H1 _]. exact H1. }
    children_of H1; vm_compute in H1; discriminate H1.
Qed.

(** C2, as the code has it. On every finite store whose bindings all
    refer to objects of the store, cycles included, a call of
    [_find_torch_objects] enters no module twice: the modules it is
    called on, recursively, are pairwise distinct, and each one other
    than the module of the outermost call was not recorded when that
    call began; a binding of an identity already recorded is passed
    over without any call. The pass returns a dictionary whenever the
    recursion limit leaves room for every chain of distinct modules,
    each one a [torch.*] module bound in the one before it, that starts
    at [torch] or at [math]; the dictionary is then the same under
    every larger limit. No such chain is longer than the number of
    objects of the store, so a limit of that size always suffices. *)
Theorem discovery_terminates (w : World) :
  well_formed w = true ->
  (forall recursion_limit,
      nesting_within (allowed_functions_module_string_ignorelist w) (heap w)
        recursion_limit (torch w) ->
      nesting_within (allowed_functions_module_string_ignorelist w) (heap w)
        recursion_limit (math w) ->
      exists names : Names,
        forall limit, (recursion_limit <= limit)%nat ->
                      discovery_pass limit w = Built names)
  /\ (nesting_within (allowed_functions_module_string_ignorelist w) (heap w)
        (size (heap w)) (torch w)
      /\ nesting_within (allowed_functions_module_string_ignorelist w) (heap w)
           (size (heap w)) (math w)
      /\ exists names : Names,
           forall limit, (size (heap w) <= limit)%nat ->
                         discovery_pass limit w = Built names)
  /\ (forall limit limit' (names : Names),
         (limit <= limit')%nat ->
         discovery_pass limit w = Built names -> discovery_pass limit' w = Built names)
  /\ (forall fuel module (ids r : Names),
         _find_torch_objects (allowed_functions_module_string_ignorelist w)
           (heap w) fuel module ids = Some r ->
         exists calls,
           _find_torch_objects_traced (allowed_functions_module_string_ignorelist w)
             (heap w) fuel module ids = Some (r, calls)
           /\ NoDup calls
           /\ (forall c, c ∈ calls -> c = module \/ ids !! c = None))
  /\ (forall recurse module_name name j (ids : Names) n,
         ids !! j = Some n ->
         visit_binding_traced (heap w) recurse module_name (name, j) ids
         = Some (ids, [])).
Proof.
  intros Hwf. apply well_formed_parts in Hwf as (Hclosed & Htorch & Hmath).
  set (cfg := allowed_functions_module_string_ignorelist w).
  assert (forall limit limit' (names : Names),
             (limit <= limit')%nat ->
             discovery_pass limit w = Built names ->
             discovery_pass limit' w = Built names) as Hmore.
  { intros limit limit' names Hle. rewrite !discovery_pass_built.
    apply walk_torch_more, Hle. }
  assert (forall recursion_limit,
             nesting_within cfg (heap w) recursion_limit (torch w) ->
             nesting_within cfg (heap w) recursion_limit (math w) ->
             exists names : Names,
               forall limit, (recursion_limit <= limit)%nat ->
                             discovery_pass limit w = Built names) as Hwithin.
  { intros recursion_limit Hdeep_torch Hdeep_math.
    destruct (find_torch_objects_within cfg (heap w) Hclosed
                recursion_limit (torch w) ∅ Htorch) as (r1 & Hr1 & _).
    { intros path Hnested Hnodup _. apply Hdeep_torch; assumption. }
    destruct (find_torch_objects_within cfg (heap w) Hclosed
                recursion_limit (math w) r1 Hmath) as (r2 & Hr2 & _).
    { intros path Hnested Hnodup _. apply Hdeep_math; assumption. }
    exists (record_tensor_methods (tensor_dir w) r2). intros limit Hle.
    apply (Hmore recursion_limit limit _ Hle), discovery_pass_built.
    unfold walk_torch. fold cfg. rewrite Hr1, Hr2. reflexivity. }
  pose proof (nesting_within_size cfg (heap w) (torch w) Htorch) as Hsize_torch.
  pose proof (nesting_within_size cfg (heap w) (math w) Hmath) as Hsize_math.
  split; [exact Hwithin|].
  split; [split; [exact Hsize_torch|split; [exact Hsize_math|]]|].
  { apply Hwithin; assumption. }
  split; [exact Hmore|].
  split; [|intros; eapply visit_binding_traced_present; eassumption].
  - intros fuel module ids r Hr.
    pose proof (find_torch_objects_traced_fst cfg (heap w) fuel module ids) as Hfst.
    rewrite Hr in Hfst.
    destruct (_find_torch_objects_traced cfg (heap w) fuel module ids)
      as [[r' calls]|] eqn:Htraced; [|discriminate].
    cbn in Hfst. injection Hfst as ->.
    exists calls. split; [reflexivity|].
    apply find_torch_objects_traced_once in Htraced as (rest & -> & _ & Hnodup & Hrest).
    split.
    + constructor; [|exact Hnodup]. intros Hin. apply Hrest in Hin. tauto.
    + intros c Hc. apply elem_of_cons in Hc as [->|Hc]; [left; reflexivity|].
      right. apply Hrest in Hc as (_ & Hc & _). apply not_elem_of_dom. exact Hc.
Qed.

Lemma discovery_terminates_witness :
  well_formed Examples.world_A = true
  /\ nesting_within ["torch.A.sub."] Examples.heap_A 3 1
  /\ nesting_within ["torch.A.sub."] Examples.heap_A 3 8
  /\ exists names : Names,
      forall limit, (3 <= limit)%nat ->
                    discovery_pass limit Examples.world_A = Built names.
Proof.
  split; [vm_compute; reflexivity|].
  split; [exact (proj1 nesting_world_A)|].
  split; [exact (proj2 nesting_world_A)|].
  exact (proj1 (discovery_terminates Examples.world_A eq_refl) 3%nat
           (proj1 nesting_world_A) (proj2 nesting_world_A)).
Defined.

(** C2 fails as stated. The store [MoreExamples.deep_world 1000] is
    finite and has no cycle: 1001 modules, each bound in the one before
    it. With room for 1000 nested calls or fewer the pass raises
    [RecursionError] and builds nothing, while room for 1001 calls
    gives a dictionary. The same happens under every recursion limit
    on a store nested deep enough; on the store of the examples, room
    for two calls is not enough. *)
Lemma discovery_recursion_counterexample :
  well_formed (MoreExamples.deep_world 1000) = true
  /\ (forall limit, (limit <= 1000)%nat ->
        discovery_pass limit (MoreExamples.deep_world 1000) = RecursionError)
  /\ (exists names : Names,
         discovery_pass 1001 (MoreExamples.deep_world 1000) = Built names)
  /\ (forall recursion_limit,
         exists w, well_formed w = true
                   /\ discovery_pass recursion_limit w = RecursionError)
  /\ discovery_pass 2 Examples.world_A = RecursionError.
Proof.
  split; [apply deep_world_well_formed|].
  split; [intros limit Hle; apply deep_world_raises, Hle|].
  split; [apply (deep_world_returns 1000)|].
  split; [|vm_compute; reflexivity].
  intros recursion_limit. exists (MoreExamples.deep_world recursion_limit).
  split; [apply deep_world_well_formed | apply deep_world_raises; lia].
Qed.

(** C5, as the code has it. The ignore list is matched against the
    [__name__] of the module a call of [_find_torch_objects] is made on:
    when it matches, the call records nothing; and whatever a call
    records is the [__name__] of a module that matches no prefix, or
    that [__name__], a dot and the name of a binding of that module. *)
Theorem ignore_list_skips_namespaces ignorelist (h : Heap) fuel module (ids r : Names) :
  _find_torch_objects ignorelist h fuel module ids = Some r ->
  (forall name items,
      h !! module = Some (Module name items) ->
      ignored ignorelist name = true -> r = ids)
  /\ (forall j n, r !! j = Some n ->
                  ids !! j = Some n \/ recorded_from_visited ignorelist h j n).
Proof.
  intros Hr. split.
  - intros name items Hm Hign. destruct fuel as [|fuel]; [discriminate|].
    rewrite (find_torch_objects_ignored ignorelist h fuel module name items ids Hm Hign)
      in Hr.
    congruence.
  - eapply find_torch_objects_origin. exact Hr.
Qed.

Lemma ignore_list_skips_namespaces_witness :
  _find_torch_objects ["torch.A.sub"] Examples.heap_A 1 4 ∅ = Some ∅
  /\ (forall name items,
         Examples.heap_A !! 4 = Some (Module name items) ->
         ignored ["torch.A.sub"] name = true -> (∅ : Names) = ∅).
Proof.
  split; [vm_compute; reflexivity|].
  apply (ignore_list_skips_namespaces ["torch.A.sub"] Examples.heap_A 1 4 ∅ ∅).
  vm_compute. reflexivity.
Defined.

(** C5 fails as stated. With the prefix ["torch.A.sub."] the module
    [torch.A.sub] is visited, since its [__name__] has no final dot, and
    its function is recorded as ["torch.A.sub.g"] and allowed; with the
    prefix ["torch.A.sub"] the module itself is recorded under that name
    by the visit of its parent. *)
Lemma ignore_prefix_counterexample :
  walk_torch (enough_fuel Examples.heap_A) Examples.world_A = Some Examples.names_A
  /\ Examples.names_A !! 6 = Some "torch.A.sub.g"
  /\ startswith "torch.A.sub.g" "torch.A.sub." = true
  /\ Registry.outcome (Registry.is_allowed Examples.env_A 6) Registry.initial
     = Registry.Return true
  /\ (exists names : Names,
         walk_torch (enough_fuel Examples.heap_A) Examples.world_B = Some names
         /\ names !! 4 = Some "torch.A.sub"
         /\ startswith "torch.A.sub" "torch.A.sub" = true).
Proof.
  repeat split; try (vm_compute; reflexivity).
  eexists. repeat split; vm_compute; reflexivity.
Qed.

End DiscoveryFacts.

Module RegistryFacts.
Import Registry.

Section Facts.

Variable E : Env.

(** ** What the methods compute *)

Lemma call_disallowed g :
  __call__ (disallowed E) g = (Return (disallowed_ids E g), force_disallowed E g).
Proof.
  destruct g as [a [[ids|] names] f]; reflexivity.
Qed.

Lemma call_allowed g :
  __call__ (allowed E) g = (Return (allowed_ids E g), force_allowed E g).
Proof.
  destruct g as [[[ids|] names] [[dis|] dnames] f]; reflexivity.
Qed.

Lemma lookup_subtract_disallowed ids (d : gmap Z string) k :
  subtract_disallowed ids d !! k = if decide (k ∈ ids) then None else d !! k.
Proof.
  unfold subtract_disallowed.
  refine (set_fold_ind_L
            (fun r X => r !! k = if decide (k ∈ X) then None else d !! k)
            _ _ _ _ ids).
  - rewrite decide_False by set_solver. reflexivity.
  - intros x X r Hx IH.
    destruct (decide (x = k)) as [->|Hne].
    + rewrite lookup_delete_eq, decide_True by set_solver. reflexivity.
    + rewrite lookup_delete_ne, IH by done.
      repeat case_decide; try reflexivity; set_solver.
Qed.

Lemma dom_subtract_disallowed ids (d : gmap Z string) :
  dom (subtract_disallowed ids d) = dom d ∖ ids.
Proof.
  apply set_eq. intros k.
  rewrite elem_of_difference, !elem_of_dom, lookup_subtract_disallowed.
  case_decide; [split; [intros [? ?]; discriminate | tauto] | tauto].
Qed.

Lemma dom_discovered g :
  dom (discovered E g)
  = {[is_compiling E]} ∪ ({[is_fx_tracing E]} ∪ (dom (torch_object_ids E) ∖ disallowed_ids E g)).
Proof.
  unfold discovered, add_extras.
  rewrite !dom_insert_L, dom_subtract_disallowed. reflexivity.
Qed.

(** ** The entry points on one object *)

Ltac run_methods :=
  unfold is_allowed, torch_get_name;
  unfold add, remove, __contains__, get_name, bind;
  rewrite ?call_allowed;
  cbv [assign_function_ids read raise];
  rewrite ?call_disallowed;
  cbv [ret].

Ltac split_state g :=
  destruct g as [[[?ids|] ?names] [[?dis|] ?dnames] ?fb];
  cbn -[union difference dom discovered elem_of list_to_set].

Ltac same_state :=
  unfold allow_state, disallow_state, allowed_names, force_disallowed;
  cbn -[union difference dom discovered elem_of list_to_set];
  try reflexivity;
  repeat (f_equal; try reflexivity);
  set_solver.

Lemma allow_in_graph_ref f g :
  callable E f = true ->
  allow_in_graph E (Ref f) g = (Return (Ref f), allow_state E f g).
Proof.
  intros Hc. cbn [allow_in_graph]. rewrite Hc. run_methods.
  split_state g; repeat case_bool_decide; same_state.
Qed.

Lemma allow_in_graph_not_callable f g :
  callable E f = false ->
  allow_in_graph E (Ref f) g = (Raise AssertionError, g).
Proof. intros Hc. cbn [allow_in_graph]. rewrite Hc. reflexivity. Qed.

Lemma is_allowed_eq f g :
  is_allowed E f g
  = (Return (bool_decide (f ∈ allowed_ids E g) || is_dispatch_wrapper E f),
     force_allowed E g).
Proof. run_methods. reflexivity. Qed.

Lemma disallow_ref_lenient f g :
  callable E f = true ->
  _disallow_in_graph_helper E false (Ref f) g
  = (Return (Ref f), disallow_state E f g).
Proof.
  intros Hc. cbn [_disallow_in_graph_helper]. rewrite Hc. run_methods.
  split_state g; repeat case_bool_decide; same_state.
Qed.

Lemma disallow_ref_strict f g :
  callable E f = true ->
  _disallow_in_graph_helper E true (Ref f) g
  = if bool_decide (f ∈ allowed_ids E g) || is_dispatch_wrapper E f
    then (Return (Ref f), disallow_state E f g)
    else (Raise IncorrectUsage, force_allowed E g).
Proof.
  intros Hc. cbn [_disallow_in_graph_helper]. rewrite Hc. run_methods.
  destruct (bool_decide (f ∈ allowed_ids E g) || is_dispatch_wrapper E f);
    cbn [negb]; [|reflexivity].
  split_state g; repeat case_bool_decide; same_state.
Qed.

Lemma disallow_not_callable throw f g :
  callable E f = false ->
  _disallow_in_graph_helper E throw (Ref f) g = (Raise AssertionError, g).
Proof. intros Hc. cbn [_disallow_in_graph_helper]. rewrite Hc. reflexivity. Qed.

Lemma torch_get_name_eq f default g :
  torch_get_name E f default g
  = (match allowed_names E g with
     | Some names =>
         Return (match names !! f with Some name => name | None => default end)
     | None => Raise AttributeError
     end, force_allowed E g).
Proof.
  run_methods. unfold allowed_names.
  destruct (function_names _); reflexivity.
Qed.

End Facts.

(** Induction on arguments, through the lists they nest. *)
Lemma PyValue_nested_ind (P : PyValue -> Prop) :
  (forall f, P (Ref f)) ->
  (forall items, Forall P items -> P (PyList items)) ->
  (forall items, Forall P items -> P (PyTuple items)) ->
  forall fn, P fn.
Proof.
  intros Href Hlist Htuple.
  refine (fix IH (fn : PyValue) : P fn :=
            match fn with
            | Ref f => Href f
            | PyList items => Hlist items _
            | PyTuple items => Htuple items _
            end);
    induction items as [|x rest IHrest]; constructor; auto.
Qed.

Section Transitions.

(** A relation between the state before and after a computation that
    holds across sequencing. *)
Variable R : Globals -> Globals -> Prop.
Hypothesis R_refl : forall g, R g g.
Hypothesis R_trans : forall g1 g2 g3, R g1 g2 -> R g2 g3 -> R g1 g3.

Lemma respects_ret {A} (a : A) : respects R (ret a).
Proof. intros g. apply R_refl. Qed.

Lemma respects_raise {A} e : respects R (@raise A e).
Proof. intros g. apply R_refl. Qed.

Lemma respects_bind {A B} (m : M A) (k : A -> M B) :
  respects R m -> (forall a, respects R (k a)) -> respects R (bind m k).
Proof.
  intros Hm Hk g. specialize (Hm g). unfold exec, bind in *.
  destruct (m g) as [[a|e] g1]; cbn in *; [|exact Hm].
  eapply R_trans; [exact Hm | apply Hk].
Qed.

Lemma respects_comprehension {A B} (f : A -> M B) items :
  Forall (fun x => respects R (f x)) items -> respects R (comprehension f items).
Proof.
  induction 1 as [|x rest Hx Hrest IH]; cbn [comprehension].
  - apply respects_ret.
  - apply respects_bind; [exact Hx|]. intros y.
    apply respects_bind; [exact IH|]. intros ys. apply respects_ret.
Qed.

Variable E : Env.

Lemma respects_allow_in_graph :
  (forall f, respects R (allow_in_graph E (Ref f))) ->
  forall fn, respects R (allow_in_graph E fn).
Proof.
  intros Href. induction fn as [f|items IH|items IH] using PyValue_nested_ind;
    [apply Href| |]; cbn [allow_in_graph];
    (apply respects_bind; [apply respects_comprehension; exact IH|]);
    intros; apply respects_ret.
Qed.

Lemma respects_disallow :
  (forall throw f, respects R (_disallow_in_graph_helper E throw (Ref f))) ->
  forall throw fn, respects R (_disallow_in_graph_helper E throw fn).
Proof.
  intros Href throw fn. revert throw.
  induction fn as [f|items IH|items IH] using PyValue_nested_ind; intros throw;
    [apply Href| |]; cbn [_disallow_in_graph_helper];
    (apply respects_bind;
     [apply respects_comprehension; eapply Forall_impl; [exact IH|]; cbn; auto|]);
    intros; apply respects_ret.
Qed.

Lemma respects_forbid_in_graph :
  (forall f, respects R (forbid_in_graph E (Ref f))) ->
  forall fn, respects R (forbid_in_graph E fn).
Proof.
  intros Href. induction fn as [f|items IH|items IH] using PyValue_nested_ind;
    [apply Href| |]; cbn [forbid_in_graph];
    (apply respects_bind; [apply respects_comprehension; exact IH|]);
    intros; apply respects_ret.
Qed.

(** Every call into the module is made of four state changes. *)
Lemma perform_respects :
  (forall g, R g (force_allowed E g)) ->
  (forall f g, R g (allow_state E f g)) ->
  (forall f g, R g (disallow_state E f g)) ->
  (forall f g, R g (exec (set_dynamo_forbidden E f) g)) ->
  forall op g, R g (perform E op g).
Proof.
  intros Hforce Hallow Hdisallow Hforbid op g.
  destruct op as [|obj|obj default|fn|throw fn|fn]; cbn [perform].
  - unfold exec. rewrite call_allowed. apply Hforce.
  - unfold exec. rewrite is_allowed_eq. apply Hforce.
  - unfold exec. rewrite torch_get_name_eq. apply Hforce.
  - apply respects_allow_in_graph.
    intros f g0. unfold exec. destruct (callable E f) eqn:Hc.
    + rewrite allow_in_graph_ref by exact Hc. apply Hallow.
    + rewrite allow_in_graph_not_callable by exact Hc. apply R_refl.
  - apply respects_disallow.
    intros t f g0. unfold exec. destruct (callable E f) eqn:Hc.
    + destruct t.
      * rewrite disallow_ref_strict by exact Hc.
        destruct (_ || _); [apply Hdisallow | apply Hforce].
      * rewrite disallow_ref_lenient by exact Hc. apply Hdisallow.
    + rewrite disallow_not_callable by exact Hc. apply R_refl.
  - apply respects_forbid_in_graph.
    intros f g0. cbn [forbid_in_graph].
    destruct (callable E f); [|apply R_refl].
    apply (respects_bind (set_dynamo_forbidden E f)); [exact (Hforbid f)|].
    intros []. apply respects_ret.
Qed.

Lemma run_respects :
  (forall g, R g (force_allowed E g)) ->
  (forall f g, R g (allow_state E f g)) ->
  (forall f g, R g (disallow_state E f g)) ->
  (forall f g, R g (exec (set_dynamo_forbidden E f) g)) ->
  forall ops g, R g (run E ops g).
Proof.
  intros Hforce Hallow Hdisallow Hforbid.
  induction ops as [|op ops IH]; intros g; [apply R_refl|].
  cbn. eapply R_trans; [|apply IH]. apply perform_respects; assumption.
Qed.

End Transitions.

Section Consistency.

Variable E : Env.

Lemma allowed_ids_force g : allowed_ids E (force_allowed E g) = allowed_ids E g.
Proof. destruct g as [[[ids|] names] [[dis|] dnames] fb]; reflexivity. Qed.

Lemma disallowed_ids_force g : disallowed_ids E (force_allowed E g) = disallowed_ids E g.
Proof. destruct g as [[[ids|] names] [[dis|] dnames] fb]; reflexivity. Qed.

Lemma force_allowed_materialized g : materialized g -> force_allowed E g = g.
Proof. destruct g as [[[ids|] names] d fb]; [reflexivity | intros [? [=]]]. Qed.

Lemma consistent_force g : consistent E g -> consistent E (force_allowed E g).
Proof. unfold consistent. rewrite allowed_ids_force, disallowed_ids_force. auto. Qed.

Lemma consistent_allow_state f g : consistent E g -> consistent E (allow_state E f g).
Proof. unfold consistent. cbn -[union difference disjoint]. set_solver. Qed.

Lemma consistent_disallow_state f g : consistent E g -> consistent E (disallow_state E f g).
Proof. unfold consistent. cbn -[union difference disjoint]. set_solver. Qed.

Lemma run_consistent ops g : consistent E g -> consistent E (run E ops g).
Proof.
  apply (run_respects (fun g g' => consistent E g -> consistent E g')); auto.
  - intros g0. apply consistent_force.
  - intros f g0. apply consistent_allow_state.
  - intros f g0. apply consistent_disallow_state.
  - intros f g0. unfold exec, set_dynamo_forbidden.
    destruct (accepts_attributes E f), (is_immutable_type E f); auto.
Qed.

Lemma consistent_initial :
  is_fx_tracing E ∉ remove_ids E -> is_compiling E ∉ remove_ids E ->
  consistent E initial.
Proof.
  intros Hfx Hcomp. unfold consistent, allowed_ids. cbn [initial _allowed_function_ids
    make_function_id_set function_ids].
  rewrite dom_discovered. unfold disallowed_ids. cbn [initial _disallowed_function_ids
    make_function_id_set function_ids].
  set_solver.
Qed.

Lemma both_sets_eq idx g :
  outcome (let* a := __contains__ (allowed E) idx in
           let* d := __contains__ (disallowed E) idx in
           ret (a, d)) g
  = Return (bool_decide (idx ∈ allowed_ids E g), bool_decide (idx ∈ disallowed_ids E g)).
Proof.
  unfold outcome, __contains__, bind. rewrite call_allowed. cbv [ret].
  rewrite call_disallowed. cbn [fst]. rewrite disallowed_ids_force. reflexivity.
Qed.

Lemma membership_eq idx g :
  outcome (membership E idx) g
  = Return (bool_decide (idx ∈ allowed_ids E g),
            bool_decide (idx ∈ disallowed_ids E g)).
Proof. apply both_sets_eq. Qed.

Lemma outcome_bind {A B} (m : M A) (k : A -> M B) g :
  outcome (bind m k) g
  = match outcome m g with
    | Return a => outcome (k a) (exec m g)
    | Raise e => Raise e
    end.
Proof. unfold outcome, exec, bind. destruct (m g) as [[a|e] g']; reflexivity. Qed.

End Consistency.

(** C1. In every state reached from the initial one by discoveries,
    queries and overrides, no identity is in both sets when they are
    queried, provided [is_fx_tracing] and [is_compiling], which are merged
    in after the subtraction, are not objects of the list [remove]. An
    override wins in any state: after [allow_in_graph(f)] the identity
    is in the allowed set only, after a disallow that does not raise it
    is in the disallowed set only. *)
Theorem allowed_disallowed_disjoint (E : Env) :
  is_fx_tracing E ∉ remove_ids E ->
  is_compiling E ∉ remove_ids E ->
  (forall ops idx,
      exists a d, outcome (membership E idx) (run E ops initial) = Return (a, d)
                  /\ a && d = false)
  /\ (forall g f, callable E f = true ->
        outcome (let* _ := allow_in_graph E (Ref f) in membership E f) g
        = Return (true, false))
  /\ (forall g f, callable E f = true ->
        outcome (let* _ := _disallow_in_graph_helper E false (Ref f) in
                 membership E f) g
        = Return (false, true))
  /\ (forall g f, callable E f = true ->
        outcome (let* _ := disallow_in_graph E (Ref f) in membership E f) g
        = Return (false, true)
        \/ outcome (let* _ := disallow_in_graph E (Ref f) in membership E f) g
           = Raise IncorrectUsage).
Proof.
  intros Hfx Hcomp. repeat split.
  - intros ops idx.
    pose proof (run_consistent E ops initial (consistent_initial E Hfx Hcomp)) as Hc.
    do 2 eexists. split; [apply membership_eq|].
    unfold consistent in Hc.
    repeat case_bool_decide; first [reflexivity | exfalso; set_solver].
  - intros g f Hf. rewrite outcome_bind. unfold outcome at 1, exec.
    rewrite allow_in_graph_ref by exact Hf. cbn [fst snd]. rewrite membership_eq.
    cbn -[union difference elem_of].
    repeat case_bool_decide; first [reflexivity | exfalso; set_solver].
  - intros g f Hf. rewrite outcome_bind. unfold outcome at 1, exec.
    rewrite disallow_ref_lenient by exact Hf. cbn [fst snd]. rewrite membership_eq.
    cbn -[union difference elem_of].
    repeat case_bool_decide; first [reflexivity | exfalso; set_solver].
  - intros g f Hf. rewrite outcome_bind. unfold outcome at 1 3, exec, disallow_in_graph.
    rewrite disallow_ref_strict by exact Hf.
    destruct (_ || _); cbn [fst snd]; [left | right; reflexivity].
    rewrite membership_eq. cbn -[union difference elem_of].
    repeat case_bool_decide; first [reflexivity | exfalso; set_solver].
Qed.

Lemma allowed_disallowed_disjoint_witness :
(is_fx_tracing Examples.env_A ∉ remove_ids Examples.env_A)
  /\ (is_compiling Examples.env_A ∉ remove_ids Examples.env_A)
  /\ exists a d,
      outcome (membership Examples.env_A 5)
        (run Examples.env_A
           [Discover; AllowInGraph (Ref 5); DisallowInGraph true (Ref 3)] initial)
      = Return (a, d)
      /\ a && d = false.
Proof.
  assert (is_fx_tracing Examples.env_A ∉ remove_ids Examples.env_A) as Hfx.
  { intros H. apply list_elem_of_In in H. cbn in H. intuition discriminate. }
  assert (is_compiling Examples.env_A ∉ remove_ids Examples.env_A) as Hcomp.
  { intros H. apply list_elem_of_In in H. cbn in H. intuition discriminate. }
  split; [exact Hfx|]. split; [exact Hcomp|].
  apply (allowed_disallowed_disjoint Examples.env_A Hfx Hcomp).
Defined.

(** C3, as the code has it. After [allow_in_graph(f)] and then the
    lenient disallow of [f], the identity of [f] is in the disallowed
    set only, and [is_allowed(f)] is what the test on the dispatch
    wrapper types gives: false for every callable that is not an
    operator overload, overload packet or operator namespace. *)
Theorem allow_then_lenient_disallow (E : Env) f g :
  callable E f = true ->
  let g' := exec (_disallow_in_graph_helper E false (Ref f))
              (exec (allow_in_graph E (Ref f)) g) in
  outcome (is_allowed E f) g' = Return (is_dispatch_wrapper E f)
  /\ outcome (membership E f) g' = Return (false, true)
  /\ (is_dispatch_wrapper E f = false -> outcome (is_allowed E f) g' = Return false).
Proof.
  intros Hf g'.
  assert (outcome (is_allowed E f) g' = Return (is_dispatch_wrapper E f)) as Hallowed.
  { subst g'. unfold outcome, exec.
    rewrite allow_in_graph_ref, disallow_ref_lenient, is_allowed_eq by exact Hf.
    cbn -[union difference elem_of].
    rewrite bool_decide_eq_false_2 by set_solver. reflexivity. }
  split; [exact Hallowed|]. split.
  - subst g'. rewrite membership_eq. unfold exec.
    rewrite allow_in_graph_ref, disallow_ref_lenient by exact Hf.
    cbn -[union difference elem_of].
    repeat case_bool_decide; first [reflexivity | exfalso; set_solver].
  - intros Hd. rewrite Hallowed, Hd. reflexivity.
Qed.

Lemma allow_then_lenient_disallow_witness :
  callable Examples.env_A 3 = true
  /\ outcome (is_allowed Examples.env_A 3)
       (exec (_disallow_in_graph_helper Examples.env_A false (Ref 3))
          (exec (allow_in_graph Examples.env_A (Ref 3)) initial))
     = Return (is_dispatch_wrapper Examples.env_A 3).
Proof.
  split; [reflexivity|].
  exact (proj1 (allow_then_lenient_disallow Examples.env_A 3 initial eq_refl)).
Defined.

(** C3 fails as stated: 40 is callable and an operator overload, and
    [is_allowed] still answers true after the two calls. *)
Lemma allow_then_lenient_disallow_counterexample :
  ~ (forall (E : Env) f g,
        callable E f = true ->
        outcome (is_allowed E f)
          (exec (_disallow_in_graph_helper E false (Ref f))
             (exec (allow_in_graph E (Ref f)) g))
        = Return false).
Proof.
  intros H. specialize (H Examples.env_A 40 initial eq_refl).
  vm_compute in H. discriminate H.
Qed.

(** C4. When [is_allowed(f)] is false for a callable [f],
    [disallow_in_graph(f)] raises [IncorrectUsage]; the state it leaves
    is the one the query [is_allowed(f)] leaves, so that both sets, the
    recorded names and the forbidden tags read as before, and a state
    whose allowed set was materialized is left as it was. *)
Theorem strict_disallow_raises (E : Env) f g :
  callable E f = true ->
  outcome (is_allowed E f) g = Return false ->
  let g' := exec (disallow_in_graph E (Ref f)) g in
  outcome (disallow_in_graph E (Ref f)) g = Raise IncorrectUsage
  /\ outcome (__call__ (allowed E)) g' = outcome (__call__ (allowed E)) g
  /\ outcome (__call__ (disallowed E)) g' = outcome (__call__ (disallowed E)) g
  /\ (forall obj default,
         outcome (torch_get_name E obj default) g'
         = outcome (torch_get_name E obj default) g)
  /\ _dynamo_forbidden g' = _dynamo_forbidden g
  /\ g' = exec (is_allowed E f) g
  /\ (materialized g -> g' = g).
Proof.
  intros Hf Hnot g'.
  unfold outcome in Hnot. rewrite is_allowed_eq in Hnot. cbn [fst] in Hnot.
  injection Hnot as Hnot.
  assert (disallow_in_graph E (Ref f) g = (Raise IncorrectUsage, force_allowed E g))
    as Hraise.
  { unfold disallow_in_graph. rewrite disallow_ref_strict by exact Hf.
    rewrite Hnot. reflexivity. }
  assert (g' = force_allowed E g) as -> by (subst g'; unfold exec; rewrite Hraise; done).
  repeat split.
  - unfold outcome. rewrite Hraise. reflexivity.
  - unfold outcome. rewrite !call_allowed. cbn [fst]. rewrite allowed_ids_force.
    reflexivity.
  - unfold outcome. rewrite !call_disallowed. cbn [fst]. rewrite disallowed_ids_force.
    reflexivity.
  - intros obj default. unfold outcome. rewrite !torch_get_name_eq. cbn [fst].
    destruct g as [[[ids|] names] [[dis|] dnames] fb]; reflexivity.
  - destruct g as [[[ids|] names] [[dis|] dnames] fb]; reflexivity.
  - unfold exec. rewrite is_allowed_eq. reflexivity.
  - apply force_allowed_materialized.
Qed.

Lemma strict_disallow_raises_witness :
  callable Examples.env_A 70 = true
  /\ outcome (is_allowed Examples.env_A 70) initial = Return false
  /\ outcome (disallow_in_graph Examples.env_A (Ref 70)) initial = Raise IncorrectUsage.
Proof.
  split; [reflexivity|]. split; [vm_compute; reflexivity|].
  refine (proj1 (strict_disallow_raises Examples.env_A 70 initial eq_refl _)).
  vm_compute. reflexivity.
Defined.

(** C6, what the code does. [function_names] of the disallowed set is
    never assigned, since its initializer returns a set; in every state
    reached from the initial one [get_name] on that set raises
    [AttributeError] for every identity and default. *)
Theorem get_name_disallowed_raises (E : Env) ops idx default :
  outcome (get_name (disallowed E) idx default) (run E ops initial)
  = Raise AttributeError.
Proof.
  assert (function_names (_disallowed_function_ids (run E ops initial)) = None)
    as Hnone.
  { apply (run_respects
             (fun g g' => function_names (_disallowed_function_ids g) = None ->
                          function_names (_disallowed_function_ids g') = None));
      auto.
    - intros g0. destruct g0 as [[[ids|] names] [[dis|] dnames] fb]; auto.
    - intros f g0. unfold exec, set_dynamo_forbidden.
      destruct (accepts_attributes E f), (is_immutable_type E f); auto. }
  unfold outcome, get_name, bind. rewrite call_disallowed. cbv [read].
  destruct (run E ops initial) as [a [dis dnames] fb]. cbn in Hnone. subst dnames.
  reflexivity.
Qed.

(** C8. [forbid_in_graph] leaves both classification sets as they are,
    for one object as for a sequence, so every [is_allowed] query
    answers the same before and after; on a callable that accepts the
    attribute it adds the tag, and nothing else changes. *)
Theorem forbid_in_graph_leaves_sets (E : Env) fn g :
  let g' := exec (forbid_in_graph E fn) g in
  _allowed_function_ids g' = _allowed_function_ids g
  /\ _disallowed_function_ids g' = _disallowed_function_ids g
  /\ (forall obj, outcome (is_allowed E obj) g' = outcome (is_allowed E obj) g)
  /\ (forall f, fn = Ref f ->
        _dynamo_forbidden g'
        = if callable E f && accepts_attributes E f
          then {[f]} ∪ _dynamo_forbidden g
          else _dynamo_forbidden g).
Proof.
  intros g'.
  assert (_allowed_function_ids g' = _allowed_function_ids g
          /\ _disallowed_function_ids g' = _disallowed_function_ids g) as [Ha Hd].
  { subst g'. revert g.
    apply (respects_forbid_in_graph
             (fun g g' => _allowed_function_ids g' = _allowed_function_ids g
                          /\ _disallowed_function_ids g' = _disallowed_function_ids g)).
    - auto.
    - intros g1 g2 g3 [? ?] [? ?]. split; congruence.
    - intros f g. unfold exec. cbn [forbid_in_graph].
      destruct (callable E f); [|auto].
      unfold bind, set_dynamo_forbidden. destruct (accepts_attributes E f), (is_immutable_type E f); auto. }
  repeat split; [exact Ha | exact Hd | |].
  - intros obj. unfold outcome. rewrite !is_allowed_eq. cbn [fst].
    unfold allowed_ids, discovered, disallowed_ids. rewrite Ha, Hd. reflexivity.
  - intros f ->. subst g'. unfold exec. cbn [forbid_in_graph].
    destruct (callable E f); [|reflexivity].
    unfold bind, set_dynamo_forbidden. destruct (accepts_attributes E f), (is_immutable_type E f); reflexivity.
Qed.

Lemma forbid_in_graph_leaves_sets_witness :
  _dynamo_forbidden (exec (forbid_in_graph Examples.env_A (Ref 3)) initial)
  = if callable Examples.env_A 3 && accepts_attributes Examples.env_A 3
    then {[3]} ∪ _dynamo_forbidden initial
    else _dynamo_forbidden initial.
Proof.
  exact (proj2 (proj2 (proj2
           (forbid_in_graph_leaves_sets Examples.env_A (Ref 3) initial))) 3 eq_refl).
Defined.

(** C9. A second [allow_in_graph(f)] changes nothing: it leaves the
    state the first one left, with the same outcome, so that every
    query answers alike. *)
Theorem allow_in_graph_idempotent (E : Env) f g :
  let once := exec (allow_in_graph E (Ref f)) g in
  let twice := exec (allow_in_graph E (Ref f)) once in
  twice = once
  /\ outcome (allow_in_graph E (Ref f)) once = outcome (allow_in_graph E (Ref f)) g
  /\ (forall obj, is_allowed E obj twice = is_allowed E obj once)
  /\ (forall obj, membership E obj twice = membership E obj once).
Proof.
  intros once twice.
  assert (twice = once /\ outcome (allow_in_graph E (Ref f)) once
                          = outcome (allow_in_graph E (Ref f)) g) as [Heq Hout].
  { subst twice once. unfold exec, outcome. destruct (callable E f) eqn:Hf.
    - rewrite !allow_in_graph_ref by exact Hf. cbn [fst snd]. split; [|reflexivity].
      unfold allow_state, allowed_names. cbn -[union difference discovered].
      assert ({[f]} ∪ ({[f]} ∪ allowed_ids E g) = {[f]} ∪ allowed_ids E g) as ->
        by set_solver.
      assert (disallowed_ids E g ∖ {[f]} ∖ {[f]} = disallowed_ids E g ∖ {[f]}) as ->
        by set_solver.
      reflexivity.
    - rewrite !allow_in_graph_not_callable by exact Hf. cbn [fst snd]. auto. }
  rewrite Heq. auto.
Qed.

(** The walk through of the registry on the example process: the
    function 3 is discovered as ["torch.A.f"] and allowed, a lenient
    disallow makes [is_allowed] false, a later allow makes it true again. *)
Example allow_disallow_scenario :
  outcome (let* a := is_allowed Examples.env_A 3 in
           let* name := torch_get_name Examples.env_A 3 "unknown" in
           let* _ := _disallow_in_graph_helper Examples.env_A false (Ref 3) in
           let* b := is_allowed Examples.env_A 3 in
           let* _ := allow_in_graph Examples.env_A (Ref 3) in
           let* c := is_allowed Examples.env_A 3 in
           ret (a, name, b, c)) initial
  = Return (true, "torch.A.f", false, true).
Proof. vm_compute. reflexivity. Qed.

(** ** Sequences of callables *)

Lemma comprehension_map {A B C} (f : B -> M C) (h : A -> B) items g :
  comprehension f (map h items) g = comprehension (fun x => f (h x)) items g.
Proof.
  revert g. induction items as [|x rest IH]; intros g; [reflexivity|].
  cbn [map comprehension]. unfold bind. destruct (f (h x) g) as [[y|e] g1]; [|reflexivity].
  rewrite IH. reflexivity.
Qed.

Lemma comprehension_as_list (f : PyValue -> M PyValue) items :
  Forall (fun x => forall g,
              match outcome (f x) g with
              | Return v => v = as_list x
              | Raise _ => True
              end) items ->
  forall g, match outcome (comprehension f items) g with
            | Return vs => vs = map as_list items
            | Raise _ => True
            end.
Proof.
  induction 1 as [|x rest Hx Hrest IH]; intros g; [reflexivity|].
  cbn [comprehension]. unfold outcome, bind in *.
  specialize (Hx g). destruct (f x g) as [[y|e] g1]; cbn in *; [|exact I].
  specialize (IH g1). destruct (comprehension f rest g1) as [[ys|e] g2]; cbn in *;
    [|exact I].
  subst. reflexivity.
Qed.

Lemma returned_list (m : M (list PyValue)) items g :
  match outcome m g with
  | Return vs => vs = map as_list items
  | Raise _ => True
  end ->
  match outcome (let* result := m in ret (PyList result)) g with
  | Return v => v = PyList (map as_list items)
  | Raise _ => True
  end.
Proof.
  unfold outcome, bind. destruct (m g) as [[vs|e] g1]; cbn; [|auto].
  intros ->. reflexivity.
Qed.

(** C10, as the code has it. When an entry point returns, it returns
    its argument with every tuple replaced by a list of the same items
    in the same order: a single object as it is, a list or a tuple as a
    new list. On a list or a tuple of objects it runs the single-object
    form on each item in turn, [disallow_in_graph] for both
    [disallow_in_graph] and the lenient helper, and stops at the first
    item that raises. On a callable, [allow_in_graph] and the lenient
    disallow return it, [disallow_in_graph] returns it or raises
    [IncorrectUsage], and [forbid_in_graph] returns it when the
    attribute can be assigned on it. *)
Theorem entry_points_on_sequences (E : Env) :
  (forall fn g,
      match outcome (allow_in_graph E fn) g with
      | Return v => v = as_list fn
      | Raise _ => True
      end)
  /\ (forall throw fn g,
         match outcome (_disallow_in_graph_helper E throw fn) g with
         | Return v => v = as_list fn
         | Raise _ => True
         end)
  /\ (forall fn g,
         match outcome (forbid_in_graph E fn) g with
         | Return v => v = as_list fn
         | Raise _ => True
         end)
  /\ (forall fs g,
         allow_in_graph E (PyTuple (map Ref fs)) g
         = allow_in_graph E (PyList (map Ref fs)) g
         /\ allow_in_graph E (PyList (map Ref fs)) g
            = (let* result := comprehension (fun f => allow_in_graph E (Ref f)) fs in
               ret (PyList result)) g)
  /\ (forall throw fs g,
         _disallow_in_graph_helper E throw (PyTuple (map Ref fs)) g
         = _disallow_in_graph_helper E throw (PyList (map Ref fs)) g
         /\ _disallow_in_graph_helper E throw (PyList (map Ref fs)) g
            = (let* result :=
                 comprehension (fun f => disallow_in_graph E (Ref f)) fs in
               ret (PyList result)) g)
  /\ (forall fs g,
         forbid_in_graph E (PyTuple (map Ref fs)) g
         = forbid_in_graph E (PyList (map Ref fs)) g
         /\ forbid_in_graph E (PyList (map Ref fs)) g
            = (let* result := comprehension (fun f => forbid_in_graph E (Ref f)) fs in
               ret (PyList result)) g)
  /\ (forall f g, callable E f = true ->
         outcome (allow_in_graph E (Ref f)) g = Return (Ref f)
         /\ outcome (_disallow_in_graph_helper E false (Ref f)) g = Return (Ref f)
         /\ (outcome (disallow_in_graph E (Ref f)) g = Return (Ref f)
             \/ outcome (disallow_in_graph E (Ref f)) g = Raise IncorrectUsage)
         /\ (accepts_attributes E f = true ->
             outcome (forbid_in_graph E (Ref f)) g = Return (Ref f))).
Proof.
  repeat split.
  - induction fn as [f|items IH|items IH] using PyValue_nested_ind; intros g.
    + unfold outcome. destruct (callable E f) eqn:Hf.
      * rewrite allow_in_graph_ref by exact Hf. reflexivity.
      * rewrite allow_in_graph_not_callable by exact Hf. exact I.
    + cbn [allow_in_graph as_list]. apply returned_list, comprehension_as_list, IH.
    + cbn [allow_in_graph as_list]. apply returned_list, comprehension_as_list, IH.
  - intros throw fn. revert throw.
    induction fn as [f|items IH|items IH] using PyValue_nested_ind; intros throw g.
    + unfold outcome. destruct (callable E f) eqn:Hf.
      * destruct throw.
        -- rewrite disallow_ref_strict by exact Hf. destruct (_ || _); cbn; auto.
        -- rewrite disallow_ref_lenient by exact Hf. reflexivity.
      * rewrite disallow_not_callable by exact Hf. exact I.
    + cbn [_disallow_in_graph_helper as_list].
      apply returned_list, comprehension_as_list.
      eapply Forall_impl; [exact IH|]. intros x Hx g0. apply Hx.
    + cbn [_disallow_in_graph_helper as_list].
      apply returned_list, comprehension_as_list.
      eapply Forall_impl; [exact IH|]. intros x Hx g0. apply Hx.
  - induction fn as [f|items IH|items IH] using PyValue_nested_ind; intros g.
    + unfold outcome. cbn [forbid_in_graph]. destruct (callable E f); [|exact I].
      unfold bind, set_dynamo_forbidden. destruct (accepts_attributes E f), (is_immutable_type E f); cbn; auto.
    + cbn [forbid_in_graph as_list]. apply returned_list, comprehension_as_list, IH.
    + cbn [forbid_in_graph as_list]. apply returned_list, comprehension_as_list, IH.
  - cbn [allow_in_graph]. unfold bind. rewrite comprehension_map. reflexivity.
  - cbn [_disallow_in_graph_helper]. unfold bind. rewrite comprehension_map.
    reflexivity.
  - cbn [forbid_in_graph]. unfold bind. rewrite comprehension_map. reflexivity.
  - unfold outcome. rewrite allow_in_graph_ref by assumption. reflexivity.
  - unfold outcome. rewrite disallow_ref_lenient by assumption. reflexivity.
  - unfold outcome, disallow_in_graph. rewrite disallow_ref_strict by assumption.
    destruct (_ || _); cbn; auto.
  - intros Hattr. unfold outcome. cbn [forbid_in_graph].
    match goal with H : callable E _ = true |- _ => rewrite H end.
    unfold bind, set_dynamo_forbidden. rewrite Hattr. reflexivity.
Qed.

Lemma entry_points_on_sequences_witness :
  callable Examples.env_A 70 = true
  /\ outcome (allow_in_graph Examples.env_A (Ref 70)) initial = Return (Ref 70).
Proof.
  split; [reflexivity|].
  exact (proj1 (proj2 (proj2 (proj2 (proj2 (proj2 (proj2
           (entry_points_on_sequences Examples.env_A)))))) 70 initial eq_refl)).
Defined.

(** C10 fails as stated: a tuple of callables comes back as a list. *)
Lemma entry_points_on_sequences_counterexample :
  ~ (forall (E : Env) fn g v,
        outcome (allow_in_graph E fn) g = Return v -> v = fn).
Proof.
  intros H.
  specialize (H Examples.env_A (PyTuple [Ref 70; Ref 3]) initial
                (PyList [Ref 70; Ref 3]) eq_refl).
  discriminate H.
Qed.

(** ** Display names *)

Lemma lookup_discovered (E : Env) g f :
  discovered E g !! f
  = if decide (is_compiling E = f)
    then Some "torch._dynamo.external_utils.is_compiling"
    else if decide (is_fx_tracing E = f)
    then Some "torch.fx._symbolic_trace.is_fx_tracing"
    else if decide (f ∈ disallowed_ids E g) then None
    else torch_object_ids E !! f.
Proof.
  unfold discovered, add_extras.
  rewrite !lookup_insert, lookup_subtract_disallowed. reflexivity.
Qed.

Lemma run_keeps_names (E : Env) ops g :
  allowed_names E (run E ops g) = allowed_names E g.
Proof.
  apply (run_respects (fun g g' => allowed_names E g' = allowed_names E g)).
  - reflexivity.
  - intros g1 g2 g3 H12 H23. congruence.
  - intros g0. destruct g0 as [[[ids|] names] [[dis|] dnames] fb]; reflexivity.
  - intros f g0. reflexivity.
  - intros f g0. reflexivity.
  - intros f g0. unfold exec, set_dynamo_forbidden.
    destruct (accepts_attributes E f); [|destruct (is_immutable_type E f); reflexivity].
    destruct g0 as [[[ids|] names] [[dis|] dnames] fb]; reflexivity.
Qed.

(** C7, as the code has it. [torch_get_name] answers from the dictionary
    cached when the allowed set was materialized. At materialization
    the keys of that dictionary are the allowed set, so the default is
    returned when the identity is absent and the recorded name when it
    is present; the recorded name is the one the traversal built, unless
    the identity is disallowed or one of the two extras. No later
    discovery, query or override changes what [torch_get_name] returns:
    in every state reached from the initial one it answers from the
    dictionary of the discovery.
    During the traversal a binding of an identity already present is
    skipped, and a call of [_find_torch_objects] keeps every entry
    present before it, other than the entry of the module it is called
    on: that entry is set to the [__name__] of the module, unless the
    [__name__] matches the ignore list, and then the call changes
    nothing at all. *)
Theorem display_name_lookup (E : Env) :
  (forall f default g,
      function_ids (_allowed_function_ids g) = None ->
      outcome (torch_get_name E f default) g
      = Return (match discovered E g !! f with
                | Some name => name
                | None => default
                end)
      /\ outcome (__contains__ (allowed E) f) g
         = Return (bool_decide (is_Some (discovered E g !! f)))
      /\ (f ≠ is_compiling E -> f ≠ is_fx_tracing E -> f ∉ disallowed_ids E g ->
          discovered E g !! f = torch_object_ids E !! f))
  /\ (forall ops g f default,
         outcome (torch_get_name E f default) (run E ops g)
         = outcome (torch_get_name E f default) g)
  /\ (forall ops f default,
         outcome (torch_get_name E f default) (run E ops initial)
         = Return (match discovered E initial !! f with
                   | Some name => name
                   | None => default
                   end))
  /\ (forall (h : Discovery.Heap) recurse module_name name j
             (ids : gmap Z string) n,
         ids !! j = Some n ->
         Discovery.visit_binding h recurse module_name (name, j) ids = Some ids)
  /\ (forall ignorelist (h : Discovery.Heap) fuel module (ids r : gmap Z string),
         Discovery._find_torch_objects ignorelist h fuel module ids = Some r ->
         forall j n, j ≠ module -> ids !! j = Some n -> r !! j = Some n)
  /\ (forall ignorelist (h : Discovery.Heap) fuel module (ids r : gmap Z string),
         Discovery._find_torch_objects ignorelist h fuel module ids = Some r ->
         exists module_name items,
           h !! module = Some (Discovery.Module module_name items)
           /\ (Discovery.ignored ignorelist module_name = true -> r = ids)
           /\ (Discovery.ignored ignorelist module_name = false ->
               r !! module = Some module_name)).
Proof.
  assert (forall ops g f default,
             outcome (torch_get_name E f default) (run E ops g)
             = outcome (torch_get_name E f default) g) as Hrun.
  { intros ops g f default. unfold outcome. rewrite !torch_get_name_eq. cbn [fst].
    rewrite run_keeps_names. reflexivity. }
  split; [|split; [exact Hrun|split; [|split; [|split]]]].
  - intros f default g Hnone. split; [|split].
    + unfold outcome. rewrite torch_get_name_eq. unfold allowed_names, force_allowed.
      rewrite Hnone. reflexivity.
    + unfold outcome, __contains__, bind. rewrite call_allowed. cbn [fst ret].
      unfold allowed_ids. rewrite Hnone. f_equal.
      apply bool_decide_ext. apply elem_of_dom.
    + intros Hc Hfx Hd. rewrite lookup_discovered.
      repeat case_decide; congruence.
  - intros ops f default. rewrite Hrun. unfold outcome.
    rewrite torch_get_name_eq. reflexivity.
  - intros h recurse module_name name j ids n Hj.
    eapply DiscoveryFacts.visit_binding_present. exact Hj.
  - intros ignorelist h fuel module ids r Hr j n Hne Hj.
    eapply DiscoveryFacts.find_torch_objects_keeps; eassumption.
  - intros ignorelist h fuel module ids r Hr.
    eapply DiscoveryFacts.find_torch_objects_own_entry; exact Hr.
Qed.

(** The two cases of the last part on the store of the examples: the
    call on [torch.nn.functional] (9), recorded as ["torch.F"] by the
    visit of its binding, sets the entry to the [__name__]; with
    ["torch.nn"] on the ignore list the call returns at once and the
    entry stays ["torch.F"]. *)
Example own_entry_when_ignored :
  Discovery._find_torch_objects [] Examples.heap_A 1 9
    (<[9 := "torch.F"]> {[1 := "torch"]})
  = Some (<[9 := "torch.nn.functional"]> {[1 := "torch"]})
  /\ Discovery._find_torch_objects ["torch.nn"] Examples.heap_A 1 9
       (<[9 := "torch.F"]> {[1 := "torch"]})
     = Some (<[9 := "torch.F"]> {[1 := "torch"]})
  /\ (exists names : gmap Z string,
         Discovery.walk_torch (Discovery.enough_fuel Examples.heap_A)
           {| Discovery.heap := Examples.heap_A;
              Discovery.allowed_functions_module_string_ignorelist := ["torch.nn"];
              Discovery.torch := 1;
              Discovery.math := 8;
              Discovery.tensor_dir := [] |} = Some names
         /\ names !! 9 = Some "torch.F").
Proof.
  split; [vm_compute; reflexivity|]. split; [vm_compute; reflexivity|].
  eexists. split; vm_compute; reflexivity.
Qed.

Lemma display_name_lookup_witness :
  function_ids (_allowed_function_ids initial) = None
  /\ outcome (torch_get_name Examples.env_A 3 "unknown") initial
     = Return (match discovered Examples.env_A initial !! 3 with
               | Some name => name
               | None => "unknown"
               end).
Proof.
  split; [reflexivity|].
  exact (proj1 (proj1 (display_name_lookup Examples.env_A) 3 "unknown" initial eq_refl)).
Defined.

(** C7 fails as stated. The function 70 is in the allowed set after
    [allow_in_graph], yet the default is returned for it; the function 3
    is out of the allowed set after a disallow, yet its name is still
    returned; and the module 9, first recorded as ["torch.F"] by the
    visit of its binding, ends as ["torch.nn.functional"], the entry
    being overwritten by the call made on it. *)
Lemma display_name_lookup_counterexample :
  (outcome (__contains__ (allowed Examples.env_A) 70)
     (exec (allow_in_graph Examples.env_A (Ref 70)) initial) = Return true
   /\ outcome (torch_get_name Examples.env_A 70 "unknown")
        (exec (allow_in_graph Examples.env_A (Ref 70)) initial) = Return "unknown")
  /\ (outcome (__contains__ (allowed Examples.env_A) 3)
        (exec (_disallow_in_graph_helper Examples.env_A false (Ref 3)) initial)
      = Return false
      /\ outcome (torch_get_name Examples.env_A 3 "unknown")
           (exec (_disallow_in_graph_helper Examples.env_A false (Ref 3)) initial)
         = Return "torch.A.f")
  /\ (Discovery.visit_binding Examples.heap_A (fun _ ids => Some ids) "torch" ("F", 9)
        {[1 := "torch"]}
      = Some (<[9 := "torch.F"]> {[1 := "torch"]})
      /\ Discovery._find_torch_objects ["torch.A.sub."] Examples.heap_A 1 9
           (<[9 := "torch.F"]> {[1 := "torch"]})
         = Some (<[9 := "torch.nn.functional"]> {[1 := "torch"]})
      /\ Discovery.walk_torch (Discovery.enough_fuel Examples.heap_A) Examples.world_A
         = Some Examples.names_A
      /\ Examples.names_A !! 9 = Some "torch.nn.functional").
Proof.
  repeat split; vm_compute; reflexivity.
Qed.

End RegistryFacts.

Module ClassFacts.
Import Registry Notions.

Lemma registry_methods (self : Registry.Handle) :
  Class.__call__ (Class.of_registry self) = Registry.__call__ self
  /\ (forall idx, Class.add (Class.of_registry self) idx = Registry.add self idx)
  /\ (forall idx, Class.remove (Class.of_registry self) idx = Registry.remove self idx)
  /\ (forall idx, Class.__contains__ (Class.of_registry self) idx
                  = Registry.__contains__ self idx)
  /\ (forall idx default, Class.get_name (Class.of_registry self) idx default
                          = Registry.get_name self idx default).
Proof. repeat split. Qed.

Lemma lawful_disallowed (E : Env) : Class.lawful (Class.of_registry (disallowed E)).
Proof.
  split; [reflexivity | reflexivity |].
  intros g. do 2 eexists. split; reflexivity.
Qed.

Lemma lawful_allowed (E : Env) : Class.lawful (Class.of_registry (allowed E)).
Proof.
  split; [reflexivity | reflexivity |].
  intros g. cbn [Class.lazy_initializer Class.of_registry lazy_initializer allowed].
  unfold bind. rewrite RegistryFacts.call_disallowed. do 2 eexists.
  split; reflexivity.
Qed.

Section Lawful.

Context {S : Type}.
Variable self : Class.Handle S.
Hypothesis Hlawful : Class.lawful self.

Lemma call_materialized g ids :
  function_ids (Class.instance self g) = Some ids ->
  Class.__call__ self g = (Return ids, g).
Proof.
  intros Hids. unfold Class.__call__, Class.bind, Class.read. rewrite Hids. reflexivity.
Qed.

Lemma call_fresh g value g' :
  function_ids (Class.instance self g) = None ->
  Class.lazy_initializer self g = (Return value, g') ->
  Class.instance self g' = Class.instance self g ->
  Class.__call__ self g
  = (Return (ids_of value),
     Class.store self
       {| function_ids := Some (ids_of value);
          function_names := names_after value (function_names (Class.instance self g)) |}
       g').
Proof.
  intros Hnone Hinit Hsame.
  unfold Class.__call__, Class.bind, Class.read. rewrite Hnone, Hinit.
  destruct value as [d|s]; cbn.
  - unfold Class.assign_function_names. 
    rewrite (Class.instance_store self Hlawful), (Class.store_store self Hlawful).
    reflexivity.
  - rewrite Hsame. reflexivity.
Qed.

Lemma call_returns g :
  exists ids names,
    Class.__call__ self g = (Return ids, Class.exec (Class.__call__ self) g)
    /\ Class.instance self (Class.exec (Class.__call__ self) g)
       = {| function_ids := Some ids; function_names := names |}.
Proof.
  destruct (function_ids (Class.instance self g)) as [ids|] eqn:Hids.
  - exists ids, (function_names (Class.instance self g)).
    unfold Class.exec. rewrite (call_materialized g ids Hids). cbn.
    split; [reflexivity|]. destruct (Class.instance self g). cbn in *. congruence.
  - destruct (Class.initializer_returns self Hlawful g) as (value & g' & Hinit & Hsame).
    unfold Class.exec. rewrite (call_fresh g value g' Hids Hinit Hsame). cbn.
    do 2 eexists. split; [reflexivity|].
    rewrite (Class.instance_store self Hlawful). reflexivity.
Qed.

Lemma contains_spec g ids j :
  Class.__call__ self g = (Return ids, Class.exec (Class.__call__ self) g) ->
  Class.__contains__ self j g
  = (Return (bool_decide (j ∈ ids)), Class.exec (Class.__call__ self) g).
Proof.
  intros Hcall. unfold Class.__contains__, Class.bind. rewrite Hcall. reflexivity.
Qed.

Lemma add_spec g ids names idx :
  Class.__call__ self g = (Return ids, Class.exec (Class.__call__ self) g) ->
  Class.instance self (Class.exec (Class.__call__ self) g)
  = {| function_ids := Some ids; function_names := names |} ->
  Class.add self idx g
  = (Return tt,
     Class.store self {| function_ids := Some ({[idx]} ∪ ids); function_names := names |}
       (Class.exec (Class.__call__ self) g)).
Proof.
  intros Hcall Hinst. unfold Class.add, Class.bind. rewrite Hcall.
  unfold Class.assign_function_ids. rewrite Hinst. reflexivity.
Qed.

Lemma remove_spec g ids names idx :
  Class.__call__ self g = (Return ids, Class.exec (Class.__call__ self) g) ->
  Class.instance self (Class.exec (Class.__call__ self) g)
  = {| function_ids := Some ids; function_names := names |} ->
  Class.remove self idx g
  = (Return tt,
     if bool_decide (idx ∈ ids)
     then Class.store self
            {| function_ids := Some (ids ∖ {[idx]}); function_names := names |}
            (Class.exec (Class.__call__ self) g)
     else Class.exec (Class.__call__ self) g).
Proof.
  intros Hcall Hinst. unfold Class.remove, Class.bind. rewrite Hcall.
  case_bool_decide; [|reflexivity].
  unfold Class.assign_function_ids. rewrite Hinst. reflexivity.
Qed.

Lemma contains_stored g ids names j :
  Class.__contains__ self j
    (Class.store self {| function_ids := Some ids; function_names := names |} g)
  = (Return (bool_decide (j ∈ ids)),
     Class.store self {| function_ids := Some ids; function_names := names |} g).
Proof.
  unfold Class.__contains__, Class.bind.
  rewrite (call_materialized _ ids); [reflexivity|].
  rewrite (Class.instance_store self Hlawful). reflexivity.
Qed.

Lemma get_name_stored g ids names j default :
  Class.outcome (Class.get_name self j default)
    (Class.store self {| function_ids := Some ids; function_names := names |} g)
  = match names with
    | Some names =>
        Return (match names !! j with Some name => name | None => default end)
    | None => Raise AttributeError
    end.
Proof.
  unfold Class.outcome, Class.get_name, Class.bind.
  rewrite (call_materialized _ ids)
    by (rewrite (Class.instance_store self Hlawful); reflexivity).
  unfold Class.read. rewrite (Class.instance_store self Hlawful). cbn.
  destruct names; reflexivity.
Qed.

Lemma get_name_called g ids names j default :
  Class.__call__ self g = (Return ids, Class.exec (Class.__call__ self) g) ->
  Class.instance self (Class.exec (Class.__call__ self) g)
  = {| function_ids := Some ids; function_names := names |} ->
  Class.outcome (Class.get_name self j default) g
  = match names with
    | Some names =>
        Return (match names !! j with Some name => name | None => default end)
    | None => Raise AttributeError
    end.
Proof.
  intros Hcall Hinst.
  unfold Class.outcome, Class.get_name, Class.bind. rewrite Hcall.
  unfold Class.read. rewrite Hinst. cbn. destruct names; reflexivity.
Qed.

End Lawful.

(** X1. The lazy initializer runs at most once: after any first access
    a further [self()] returns the same set and leaves the state as it
    is. *)
Theorem materialized_once {S : Type} (self : Class.Handle S) g :
  Class.lawful self ->
  Class.__call__ self (Class.exec (Class.__call__ self) g) = Class.__call__ self g.
Proof.
  intros Hlawful.
  destruct (call_returns self Hlawful g) as (ids & names & Hcall & Hinst).
  rewrite Hcall. apply call_materialized. rewrite Hinst. reflexivity.
Qed.

Lemma materialized_once_witness :
  Class.lawful (Class.of_registry (allowed Examples.env_A))
  /\ Class.__call__ (Class.of_registry (allowed Examples.env_A))
       (Class.exec (Class.__call__ (Class.of_registry (allowed Examples.env_A))) initial)
     = Class.__call__ (Class.of_registry (allowed Examples.env_A)) initial.
Proof.
  split; [apply lawful_allowed|].
  apply (materialized_once (Class.of_registry (allowed Examples.env_A)) initial).
  apply lawful_allowed.
Defined.

(** X2. [add] never raises; after [add(idx)] the set holds [idx] and
    exactly the identities it held before. *)
Theorem add_then_contains {S : Type} (self : Class.Handle S) g idx j :
  Class.lawful self ->
  Class.outcome (Class.add self idx) g = Return tt
  /\ exists before,
      Class.outcome (Class.__contains__ self j) g = Return before
      /\ Class.outcome (Class.__contains__ self j) (Class.exec (Class.add self idx) g)
         = Return (bool_decide (j = idx) || before).
Proof.
  intros Hlawful.
  destruct (call_returns self Hlawful g) as (ids & names & Hcall & Hinst).
  unfold Class.outcome, Class.exec.
  rewrite (add_spec self g ids names idx Hcall Hinst),
    (contains_spec self g ids j Hcall).
  cbn [fst snd]. rewrite (contains_stored self Hlawful).
  cbn. split; [reflexivity|]. eexists. split; [reflexivity|]. f_equal.
  repeat case_bool_decide; first [reflexivity | exfalso; set_solver].
Qed.

Lemma add_then_contains_witness :
  Class.lawful (Class.of_registry (disallowed Examples.env_A))
  /\ Class.outcome (Class.add (Class.of_registry (disallowed Examples.env_A)) 70) initial
     = Return tt.
Proof.
  split; [apply lawful_disallowed|].
  exact (proj1 (add_then_contains (Class.of_registry (disallowed Examples.env_A))
                  initial 70 70 (lawful_disallowed Examples.env_A))).
Defined.

(** X3. [remove] never raises, whether the identity is in the set or
    not; after [remove(idx)] the set holds exactly the identities it
    held before other than [idx], and when [idx] was not in the set the
    state is the one a bare [self()] leaves. *)
Theorem remove_then_contains {S : Type} (self : Class.Handle S) g idx j :
  Class.lawful self ->
  Class.outcome (Class.remove self idx) g = Return tt
  /\ (exists before,
         Class.outcome (Class.__contains__ self j) g = Return before
         /\ Class.outcome (Class.__contains__ self j)
              (Class.exec (Class.remove self idx) g)
            = Return (before && negb (bool_decide (j = idx))))
  /\ (Class.outcome (Class.__contains__ self idx) g = Return false ->
      Class.exec (Class.remove self idx) g = Class.exec (Class.__call__ self) g).
Proof.
  intros Hlawful.
  destruct (call_returns self Hlawful g) as (ids & names & Hcall & Hinst).
  unfold Class.outcome, Class.exec.
  rewrite (remove_spec self g ids names idx Hcall Hinst),
    (contains_spec self g ids j Hcall), (contains_spec self g ids idx Hcall).
  cbn [fst snd]. split; [reflexivity|]. split.
  - eexists. split; [reflexivity|].
    destruct (bool_decide (idx ∈ ids)) eqn:Hin.
    + rewrite (contains_stored self Hlawful). cbn. f_equal.
      apply bool_decide_eq_true in Hin.
      repeat case_bool_decide; first [reflexivity | exfalso; set_solver].
    + apply bool_decide_eq_false in Hin.
      assert (Class.__call__ self (Class.exec (Class.__call__ self) g)
              = Class.__call__ self g) as Hagain by (apply materialized_once; exact Hlawful).
      unfold Class.__contains__, Class.bind. unfold Class.exec in *. rewrite Hagain, Hcall.
      cbn. f_equal.
      repeat case_bool_decide; first [reflexivity | exfalso; set_solver | subst; tauto].
  - intros [= Hout]. rewrite Hout. reflexivity.
Qed.

Lemma remove_then_contains_witness :
  Class.lawful (Class.of_registry (allowed Examples.env_A))
  /\ Class.outcome (Class.remove (Class.of_registry (allowed Examples.env_A)) 70) initial
     = Return tt.
Proof.
  split; [apply lawful_allowed|].
  exact (proj1 (remove_then_contains (Class.of_registry (allowed Examples.env_A))
                  initial 70 70 (lawful_allowed Examples.env_A))).
Defined.

(** X4. [add] and [remove] change [function_ids] only: [get_name]
    answers after them as it did before, so an identity put in by [add]
    has no name and an identity taken out by [remove] keeps its name. *)
Theorem get_name_ignores_add_remove {S : Type} (self : Class.Handle S) g idx j default :
  Class.lawful self ->
  Class.outcome (Class.get_name self j default) (Class.exec (Class.add self idx) g)
  = Class.outcome (Class.get_name self j default) g
  /\ Class.outcome (Class.get_name self j default) (Class.exec (Class.remove self idx) g)
     = Class.outcome (Class.get_name self j default) g.
Proof.
  intros Hlawful.
  destruct (call_returns self Hlawful g) as (ids & names & Hcall & Hinst).
  rewrite (get_name_called self g ids names j default Hcall Hinst).
  unfold Class.exec.
  rewrite (add_spec self g ids names idx Hcall Hinst),
    (remove_spec self g ids names idx Hcall Hinst).
  cbn [snd]. split.
  - apply (get_name_stored self Hlawful).
  - case_bool_decide; [apply (get_name_stored self Hlawful)|].
    assert (Class.__call__ self (Class.exec (Class.__call__ self) g)
            = Class.__call__ self g) as Hagain by (apply materialized_once; exact Hlawful).
    unfold Class.outcome, Class.get_name, Class.bind, Class.read.
    unfold Class.exec in *. rewrite Hagain, Hcall. cbn [snd]. rewrite Hinst. cbn.
    destruct names; reflexivity.
Qed.

Lemma get_name_ignores_add_remove_witness :
  Class.lawful (Class.of_registry (allowed Examples.env_A))
  /\ Class.outcome (Class.get_name (Class.of_registry (allowed Examples.env_A)) 70 "none")
       (Class.exec (Class.add (Class.of_registry (allowed Examples.env_A)) 70) initial)
     = Class.outcome (Class.get_name (Class.of_registry (allowed Examples.env_A)) 70 "none")
         initial.
Proof.
  split; [apply lawful_allowed|].
  exact (proj1 (get_name_ignores_add_remove (Class.of_registry (allowed Examples.env_A))
                  initial 70 70 "none" (lawful_allowed Examples.env_A))).
Defined.

End ClassFacts.

Module OverrideFacts.
Import Registry RegistryFacts Notions.

Lemma globals_eq a a' an d d' dn fb :
  a = a' -> d = d' ->
  {| _allowed_function_ids := {| function_ids := Some a; function_names := an |};
     _disallowed_function_ids := {| function_ids := Some d; function_names := dn |};
     _dynamo_forbidden := fb |}
  = {| _allowed_function_ids := {| function_ids := Some a'; function_names := an |};
       _disallowed_function_ids := {| function_ids := Some d'; function_names := dn |};
       _dynamo_forbidden := fb |}.
Proof. intros -> ->. reflexivity. Qed.

(** Equations between sets of identities built from singletons. *)
Ltac by_cases f :=
  apply set_eq; intros ?x; destruct (decide (x = f)); set_solver.

Ltac by_cases2 f1 f2 :=
  apply set_eq; intros ?x; destruct (decide (x = f1)), (decide (x = f2)); set_solver.

Section Overrides.

Variable E : Env.

Lemma exec_allow f g :
  exec (allow_in_graph E (Ref f)) g = if callable E f then allow_state E f g else g.
Proof.
  unfold exec. destruct (callable E f) eqn:Hf.
  - rewrite allow_in_graph_ref by exact Hf. reflexivity.
  - rewrite allow_in_graph_not_callable by exact Hf. reflexivity.
Qed.

Lemma exec_disallow_lenient f g :
  exec (_disallow_in_graph_helper E false (Ref f)) g
  = if callable E f then disallow_state E f g else g.
Proof.
  unfold exec. destruct (callable E f) eqn:Hf.
  - rewrite disallow_ref_lenient by exact Hf. reflexivity.
  - rewrite disallow_not_callable by exact Hf. reflexivity.
Qed.

Lemma exec_disallow_strict f g :
  exec (disallow_in_graph E (Ref f)) g
  = if callable E f
    then if bool_decide (f ∈ allowed_ids E g) || is_dispatch_wrapper E f
         then disallow_state E f g
         else force_allowed E g
    else g.
Proof.
  unfold exec, disallow_in_graph. destruct (callable E f) eqn:Hf.
  - rewrite disallow_ref_strict by exact Hf. destruct (_ || _); reflexivity.
  - rewrite disallow_not_callable by exact Hf. reflexivity.
Qed.

Lemma outcome_is_allowed f g :
  outcome (is_allowed E f) g
  = Return (bool_decide (f ∈ allowed_ids E g) || is_dispatch_wrapper E f).
Proof. unfold outcome. rewrite is_allowed_eq. reflexivity. Qed.

Lemma allowed_names_force g : allowed_names E (force_allowed E g) = allowed_names E g.
Proof. destruct g as [[[ids|] names] [[dis|] dnames] fb]; reflexivity. Qed.

Lemma force_allowed_twice g : force_allowed E (force_allowed E g) = force_allowed E g.
Proof. destruct g as [[[ids|] names] [[dis|] dnames] fb]; reflexivity. Qed.

Lemma disallowed_names_force g :
  function_names (_disallowed_function_ids (force_allowed E g))
  = function_names (_disallowed_function_ids g).
Proof. destruct g as [[[ids|] names] [[dis|] dnames] fb]; reflexivity. Qed.

Lemma forbidden_force g : _dynamo_forbidden (force_allowed E g) = _dynamo_forbidden g.
Proof. destruct g as [[[ids|] names] [[dis|] dnames] fb]; reflexivity. Qed.

Lemma allow_state_force f g : allow_state E f (force_allowed E g) = allow_state E f g.
Proof.
  unfold allow_state.
  rewrite allowed_ids_force, disallowed_ids_force, allowed_names_force,
    disallowed_names_force, forbidden_force.
  reflexivity.
Qed.

Lemma disallow_state_force f g :
  disallow_state E f (force_allowed E g) = disallow_state E f g.
Proof.
  unfold disallow_state.
  rewrite allowed_ids_force, disallowed_ids_force, allowed_names_force,
    disallowed_names_force, forbidden_force.
  reflexivity.
Qed.

(** The state after two single-object overrides, whatever they are. *)
Lemma allow_allow f1 f2 g :
  allow_state E f1 (allow_state E f2 g)
  = {| _allowed_function_ids :=
         {| function_ids := Some ({[f1]} ∪ ({[f2]} ∪ allowed_ids E g));
            function_names := allowed_names E g |};
       _disallowed_function_ids :=
         {| function_ids := Some (disallowed_ids E g ∖ {[f2]} ∖ {[f1]});
            function_names := function_names (_disallowed_function_ids g) |};
       _dynamo_forbidden := _dynamo_forbidden g |}.
Proof. reflexivity. Qed.

Lemma allow_disallow f1 f2 g :
  allow_state E f1 (disallow_state E f2 g)
  = {| _allowed_function_ids :=
         {| function_ids := Some ({[f1]} ∪ (allowed_ids E g ∖ {[f2]}));
            function_names := allowed_names E g |};
       _disallowed_function_ids :=
         {| function_ids := Some (({[f2]} ∪ disallowed_ids E g) ∖ {[f1]});
            function_names := function_names (_disallowed_function_ids g) |};
       _dynamo_forbidden := _dynamo_forbidden g |}.
Proof. reflexivity. Qed.

Lemma disallow_allow f1 f2 g :
  disallow_state E f1 (allow_state E f2 g)
  = {| _allowed_function_ids :=
         {| function_ids := Some (({[f2]} ∪ allowed_ids E g) ∖ {[f1]});
            function_names := allowed_names E g |};
       _disallowed_function_ids :=
         {| function_ids := Some ({[f1]} ∪ (disallowed_ids E g ∖ {[f2]}));
            function_names := function_names (_disallowed_function_ids g) |};
       _dynamo_forbidden := _dynamo_forbidden g |}.
Proof. reflexivity. Qed.

Lemma disallow_disallow f1 f2 g :
  disallow_state E f1 (disallow_state E f2 g)
  = {| _allowed_function_ids :=
         {| function_ids := Some (allowed_ids E g ∖ {[f2]} ∖ {[f1]});
            function_names := allowed_names E g |};
       _disallowed_function_ids :=
         {| function_ids := Some ({[f1]} ∪ ({[f2]} ∪ disallowed_ids E g));
            function_names := function_names (_disallowed_function_ids g) |};
       _dynamo_forbidden := _dynamo_forbidden g |}.
Proof. reflexivity. Qed.

End Overrides.

(** X5. An override of [f] leaves the classification of every other
    object as it was: for [j] other than [f], membership of [j] in the
    two sets and [is_allowed(j)] read the same after [allow_in_graph(f)]
    and after a disallow of [f], strict or not, raised or not. *)
Theorem override_leaves_others (E : Env) f j g :
  j ≠ f ->
  (outcome (membership E j) (exec (allow_in_graph E (Ref f)) g)
   = outcome (membership E j) g
   /\ outcome (is_allowed E j) (exec (allow_in_graph E (Ref f)) g)
      = outcome (is_allowed E j) g)
  /\ (forall throw,
         outcome (membership E j) (exec (_disallow_in_graph_helper E throw (Ref f)) g)
         = outcome (membership E j) g
         /\ outcome (is_allowed E j) (exec (_disallow_in_graph_helper E throw (Ref f)) g)
            = outcome (is_allowed E j) g).
Proof.
  intros Hne.
  assert (forall A : gset Z, bool_decide (j ∈ {[f]} ∪ A) = bool_decide (j ∈ A)) as Hunion
    by (intros A; apply bool_decide_ext; set_solver).
  assert (forall A : gset Z, bool_decide (j ∈ A ∖ {[f]}) = bool_decide (j ∈ A)) as Hdiff
    by (intros A; apply bool_decide_ext; set_solver).
  split; [|intros throw]; rewrite !membership_eq, !outcome_is_allowed.
  - rewrite exec_allow. destruct (callable E f); [|auto].
    cbn -[union difference]. rewrite Hunion, Hdiff. auto.
  - destruct throw.
    + fold (disallow_in_graph E (Ref f)). rewrite exec_disallow_strict.
      destruct (callable E f); [|auto]. destruct (_ || _).
      * cbn -[union difference]. rewrite Hunion, Hdiff. auto.
      * rewrite allowed_ids_force, disallowed_ids_force. auto.
    + rewrite exec_disallow_lenient. destruct (callable E f); [|auto].
      cbn -[union difference]. rewrite Hunion, Hdiff. auto.
Qed.

Lemma override_leaves_others_witness :
  3 ≠ 70
  /\ outcome (membership Examples.env_A 3)
       (exec (allow_in_graph Examples.env_A (Ref 70)) initial)
     = outcome (membership Examples.env_A 3) initial.
Proof.
  assert (3 ≠ 70) as Hne by discriminate.
  split; [exact Hne|].
  exact (proj1 (proj1 (override_leaves_others Examples.env_A 70 3 initial Hne))).
Defined.

(** X6. The lenient disallow is idempotent: a second one leaves the
    state the first one left. The strict [disallow_in_graph] never
    succeeds twice in a row on a callable that is not a dispatch
    wrapper: the second call raises [IncorrectUsage] and leaves the
    state of the first. *)
Theorem disallow_twice (E : Env) f g :
  exec (_disallow_in_graph_helper E false (Ref f))
    (exec (_disallow_in_graph_helper E false (Ref f)) g)
  = exec (_disallow_in_graph_helper E false (Ref f)) g
  /\ (callable E f = true -> is_dispatch_wrapper E f = false ->
      disallow_in_graph E (Ref f) (exec (disallow_in_graph E (Ref f)) g)
      = (Raise IncorrectUsage, exec (disallow_in_graph E (Ref f)) g)).
Proof.
  split.
  - rewrite !exec_disallow_lenient. destruct (callable E f); [|reflexivity].
    rewrite disallow_disallow. unfold disallow_state. apply globals_eq; by_cases f.
  - intros Hf Hd. unfold disallow_in_graph at 1.
    rewrite disallow_ref_strict by exact Hf. rewrite Hd, orb_false_r.
    rewrite exec_disallow_strict, Hf, Hd, orb_false_r.
    destruct (bool_decide (f ∈ allowed_ids E g)) eqn:Hin.
    + rewrite bool_decide_eq_false_2 by (cbn -[difference]; set_solver).
      reflexivity.
    + rewrite allowed_ids_force, Hin, force_allowed_twice. reflexivity.
Qed.

(** X7. The last override of an object wins entirely: [allow_in_graph]
    after a lenient disallow of the same object leaves the state that
    [allow_in_graph] alone leaves, and the lenient disallow after
    [allow_in_graph] the state that the disallow alone leaves. *)
Theorem last_override_wins (E : Env) f g :
  exec (allow_in_graph E (Ref f)) (exec (_disallow_in_graph_helper E false (Ref f)) g)
  = exec (allow_in_graph E (Ref f)) g
  /\ exec (_disallow_in_graph_helper E false (Ref f)) (exec (allow_in_graph E (Ref f)) g)
     = exec (_disallow_in_graph_helper E false (Ref f)) g.
Proof.
  repeat (rewrite exec_allow || rewrite exec_disallow_lenient).
  destruct (callable E f); [|split; reflexivity]. split.
  - rewrite allow_disallow. unfold allow_state. apply globals_eq; by_cases f.
  - rewrite disallow_allow. unfold disallow_state. apply globals_eq; by_cases f.
Qed.

(** X8. Overrides of different objects can be made in either order:
    two [allow_in_graph], two lenient disallows, and an [allow_in_graph]
    with a lenient disallow of another object leave the same state both
    ways. *)
Theorem overrides_commute (E : Env) f1 f2 g :
  exec (allow_in_graph E (Ref f1)) (exec (allow_in_graph E (Ref f2)) g)
  = exec (allow_in_graph E (Ref f2)) (exec (allow_in_graph E (Ref f1)) g)
  /\ exec (_disallow_in_graph_helper E false (Ref f1))
       (exec (_disallow_in_graph_helper E false (Ref f2)) g)
     = exec (_disallow_in_graph_helper E false (Ref f2))
         (exec (_disallow_in_graph_helper E false (Ref f1)) g)
  /\ (f1 ≠ f2 ->
      exec (allow_in_graph E (Ref f1))
        (exec (_disallow_in_graph_helper E false (Ref f2)) g)
      = exec (_disallow_in_graph_helper E false (Ref f2))
          (exec (allow_in_graph E (Ref f1)) g)).
Proof.
  repeat (rewrite exec_allow || rewrite exec_disallow_lenient).
  destruct (callable E f1), (callable E f2); repeat split; try reflexivity.
  - rewrite !allow_allow. apply globals_eq; by_cases2 f1 f2.
  - rewrite !disallow_disallow. apply globals_eq; by_cases2 f1 f2.
  - intros Hne. rewrite allow_disallow, disallow_allow.
    apply globals_eq; by_cases2 f1 f2.
Qed.

(** ** Sequences *)

Lemma allow_list_ok (E : Env) fs : forall g,
  Forall (fun f => callable E f = true) fs ->
  comprehension (allow_in_graph E) (map Ref fs) g
  = (Return (map Ref fs), allow_all E fs g).
Proof.
  induction fs as [|f fs IH]; intros g Hall; [reflexivity|].
  inversion Hall as [|? ? Hf Hrest]; subst.
  cbn [map comprehension]. unfold bind.
  rewrite allow_in_graph_ref by exact Hf. rewrite IH by exact Hrest. reflexivity.
Qed.

Lemma allow_list_stops (E : Env) fs x rest : forall g,
  Forall (fun f => callable E f = true) fs ->
  callable E x = false ->
  comprehension (allow_in_graph E) (map Ref (fs ++ x :: rest)) g
  = (Raise AssertionError, allow_all E fs g).
Proof.
  induction fs as [|f fs IH]; intros g Hall Hx.
  - cbn [app map comprehension]. unfold bind.
    rewrite allow_in_graph_not_callable by exact Hx. reflexivity.
  - inversion Hall as [|? ? Hf Hrest]; subst.
    cbn [app map comprehension]. unfold bind.
    rewrite allow_in_graph_ref by exact Hf.
    change (map Ref (fs ++ x :: rest)) with (map Ref (fs ++ x :: rest)).
    rewrite (IH _ Hrest Hx). reflexivity.
Qed.

Lemma allow_all_sets (E : Env) fs : forall g,
  fs ≠ [] ->
  allowed_ids E (allow_all E fs g) = list_to_set fs ∪ allowed_ids E g
  /\ disallowed_ids E (allow_all E fs g) = disallowed_ids E g ∖ list_to_set fs.
Proof.
  induction fs as [|f fs IH]; intros g Hne; [congruence|].
  destruct fs as [|f' fs'].
  - cbn -[union difference]. split; set_solver.
  - destruct (IH (allow_state E f g)) as [Ha Hd]; [congruence|].
    change (allow_all E (f :: f' :: fs') g)
      with (allow_all E (f' :: fs') (allow_state E f g)).
    rewrite Ha, Hd. cbn -[union difference]. split; set_solver.
Qed.

(** X9. On a list or a tuple of callables [allow_in_graph] returns the
    list of the same objects; afterwards each of them is in the allowed
    set and none is in the disallowed set, and no other identity has
    moved. On the empty sequence it leaves the state as it is, without
    materializing any set. *)
Theorem allow_in_graph_all (E : Env) fs g :
  Forall (fun f => callable E f = true) fs ->
  outcome (allow_in_graph E (PyList (map Ref fs))) g = Return (PyList (map Ref fs))
  /\ exec (allow_in_graph E (PyTuple (map Ref fs))) g
     = exec (allow_in_graph E (PyList (map Ref fs))) g
  /\ (fs = [] -> exec (allow_in_graph E (PyList (map Ref fs))) g = g)
  /\ (fs ≠ [] ->
      forall j,
        outcome (membership E j) (exec (allow_in_graph E (PyList (map Ref fs))) g)
        = Return (bool_decide (j ∈ fs) || bool_decide (j ∈ allowed_ids E g),
                  negb (bool_decide (j ∈ fs)) && bool_decide (j ∈ disallowed_ids E g))).
Proof.
  intros Hall.
  assert (allow_in_graph E (PyList (map Ref fs)) g
          = (Return (PyList (map Ref fs)), allow_all E fs g)) as Hrun.
  { cbn [allow_in_graph]. unfold bind. rewrite allow_list_ok by exact Hall. reflexivity. }
  repeat split.
  - unfold outcome. rewrite Hrun. reflexivity.
  - intros ->. reflexivity.
  - intros Hne j. unfold exec. rewrite Hrun. cbn [snd]. rewrite membership_eq.
    destruct (allow_all_sets E fs g Hne) as [-> ->]. f_equal. f_equal.
    + repeat case_bool_decide; first [reflexivity | exfalso; set_solver].
    + repeat case_bool_decide; first [reflexivity | exfalso; set_solver].
Qed.

Lemma allow_in_graph_all_witness :
  Forall (fun f => callable Examples.env_A f = true) [70; 3]
  /\ outcome (allow_in_graph Examples.env_A (PyList (map Ref [70; 3]))) initial
     = Return (PyList (map Ref [70; 3])).
Proof.
  assert (Forall (fun f => callable Examples.env_A f = true) [70; 3]) as Hall
    by (repeat constructor).
  split; [exact Hall|].
  exact (proj1 (allow_in_graph_all Examples.env_A [70; 3] initial Hall)).
Defined.

(** X10. A sequence is not handled as a whole: when an item is not
    callable, [allow_in_graph] raises [AssertionError] with the items
    before it already allowed, as [allow_in_graph] of those items alone
    leaves them, and the items after it untouched. *)
Theorem allow_in_graph_stops_at_first_failure (E : Env) fs x rest g :
  Forall (fun f => callable E f = true) fs ->
  callable E x = false ->
  allow_in_graph E (PyList (map Ref (fs ++ x :: rest))) g
  = (Raise AssertionError, exec (allow_in_graph E (PyList (map Ref fs))) g).
Proof.
  intros Hall Hx. cbn [allow_in_graph]. unfold exec, bind.
  rewrite allow_list_stops by assumption. rewrite allow_list_ok by exact Hall.
  reflexivity.
Qed.

Lemma allow_in_graph_stops_at_first_failure_witness :
  Forall (fun f => callable Examples.env_A f = true) [70]
  /\ callable Examples.env_A 50 = false
  /\ allow_in_graph Examples.env_A (PyList (map Ref ([70] ++ 50 :: [3]))) initial
     = (Raise AssertionError,
        exec (allow_in_graph Examples.env_A (PyList (map Ref [70]))) initial).
Proof.
  assert (Forall (fun f => callable Examples.env_A f = true) [70]) as Hall
    by (repeat constructor).
  split; [exact Hall|]. split; [reflexivity|].
  exact (allow_in_graph_stops_at_first_failure Examples.env_A [70] 50 [3] initial
           Hall eq_refl).
Defined.

(** X11. The lenient helper is lenient on a single object only. For a
    callable that is not allowed it returns the callable, while on the
    one-item list of that callable it raises [IncorrectUsage], because
    items go through the strict [disallow_in_graph]. *)
Theorem lenient_disallow_is_strict_on_items (E : Env) f g :
  callable E f = true ->
  outcome (is_allowed E f) g = Return false ->
  outcome (_disallow_in_graph_helper E false (Ref f)) g = Return (Ref f)
  /\ outcome (_disallow_in_graph_helper E false (PyList [Ref f])) g
     = Raise IncorrectUsage
  /\ outcome (_disallow_in_graph_helper E false (PyTuple [Ref f])) g
     = Raise IncorrectUsage.
Proof.
  intros Hf Hnot. rewrite outcome_is_allowed in Hnot. injection Hnot as Hnot.
  assert (forall items,
             (items = PyList [Ref f] \/ items = PyTuple [Ref f]) ->
             outcome (_disallow_in_graph_helper E false items) g = Raise IncorrectUsage)
    as Hitems.
  { intros items Hitems. unfold outcome.
    assert (_disallow_in_graph_helper E false items g
            = (let* result := comprehension (disallow_in_graph E) [Ref f] in
               ret (PyList result)) g) as -> by (destruct Hitems; subst; reflexivity).
    unfold bind. cbn [comprehension]. unfold bind, disallow_in_graph.
    rewrite disallow_ref_strict by exact Hf. rewrite Hnot. reflexivity. }
  split; [|split; apply Hitems; auto].
  unfold outcome. rewrite disallow_ref_lenient by exact Hf. reflexivity.
Qed.

Lemma lenient_disallow_is_strict_on_items_witness :
  callable Examples.env_A 70 = true
  /\ outcome (is_allowed Examples.env_A 70) initial = Return false
  /\ outcome (_disallow_in_graph_helper Examples.env_A false (PyList [Ref 70])) initial
     = Raise IncorrectUsage.
Proof.
  assert (outcome (is_allowed Examples.env_A 70) initial = Return false) as Hnot
    by (vm_compute; reflexivity).
  split; [reflexivity|]. split; [exact Hnot|].
  exact (proj1 (proj2 (lenient_disallow_is_strict_on_items Examples.env_A 70 initial
                         eq_refl Hnot))).
Defined.

Lemma disallow_list_shrinks (E : Env) fs : forall g vs g',
  comprehension (disallow_in_graph E) (map Ref fs) g = (Return vs, g') ->
  allowed_ids E g' ⊆ allowed_ids E g.
Proof.
  induction fs as [|f fs IH]; intros g vs g'.
  - cbn. intros [= _ <-]. reflexivity.
  - cbn [map comprehension]. unfold bind.
    destruct (disallow_in_graph E (Ref f) g) as [[v|e] g1] eqn:Hf; [|discriminate].
    destruct (comprehension (disallow_in_graph E) (map Ref fs) g1) as [[vs'|e] g2] eqn:Hfs;
      [|discriminate].
    intros [= _ <-]. etransitivity; [eapply IH; exact Hfs|].
    assert (g1 = exec (disallow_in_graph E (Ref f)) g) as ->
      by (unfold exec; rewrite Hf; reflexivity).
    rewrite exec_disallow_strict.
    destruct (callable E f); [|reflexivity]. destruct (_ || _).
    + cbn -[difference]. set_solver.
    + rewrite allowed_ids_force. reflexivity.
Qed.

Lemma comprehension_app {A B} (f : A -> M B) l1 l2 g :
  comprehension f (l1 ++ l2) g
  = (let* ys1 := comprehension f l1 in
     let* ys2 := comprehension f l2 in
     ret (ys1 ++ ys2)%list) g.
Proof.
  revert g. induction l1 as [|x l1 IH]; intros g.
  - cbn [app comprehension]. unfold bind, ret.
    destruct (comprehension f l2 g) as [[ys|e] g']; reflexivity.
  - cbn [app comprehension]. unfold bind.
    destruct (f x g) as [[y|e] g1]; [|reflexivity].
    rewrite IH. unfold bind, ret.
    destruct (comprehension f l1 g1) as [[ys1|e] g2]; [|reflexivity].
    destruct (comprehension f l2 g2) as [[ys2|e] g3]; reflexivity.
Qed.

(** X25. A sequence that lists the same callable twice can never be
    disallowed, in any state: unless the callable is a dispatch wrapper,
    [disallow_in_graph] raises on such a sequence, at the second
    occurrence at the latest, since the first one has taken the
    callable out of the allowed set. *)
Theorem disallow_repeated_raises (E : Env) f l1 l2 l3 g :
  callable E f = true ->
  is_dispatch_wrapper E f = false ->
  exists e,
    outcome (disallow_in_graph E (PyList (map Ref (l1 ++ f :: l2 ++ f :: l3)))) g
    = Raise e.
Proof.
  intros Hf Hd.
  assert (forall g, exists e,
             outcome (comprehension (disallow_in_graph E) (map Ref (f :: l2 ++ f :: l3))) g
             = Raise e) as Htail.
  { clear g. intros g. unfold outcome. cbn [map comprehension]. unfold bind.
    destruct (disallow_in_graph E (Ref f) g) as [[v|e] g1] eqn:Hfirst; [|eauto].
    assert (f ∉ allowed_ids E g1) as Hout.
    { assert (g1 = exec (disallow_in_graph E (Ref f)) g) as ->
        by (unfold exec; rewrite Hfirst; reflexivity).
      rewrite exec_disallow_strict, Hf, Hd, orb_false_r.
      revert Hfirst. unfold disallow_in_graph.
      rewrite disallow_ref_strict by exact Hf. rewrite Hd, orb_false_r.
      destruct (bool_decide (f ∈ allowed_ids E g)); [|discriminate].
      intros _. cbn -[difference]. set_solver. }
    rewrite map_app, comprehension_app. unfold bind.
    destruct (comprehension (disallow_in_graph E) (map Ref l2) g1) as [[vs|e] g2] eqn:Hl2;
      [|eauto].
    apply disallow_list_shrinks in Hl2.
    cbn [map comprehension]. unfold bind, disallow_in_graph at 1.
    rewrite disallow_ref_strict by exact Hf. rewrite Hd, orb_false_r.
    rewrite bool_decide_eq_false_2 by set_solver. eauto. }
  assert (exists e g',
             comprehension (disallow_in_graph E) (map Ref (l1 ++ f :: l2 ++ f :: l3)) g
             = (Raise e, g')) as (e & g' & Hrun).
  { rewrite map_app, comprehension_app. unfold bind.
    destruct (comprehension (disallow_in_graph E) (map Ref l1) g) as [[vs|e] g1]; [|eauto].
    destruct (Htail g1) as [e He]. unfold outcome in He.
    destruct (comprehension (disallow_in_graph E) (map Ref (f :: l2 ++ f :: l3)) g1)
      as [[vs'|e'] g2]; [discriminate|]. eauto. }
  exists e. unfold outcome.
  change (disallow_in_graph E (PyList (map Ref (l1 ++ f :: l2 ++ f :: l3))) g)
    with ((let* result :=
             comprehension (disallow_in_graph E) (map Ref (l1 ++ f :: l2 ++ f :: l3)) in
           ret (PyList result)) g).
  unfold bind. rewrite Hrun. reflexivity.
Qed.

Lemma disallow_repeated_raises_witness :
  callable Examples.env_A 3 = true
  /\ is_dispatch_wrapper Examples.env_A 3 = false
  /\ exists e,
      outcome (disallow_in_graph Examples.env_A
                 (PyList (map Ref ([5] ++ 3 :: [] ++ 3 :: [])))) initial
      = Raise e.
Proof.
  split; [reflexivity|]. split; [reflexivity|].
  exact (disallow_repeated_raises Examples.env_A 3 [5] [] [] initial eq_refl eq_refl).
Defined.

(** ** Forbidden tags *)


(** On the examples: the built-in function 80 raises [AttributeError],
    the built-in class 81 raises [TypeError]; neither is tagged. *)
Example forbid_in_graph_on_builtins :
  forbid_in_graph Examples.env_A (Ref 80) initial = (Raise AttributeError, initial)
  /\ forbid_in_graph Examples.env_A (Ref 81) initial = (Raise TypeError, initial).
Proof. split; reflexivity. Qed.

(** ** Materialization *)

Lemma run_queries (E : Env) ops : forall g,
  forallb is_query ops = true ->
  allowed_ids E (run E ops g) = allowed_ids E g
  /\ disallowed_ids E (run E ops g) = disallowed_ids E g
  /\ _dynamo_forbidden (run E ops g) = _dynamo_forbidden g.
Proof.
  induction ops as [|op ops IH]; intros g Hq; [auto|].
  cbn in Hq. apply andb_true_iff in Hq as [Hop Hq].
  assert (perform E op g = force_allowed E g) as Hop'.
  { destruct op; try discriminate; cbn [perform]; unfold exec.
    - rewrite call_allowed. reflexivity.
    - rewrite is_allowed_eq. reflexivity.
    - rewrite torch_get_name_eq. reflexivity. }
  change (run E (op :: ops) g) with (run E ops (perform E op g)).
  destruct (IH (perform E op g) Hq) as (-> & -> & ->). rewrite Hop'.
  rewrite allowed_ids_force, disallowed_ids_force, forbidden_force. auto.
Qed.

(** X13. Laziness cannot be observed through the queries: after any
    sequence of discoveries, [is_allowed] and [torch_get_name] calls,
    every [is_allowed] query and every membership test answers as it
    would have, and no forbidden tag has changed. *)
Theorem queries_change_no_answer (E : Env) ops g :
  forallb is_query ops = true ->
  (forall obj, outcome (is_allowed E obj) (run E ops g) = outcome (is_allowed E obj) g)
  /\ (forall idx, outcome (membership E idx) (run E ops g)
                  = outcome (membership E idx) g)
  /\ _dynamo_forbidden (run E ops g) = _dynamo_forbidden g.
Proof.
  intros Hq. destruct (run_queries E ops g Hq) as (Ha & Hd & Hf).
  repeat split.
  - intros obj. rewrite !outcome_is_allowed, Ha. reflexivity.
  - intros idx. rewrite !membership_eq, Ha, Hd. reflexivity.
  - exact Hf.
Qed.

Lemma queries_change_no_answer_witness :
  forallb is_query [Discover; IsAllowed 3; TorchGetName 5 "none"] = true
  /\ _dynamo_forbidden
       (run Examples.env_A [Discover; IsAllowed 3; TorchGetName 5 "none"] initial)
     = _dynamo_forbidden initial.
Proof.
  split; [reflexivity|].
  exact (proj2 (proj2 (queries_change_no_answer Examples.env_A
                         [Discover; IsAllowed 3; TorchGetName 5 "none"] initial eq_refl))).
Defined.

(** X14. The subtraction of the disallowed set happens once, when the
    allowed set is materialized. An identity added to the disallowed
    set through [add] before that is left out of the allowed set,
    unless it is one of the two extras; added after that, it stays in
    the allowed set if it was there, and is then in both sets. *)
Theorem subtraction_happens_at_materialization (E : Env) idx g :
  (function_ids (_allowed_function_ids g) = None ->
   idx ≠ is_fx_tracing E -> idx ≠ is_compiling E ->
   outcome (membership E idx) (exec (add (disallowed E) idx) g) = Return (false, true))
  /\ (materialized g ->
      outcome (membership E idx) (exec (add (disallowed E) idx) g)
      = Return (bool_decide (idx ∈ allowed_ids E g), true)).
Proof.
  assert (exec (add (disallowed E) idx) g
          = {| _allowed_function_ids := _allowed_function_ids g;
               _disallowed_function_ids :=
                 {| function_ids := Some ({[idx]} ∪ disallowed_ids E g);
                    function_names := function_names (_disallowed_function_ids g) |};
               _dynamo_forbidden := _dynamo_forbidden g |}) as ->.
  { unfold exec, add, bind. rewrite call_disallowed.
    destruct g as [a [[dis|] dnames] fb]; reflexivity. }
  split.
  - intros Hnone Hfx Hcomp. rewrite membership_eq.
    unfold allowed_ids. cbn [_allowed_function_ids]. rewrite Hnone, dom_discovered.
    cbn -[union difference]. f_equal. f_equal.
    + apply bool_decide_eq_false_2. set_solver.
    + apply bool_decide_eq_true_2. set_solver.
  - intros [ids Hids]. rewrite membership_eq.
    unfold allowed_ids. cbn [_allowed_function_ids]. rewrite Hids.
    cbn -[union]. f_equal. f_equal. apply bool_decide_eq_true_2. set_solver.
Qed.

(** X15. [is_fx_tracing] and [is_compiling] are put in after the
    subtraction, so a fresh materialization always allows them, under
    their qualified names, whatever the disallowed set holds; listed in
    the disallowed set, they are in both sets. *)
Theorem extras_always_allowed (E : Env) g :
  function_ids (_allowed_function_ids g) = None ->
  (outcome (membership E (is_compiling E)) g
   = Return (true, bool_decide (is_compiling E ∈ disallowed_ids E g))
   /\ outcome (is_allowed E (is_compiling E)) g = Return true
   /\ outcome (torch_get_name E (is_compiling E) "") g
      = Return "torch._dynamo.external_utils.is_compiling")
  /\ (outcome (membership E (is_fx_tracing E)) g
      = Return (true, bool_decide (is_fx_tracing E ∈ disallowed_ids E g))
      /\ outcome (is_allowed E (is_fx_tracing E)) g = Return true
      /\ (is_fx_tracing E ≠ is_compiling E ->
          outcome (torch_get_name E (is_fx_tracing E) "") g
          = Return "torch.fx._symbolic_trace.is_fx_tracing")).
Proof.
  intros Hnone.
  assert (forall extra, extra = is_compiling E \/ extra = is_fx_tracing E ->
                        extra ∈ allowed_ids E g) as Hin.
  { intros extra Hextra. unfold allowed_ids. rewrite Hnone, dom_discovered.
    set_solver. }
  assert (forall extra, outcome (torch_get_name E extra "") g
                        = Return (match discovered E g !! extra with
                                  | Some name => name
                                  | None => ""
                                  end)) as Hname.
  { intros extra. unfold outcome. rewrite torch_get_name_eq.
    unfold allowed_names, force_allowed. rewrite Hnone. reflexivity. }
  repeat split.
  - rewrite membership_eq, bool_decide_eq_true_2 by auto. reflexivity.
  - rewrite outcome_is_allowed, bool_decide_eq_true_2 by auto. reflexivity.
  - rewrite Hname, lookup_discovered, decide_True by reflexivity. reflexivity.
  - rewrite membership_eq, bool_decide_eq_true_2 by auto. reflexivity.
  - rewrite outcome_is_allowed, bool_decide_eq_true_2 by auto. reflexivity.
  - intros Hne. rewrite Hname, lookup_discovered, decide_False by congruence.
    rewrite decide_True by reflexivity. reflexivity.
Qed.

Lemma extras_always_allowed_witness :
  function_ids (_allowed_function_ids initial) = None
  /\ outcome (is_allowed Examples.env_A (is_compiling Examples.env_A)) initial
     = Return true.
Proof.
  split; [reflexivity|].
  exact (proj1 (proj2 (proj1 (extras_always_allowed Examples.env_A initial eq_refl)))).
Defined.

End OverrideFacts.

Module ImportFacts.
Import Registry RegistryFacts Notions ModuleImport OverrideFacts.

Lemma allow_if_present_ok (E : Env) f g :
  Forall (fun f => callable E f = true) (option_list f) ->
  allow_if_present E f g = (Return tt, allow_all E (option_list f) g).
Proof.
  destruct f as [f|]; intros Hall; [|reflexivity].
  inversion Hall as [|? ? Hf _]; subst.
  unfold allow_if_present, bind. rewrite allow_in_graph_ref by exact Hf. reflexivity.
Qed.

Lemma allow_all_app (E : Env) fs1 fs2 g :
  allow_all E (fs1 ++ fs2) g = allow_all E fs2 (allow_all E fs1 g).
Proof. unfold allow_all. apply foldl_app. Qed.

(** X16. Importing the module runs the discovery: the decorator line of
    [graph_break] calls the lenient disallow on the function, which
    materializes the allowed set, and leaves the function in the
    disallowed set only. A later [disallow_in_graph(graph_break)]
    raises [IncorrectUsage]. *)
Theorem import_disallows_graph_break (E : Env) (I : Imports) :
  callable E (graph_break I) = true ->
  outcome (decorate_graph_break E I) initial = Return (Ref (graph_break I))
  /\ materialized (exec (decorate_graph_break E I) initial)
  /\ outcome (membership E (graph_break I)) (exec (decorate_graph_break E I) initial)
     = Return (false, true)
  /\ (is_dispatch_wrapper E (graph_break I) = false ->
      outcome (disallow_in_graph E (Ref (graph_break I)))
        (exec (decorate_graph_break E I) initial)
      = Raise IncorrectUsage).
Proof.
  intros Hf. unfold decorate_graph_break, outcome, exec.
  rewrite disallow_ref_lenient by exact Hf. cbn [fst snd].
  split; [reflexivity|]. split; [eexists; reflexivity|]. split.
  - fold (outcome (membership E (graph_break I))
            (disallow_state E (graph_break I) initial)).
    rewrite membership_eq. cbn -[union difference elem_of].
    repeat case_bool_decide; first [reflexivity | exfalso; set_solver].
  - intros Hd. unfold disallow_in_graph. rewrite disallow_ref_strict by exact Hf.
    rewrite Hd, orb_false_r, bool_decide_eq_false_2; [reflexivity|].
    cbn -[difference]. set_solver.
Qed.

Lemma import_disallows_graph_break_witness :
  callable Examples.env_A (graph_break MoreExamples.imports_A) = true
  /\ materialized (exec (decorate_graph_break Examples.env_A MoreExamples.imports_A) initial).
Proof.
  split; [reflexivity|].
  exact (proj1 (proj2 (import_disallows_graph_break Examples.env_A
                         MoreExamples.imports_A eq_refl))).
Defined.

(** X17. [_allow_in_graph_einops] without [einops] installed changes
    nothing. With a release that has no [einops._torch_specific] it
    allows [rearrange], [reduce] and each of [repeat], [einsum], [pack],
    [unpack] that the package has, as [allow_in_graph] of these
    functions in turn; an [AssertionError] from a function that is not
    callable is not caught. *)
Theorem allow_in_graph_einops_legacy (E : Env) (I : Imports) g :
  (einops I = None -> _allow_in_graph_einops E I g = (Return tt, g))
  /\ (forall e,
         einops I = Some e -> allow_ops_in_compiled_graph e = None ->
         Forall (fun f => callable E f = true) (legacy_functions e) ->
         _allow_in_graph_einops E I g = (Return tt, allow_all E (legacy_functions e) g)
         /\ forall f, f ∈ legacy_functions e ->
              outcome (membership E f) (exec (_allow_in_graph_einops E I) g)
              = Return (true, false))
  /\ (forall e,
         einops I = Some e -> allow_ops_in_compiled_graph e = None ->
         callable E (rearrange e) = false ->
         _allow_in_graph_einops E I g = (Raise AssertionError, g)).
Proof.
  split; [|split].
  - intros Hnone. unfold _allow_in_graph_einops. rewrite Hnone. reflexivity.
  - intros e He Hlegacy Hall.
    assert (_allow_in_graph_einops E I g
            = (Return tt, allow_all E (legacy_functions e) g)) as Hrun.
    { unfold _allow_in_graph_einops. rewrite He, Hlegacy.
      unfold legacy_functions in *.
      inversion Hall as [|? ? Hrearrange Hall1]; subst.
      inversion Hall1 as [|? ? Hreduce Hall2]; subst.
      apply Forall_app in Hall2 as [Hrepeat Hall3].
      apply Forall_app in Hall3 as [Heinsum Hall4].
      apply Forall_app in Hall4 as [Hpack Hunpack].
      unfold bind.
      rewrite allow_in_graph_ref by exact Hrearrange.
      rewrite allow_in_graph_ref by exact Hreduce.
      rewrite allow_if_present_ok by exact Hrepeat.
      rewrite allow_if_present_ok by exact Heinsum.
      rewrite allow_if_present_ok by exact Hpack.
      rewrite allow_if_present_ok by exact Hunpack.
      change (allow_all E (rearrange e :: reduce e :: ?l) g)
        with (allow_all E l (allow_state E (reduce e) (allow_state E (rearrange e) g))).
      rewrite !allow_all_app. reflexivity. }
    split; [exact Hrun|].
    intros f Hin. unfold exec. rewrite Hrun. cbn [snd]. rewrite membership_eq.
    destruct (allow_all_sets E (legacy_functions e) g) as [-> ->]; [discriminate|].
    apply (elem_of_list_to_set (C := gset Z)) in Hin.
    repeat case_bool_decide; first [reflexivity | exfalso; set_solver].
  - intros e He Hlegacy Hx. unfold _allow_in_graph_einops. rewrite He, Hlegacy.
    unfold bind. rewrite allow_in_graph_not_callable by exact Hx. reflexivity.
Qed.

(** X26. With an old [einops] whose functions are callable the import
    of the module ends without raising, with [graph_break] in the
    disallowed set only, provided it is none of these functions, and
    each of these functions in the allowed set only. *)
Theorem module_import_legacy (E : Env) (I : Imports) e :
  einops I = Some e ->
  allow_ops_in_compiled_graph e = None ->
  callable E (graph_break I) = true ->
  Forall (fun f => callable E f = true) (legacy_functions e) ->
  graph_break I ∉ legacy_functions e ->
  outcome (module_import E I) initial = Return tt
  /\ outcome (membership E (graph_break I)) (exec (module_import E I) initial)
     = Return (false, true)
  /\ forall f, f ∈ legacy_functions e ->
       outcome (membership E f) (exec (module_import E I) initial) = Return (true, false).
Proof.
  intros He Hlegacy Hgb Hall Hnot.
  assert (module_import E I initial
          = (Return tt,
             allow_all E (legacy_functions e) (disallow_state E (graph_break I) initial)))
    as Hrun.
  { unfold module_import, decorate_graph_break, bind.
    rewrite disallow_ref_lenient by exact Hgb.
    destruct (allow_in_graph_einops_legacy E I
                (disallow_state E (graph_break I) initial)) as (_ & Hok & _).
    destruct (Hok e He Hlegacy Hall) as [-> _]. reflexivity. }
  assert (exec (module_import E I) initial
          = allow_all E (legacy_functions e) (disallow_state E (graph_break I) initial))
    as Hexec by (unfold exec; rewrite Hrun; reflexivity).
  split; [unfold outcome; rewrite Hrun; reflexivity|].
  rewrite Hexec.
  split; [|intros f Hin]; rewrite membership_eq;
    destruct (allow_all_sets E (legacy_functions e)
                (disallow_state E (graph_break I) initial)) as [-> ->];
    try discriminate.
  - apply (not_elem_of_list_to_set (C := gset Z)) in Hnot.
    cbn -[union difference elem_of list_to_set].
    repeat case_bool_decide; first [reflexivity | exfalso; set_solver].
  - apply (elem_of_list_to_set (C := gset Z)) in Hin.
    repeat case_bool_decide; first [reflexivity | exfalso; set_solver].
Qed.

Lemma module_import_legacy_witness :
  outcome (module_import Examples.env_A MoreExamples.imports_A) initial = Return tt
  /\ outcome (membership Examples.env_A 90)
       (exec (module_import Examples.env_A MoreExamples.imports_A) initial)
     = Return (false, true).
Proof.
  assert (Forall (fun f => callable Examples.env_A f = true) [91; 92; 93]) as Hall
    by (repeat constructor).
  assert (90 ∉ [91; 92; 93]) as Hnot.
  { intros Hin. apply list_elem_of_In in Hin. cbn in Hin. intuition discriminate. }
  pose proof (module_import_legacy Examples.env_A MoreExamples.imports_A _
                eq_refl eq_refl eq_refl Hall Hnot) as (Hout & Hgb & _).
  split; [exact Hout | exact Hgb].
Defined.

End ImportFacts.

Module RecordingFacts.
Import Discovery DiscoveryFacts Notions.

Section Traversal.

Variable ignorelist : list string.
Variable h : Heap.

(** ** What is never recorded *)

Lemma visit_binding_skips (recurse : Z -> Names -> option Names) module_name
    j obj name k (ids ids1 : Names) :
  h !! j = Some obj -> recordable obj = false ->
  (forall (ids r : Names), recurse k ids = Some r ->
     j ≠ k -> ids !! j = None -> r !! j = None) ->
  visit_binding h recurse module_name (name, k) ids = Some ids1 ->
  ids !! j = None -> ids1 !! j = None.
Proof.
  intros Hj Hrec Hrecurse. unfold visit_binding.
  destruct (ids !! k) eqn:Hk; [intros [= <-]; auto|].
  destruct (decide (j = k)) as [<-|Hne].
  - rewrite Hj. unfold recordable in Hrec. destruct obj as [obj_name items|gm sc].
    + rewrite Hrec. intros [= <-]. auto.
    + apply orb_false_iff in Hrec as [-> ->]. intros [= <-]. auto.
  - destruct (h !! k) as [[obj_name items|gm sc]|]; try discriminate.
    + destruct (_ && _); [|intros [= <-]; auto].
      intros Hcall Hnone. eapply Hrecurse; [exact Hcall | exact Hne |].
      rewrite lookup_insert_ne by congruence. exact Hnone.
    + repeat match goal with |- context [if ?b then _ else _] => destruct b end;
        intros [= <-] Hnone; rewrite ?lookup_insert_ne by congruence; exact Hnone.
Qed.

Lemma visit_bindings_skips (recurse : Z -> Names -> option Names) module_name j obj :
  h !! j = Some obj -> recordable obj = false ->
  (forall k (ids r : Names), recurse k ids = Some r ->
     j ≠ k -> ids !! j = None -> r !! j = None) ->
  forall items (ids r : Names),
    visit_bindings h recurse module_name items ids = Some r ->
    ids !! j = None -> r !! j = None.
Proof.
  intros Hj Hrec Hrecurse. induction items as [|[name k] rest IH]; intros ids r.
  - cbn. intros [= <-]. auto.
  - cbn [visit_bindings].
    destruct (visit_binding h recurse module_name (name, k) ids) as [ids1|] eqn:Hstep;
      [|discriminate].
    intros Hrest Hnone. eapply IH; [exact Hrest|].
    eapply visit_binding_skips; eauto.
Qed.

Lemma find_torch_objects_skips fuel j obj :
  h !! j = Some obj -> recordable obj = false ->
  forall module (ids r : Names),
    _find_torch_objects ignorelist h fuel module ids = Some r ->
    j ≠ module -> ids !! j = None -> r !! j = None.
Proof.
  intros Hj Hrec. induction fuel as [|fuel IH]; intros module ids r; [discriminate|].
  cbn [_find_torch_objects].
  destruct (h !! module) as [[module_name items|]|]; try discriminate.
  destruct (ignored ignorelist module_name); [intros [= <-]; auto|].
  intros Hloop Hne Hnone.
  eapply (visit_bindings_skips _ module_name j obj Hj Hrec); [|exact Hloop|].
  - intros k ids1 r1. apply IH.
  - rewrite lookup_insert_ne by congruence. exact Hnone.
Qed.

(** ** What is recorded for the modules entered *)

Lemma visited_in_full_kept (r r' : Names) c :
  kept r r' -> visited_in_full ignorelist h r c -> visited_in_full ignorelist h r' c.
Proof.
  intros Hkept Hfull name items Hc Hign.
  destruct (Hfull name items Hc Hign) as [Hown Hbindings]. split; [auto|].
  intros binding j obj Hin Hj Hrec.
  destruct (Hbindings binding j obj Hin Hj Hrec) as [n Hn]. exists n. auto.
Qed.

Lemma visit_bindings_traced_full rect module_name :
  (forall c ids r calls, rect c ids = Some (r, calls) -> call_spec ignorelist h c ids r calls) ->
  forall items (ids r : Names) calls,
    visit_bindings_traced h rect module_name items ids = Some (r, calls) ->
    kept ids r
    /\ (forall binding j obj,
           (binding, j) ∈ items -> h !! j = Some obj -> recordable obj = true ->
           is_Some (r !! j))
    /\ Forall (visited_in_full ignorelist h r) calls.
Proof.
  intros Hrect. induction items as [|[name k] rest IH]; intros ids r calls.
  - cbn. intros [= <- <-]. split; [intros j n; auto|]. split; [|constructor].
    intros binding j obj Hin. inversion Hin.
  - cbn [visit_bindings_traced].
    destruct (visit_binding_traced h rect module_name (name, k) ids)
      as [[ids1 c1]|] eqn:Hstep; [|discriminate].
    destruct (visit_bindings_traced h rect module_name rest ids1)
      as [[ids2 c2]|] eqn:Hrest; [|discriminate].
    intros [= <- <-].
    destruct (IH ids1 ids2 c2 Hrest) as (Hkept2 & Hbind2 & Hcalls2).
    assert (kept ids ids1
            /\ (forall obj, h !! k = Some obj -> recordable obj = true ->
                            is_Some (ids1 !! k))
            /\ Forall (visited_in_full ignorelist h ids1) c1) as (Hkept1 & Hhead & Hcalls1).
    { revert Hstep. unfold visit_binding_traced.
      destruct (ids !! k) eqn:Hk.
      { intros [= <- <-]. split; [intros j n; auto|]. split; [eauto|constructor]. }
      assert (forall n, kept ids (<[k := n]> ids)) as Hins.
      { intros n j n' Hj. rewrite lookup_insert_ne by congruence. exact Hj. }
      destruct (h !! k) as [[obj_name obj_items|gm sc]|] eqn:Hobj; try discriminate.
      - destruct (_ && _) eqn:Hcond.
        + intros Hcall. apply Hrect in Hcall as (Hkeep & Hown & Hfull).
          split; [|split; [|exact Hfull]].
          * intros j n Hj. apply Hkeep; [congruence|]. apply Hins. exact Hj.
          * intros obj _ _. apply Hown. rewrite lookup_insert_eq. eauto.
        + intros [= <- <-]. split; [intros j n; auto|]. split; [|constructor].
          intros obj [= <-]. unfold recordable. rewrite Hcond. discriminate.
      - destruct (_is_allowed_module_prefix (Object gm sc)) eqn:Hallowed.
        + intros [= <- <-]. split; [apply Hins|]. split; [|constructor].
          intros obj _ _. rewrite lookup_insert_eq. eauto.
        + destruct (_ && _) eqn:Hcond; intros [= <- <-].
          * split; [apply Hins|]. split; [|constructor].
            intros obj _ _. rewrite lookup_insert_eq. eauto.
          * split; [intros j n; auto|]. split; [|constructor].
            intros obj [= <-]. unfold recordable. rewrite Hallowed, Hcond. discriminate. }
    split; [intros j n Hj; auto|]. split.
    + intros binding j obj Hin Hj Hrec. apply elem_of_cons in Hin as [[= -> ->]|Hin].
      * destruct (Hhead obj Hj Hrec) as [n Hn]. exists n. auto.
      * eapply Hbind2; eauto.
    + apply Forall_app. split; [|exact Hcalls2].
      eapply Forall_impl; [exact Hcalls1|]. intros c. apply visited_in_full_kept.
      exact Hkept2.
Qed.

Lemma find_torch_objects_traced_full fuel :
  forall module (ids r : Names) calls,
    _find_torch_objects_traced ignorelist h fuel module ids = Some (r, calls) ->
    call_spec ignorelist h module ids r calls.
Proof.
  induction fuel as [|fuel IH]; intros module ids r calls; [discriminate|].
  cbn [_find_torch_objects_traced].
  destruct (h !! module) as [[module_name items|]|] eqn:Hm; try discriminate.
  destruct (ignored ignorelist module_name) eqn:Hign.
  - intros [= <- <-]. split; [auto|]. split; [auto|].
    constructor; [|constructor]. intros name items' Hm'. congruence.
  - destruct (visit_bindings_traced _ _ _ _ _) as [[ids1 c1]|] eqn:Hloop; [|discriminate].
    intros [= <- <-].
    apply (visit_bindings_traced_full _ module_name IH) in Hloop
      as (Hkept & Hbind & Hcalls).
    assert (ids1 !! module = Some module_name) as Hown
      by (apply Hkept; apply lookup_insert_eq).
    split; [|split].
    + intros j n Hne Hj. apply Hkept. rewrite lookup_insert_ne by congruence. exact Hj.
    + eauto.
    + constructor; [|exact Hcalls].
      intros name items' Hm' _. rewrite Hm in Hm'. injection Hm' as <- <-.
      split; [exact Hown | exact Hbind].
Qed.

End Traversal.

(** ** The method loop *)

Lemma record_tensor_methods_snoc methods name method flag (ids : Names) :
  record_tensor_methods (methods ++ [(name, method, flag)]) ids
  = if flag then <[method := "torch.Tensor." ++ name]> (record_tensor_methods methods ids)
    else record_tensor_methods methods ids.
Proof. unfold record_tensor_methods. rewrite foldl_snoc. reflexivity. Qed.

Lemma record_tensor_methods_lookup methods (ids : Names) j :
  (exists name, (name, j, true) ∈ methods
                /\ record_tensor_methods methods ids !! j
                   = Some ("torch.Tensor." ++ name))
  \/ ((forall name, (name, j, true) ∉ methods)
      /\ record_tensor_methods methods ids !! j = ids !! j).
Proof.
  induction methods as [|[[name method] flag] methods IH] using rev_ind.
  - right. split; [intros name Hin; inversion Hin | reflexivity].
  - rewrite record_tensor_methods_snoc.
    destruct flag; [destruct (decide (method = j)) as [->|Hne]|].
    + left. exists name. rewrite lookup_insert_eq. split; [|reflexivity].
      apply elem_of_app. right. left.
    + rewrite lookup_insert_ne by exact Hne.
      destruct IH as [(name' & Hin & Hlook)|[Hnot Hlook]].
      * left. exists name'. split; [apply elem_of_app; auto | exact Hlook].
      * right. split; [|exact Hlook]. intros name' Hin.
        apply elem_of_app in Hin as [Hin|Hin]; [eapply Hnot; eauto|].
        apply list_elem_of_singleton in Hin. congruence.
    + destruct IH as [(name' & Hin & Hlook)|[Hnot Hlook]].
      * left. exists name'. split; [apply elem_of_app; auto | exact Hlook].
      * right. split; [|exact Hlook]. intros name' Hin.
        apply elem_of_app in Hin as [Hin|Hin]; [eapply Hnot; eauto|].
        apply list_elem_of_singleton in Hin. congruence.
Qed.

(** X18. The discovery never records an object that fails the test of
    the loop, unless it is one of the two roots or a method descriptor
    of [torch.Tensor]: so no module outside [torch.*], no object whose
    module lies under one of the denied prefixes or outside [torch] and
    [math], and no safe constant without a module is in the dictionary. *)
Theorem never_recorded (w : World) fuel (names : Names) j obj :
  walk_torch fuel w = Some names ->
  heap w !! j = Some obj ->
  recordable obj = false ->
  j ≠ torch w -> j ≠ math w ->
  (forall name, (name, j, true) ∉ tensor_dir w) ->
  names !! j = None.
Proof.
  unfold walk_torch. intros Hwalk Hj Hrec Htorch Hmath Hdir.
  destruct (_find_torch_objects _ (heap w) fuel (torch w) ∅) as [ids1|] eqn:H1;
    [|discriminate].
  destruct (_find_torch_objects _ (heap w) fuel (math w) ids1) as [ids2|] eqn:H2;
    [|discriminate].
  injection Hwalk as <-.
  destruct (record_tensor_methods_lookup (tensor_dir w) ids2 j)
    as [(name & Hin & _)|[_ ->]]; [destruct (Hdir name Hin)|].
  eapply find_torch_objects_skips; [exact Hj | exact Hrec | exact H2 | exact Hmath |].
  eapply find_torch_objects_skips; [exact Hj | exact Hrec | exact H1 | exact Htorch |].
  apply lookup_empty.
Qed.

Lemma never_recorded_witness :
  walk_torch (enough_fuel MoreExamples.heap_C) MoreExamples.world_C
  = Some MoreExamples.names_C
  /\ recordable (Object (Some "torch.optim.sgd") false) = false
  /\ MoreExamples.names_C !! 21 = None.
Proof.
  assert (walk_torch (enough_fuel MoreExamples.heap_C) MoreExamples.world_C
          = Some MoreExamples.names_C) as Hwalk by (vm_compute; reflexivity).
  split; [exact Hwalk|]. split; [vm_compute; reflexivity|].
  apply (never_recorded MoreExamples.world_C _ _ 21
           (Object (Some "torch.optim.sgd") false) Hwalk).
  - vm_compute. reflexivity.
  - vm_compute. reflexivity.
  - discriminate.
  - discriminate.
  - intros name Hin. apply list_elem_of_singleton in Hin. discriminate Hin.
Defined.

(** X19. Every module the traversal enters and that matches no
    ignore-list prefix ends in the dictionary under its own [__name__],
    whatever the name of the binding that led to it, and every object
    it binds that passes the test of the loop is in the dictionary. *)
Theorem entered_modules_recorded ignorelist (h : Heap) fuel module (ids r : Names) calls :
  _find_torch_objects_traced ignorelist h fuel module ids = Some (r, calls) ->
  _find_torch_objects ignorelist h fuel module ids = Some r
  /\ forall c name items,
      c ∈ calls -> h !! c = Some (Module name items) ->
      ignored ignorelist name = false ->
      r !! c = Some name
      /\ forall binding j obj,
           (binding, j) ∈ items -> h !! j = Some obj -> recordable obj = true ->
           is_Some (r !! j).
Proof.
  intros Htraced. split.
  - rewrite <- find_torch_objects_traced_fst, Htraced. reflexivity.
  - intros c name items Hc Hm Hign.
    apply find_torch_objects_traced_full in Htraced as (_ & _ & Hfull).
    rewrite Forall_forall in Hfull. exact (Hfull c Hc name items Hm Hign).
Qed.

Lemma entered_modules_recorded_witness :
  _find_torch_objects_traced ["torch.A.sub."] Examples.heap_A
    (enough_fuel Examples.heap_A) 1 ∅
  = Some (MoreExamples.names_A_torch, MoreExamples.calls_A)
  /\ _find_torch_objects ["torch.A.sub."] Examples.heap_A
       (enough_fuel Examples.heap_A) 1 ∅
     = Some MoreExamples.names_A_torch.
Proof.
  assert (_find_torch_objects_traced ["torch.A.sub."] Examples.heap_A
            (enough_fuel Examples.heap_A) 1 ∅
          = Some (MoreExamples.names_A_torch, MoreExamples.calls_A)) as Htraced
    by (vm_compute; reflexivity).
  split; [exact Htraced|].
  exact (proj1 (entered_modules_recorded _ _ _ _ _ _ _ Htraced)).
Defined.

(** X20. Every attribute of [torch.Tensor] that is a method descriptor
    is in the dictionary under ["torch.Tensor."] followed by one of its
    attribute names, whatever the ignore list says and whatever name
    the traversal had recorded for it. *)
Theorem tensor_methods_recorded (w : World) fuel (names : Names) name method :
  walk_torch fuel w = Some names ->
  (name, method, true) ∈ tensor_dir w ->
  exists name', (name', method, true) ∈ tensor_dir w
                /\ names !! method = Some ("torch.Tensor." ++ name').
Proof.
  unfold walk_torch. intros Hwalk Hin.
  destruct (_find_torch_objects _ (heap w) fuel (torch w) ∅) as [ids1|]; [|discriminate].
  destruct (_find_torch_objects _ (heap w) fuel (math w) ids1) as [ids2|];
    [|discriminate].
  injection Hwalk as <-.
  destruct (record_tensor_methods_lookup (tensor_dir w) ids2 method)
    as [(name' & Hin' & Hlook)|[Hnot _]]; [eauto|].
  destruct (Hnot name Hin).
Qed.

Lemma tensor_methods_recorded_witness :
  walk_torch (enough_fuel Examples.heap_A) Examples.world_A = Some Examples.names_A
  /\ ("abs", 7, true) ∈ tensor_dir Examples.world_A
  /\ exists name', (name', 7, true) ∈ tensor_dir Examples.world_A
                   /\ Examples.names_A !! 7 = Some ("torch.Tensor." ++ name').
Proof.
  assert (walk_torch (enough_fuel Examples.heap_A) Examples.world_A
          = Some Examples.names_A) as Hwalk by (vm_compute; reflexivity).
  assert (("abs", 7, true) ∈ tensor_dir Examples.world_A) as Hin by left.
  split; [exact Hwalk|]. split; [exact Hin|].
  exact (tensor_methods_recorded Examples.world_A _ _ "abs" 7 Hwalk Hin).
Defined.

End RecordingFacts.

Module CollectorFacts.
Import Registry Collectors Notions ClassFacts.

(** ** Dictionary comprehensions *)

Lemma dict_comprehension_snoc prefix keep items k v :
  dict_comprehension prefix keep (items ++ [(k, v)])
  = if keep k v : bool
    then <[v := prefix ++ "." ++ k]> (dict_comprehension prefix keep items)
    else dict_comprehension prefix keep items.
Proof. unfold dict_comprehension. rewrite foldl_snoc. reflexivity. Qed.

Lemma dict_comprehension_lookup prefix keep items j :
  (exists k, (k, j) ∈ items /\ keep k j = true
             /\ dict_comprehension prefix keep items !! j = Some (prefix ++ "." ++ k))
  \/ ((forall k, (k, j) ∈ items -> keep k j = false)
      /\ dict_comprehension prefix keep items !! j = None).
Proof.
  induction items as [|[k v] items IH] using rev_ind.
  - right. split; [intros k Hin; inversion Hin | reflexivity].
  - rewrite dict_comprehension_snoc.
    destruct (keep k v) eqn:Hkeep; [destruct (decide (v = j)) as [->|Hne]|].
    + left. exists k. rewrite lookup_insert_eq. repeat split; [|exact Hkeep].
      apply elem_of_app. right. left.
    + rewrite lookup_insert_ne by exact Hne.
      destruct IH as [(k' & Hin & Hk' & Hlook)|[Hnot Hlook]].
      * left. exists k'. repeat split; [apply elem_of_app; auto | exact Hk' | exact Hlook].
      * right. split; [|exact Hlook]. intros k' Hin.
        apply elem_of_app in Hin as [Hin|Hin]; [auto|].
        apply list_elem_of_singleton in Hin. congruence.
    + destruct IH as [(k' & Hin & Hk' & Hlook)|[Hnot Hlook]].
      * left. exists k'. repeat split; [apply elem_of_app; auto | exact Hk' | exact Hlook].
      * right. split; [|exact Hlook]. intros k' Hin.
        apply elem_of_app in Hin as [Hin|Hin]; [auto|].
        apply list_elem_of_singleton in Hin. injection Hin as -> ->. exact Hkeep.
Qed.

Lemma elem_of_dom_dict_comprehension prefix keep items j :
  j ∈ dom (dict_comprehension prefix keep items)
  <-> exists k, (k, j) ∈ items /\ keep k j = true.
Proof.
  rewrite elem_of_dom.
  destruct (dict_comprehension_lookup prefix keep items j)
    as [(k & Hin & Hk & Hlook)|[Hnot Hlook]]; rewrite Hlook.
  - split; [eauto | eauto].
  - split; [intros [? [=]]|]. intros (k & Hin & Hk). rewrite (Hnot k Hin) in Hk.
    discriminate.
Qed.

Lemma dom_update (rv other : gmap Z string) :
  dom (update rv other) = dom other ∪ dom rv.
Proof. unfold update. apply dom_union_L. Qed.

Section WithNamespaces.

Variable N : Namespaces.

Lemma lawful_builtin_functions : Class.lawful (builtin_functions N).
Proof. split; [reflexivity | reflexivity | intros g; do 2 eexists; split; reflexivity]. Qed.

Lemma lawful_numpy_functions : Class.lawful (numpy_functions N).
Proof. split; [reflexivity | reflexivity | intros g; do 2 eexists; split; reflexivity]. Qed.

Lemma lawful_builtin_constants : Class.lawful (builtin_constants N).
Proof. split; [reflexivity | reflexivity | intros g; do 2 eexists; split; reflexivity]. Qed.

Lemma contains_builtin_functions g obj :
  function_ids (_builtin_function_ids g) = None
  \/ function_ids (_builtin_function_ids g) = Some (dom (builtin_function_ids_init N)) ->
  Class.outcome (Class.__contains__ (builtin_functions N) obj) g
  = Return (bool_decide (obj ∈ dom (builtin_function_ids_init N)))
  /\ function_ids (_builtin_function_ids
                     (Class.exec (Class.__contains__ (builtin_functions N) obj) g))
     = Some (dom (builtin_function_ids_init N))
  /\ _numpy_function_ids (Class.exec (Class.__contains__ (builtin_functions N) obj) g)
     = _numpy_function_ids g
  /\ _builtin_constant_ids (Class.exec (Class.__contains__ (builtin_functions N) obj) g)
     = _builtin_constant_ids g.
Proof.
  unfold Class.outcome, Class.exec, Class.__contains__, Class.__call__, Class.bind.
  destruct g as [[ids names] n c]. cbn. intros [->| ->]; cbn; auto.
Qed.

Lemma contains_numpy_functions g obj :
  function_ids (_numpy_function_ids g) = None
  \/ function_ids (_numpy_function_ids g) = Some (dom (numpy_function_ids_init N)) ->
  Class.outcome (Class.__contains__ (numpy_functions N) obj) g
  = Return (bool_decide (obj ∈ dom (numpy_function_ids_init N)))
  /\ function_ids (_numpy_function_ids
                     (Class.exec (Class.__contains__ (numpy_functions N) obj) g))
     = Some (dom (numpy_function_ids_init N))
  /\ _builtin_function_ids (Class.exec (Class.__contains__ (numpy_functions N) obj) g)
     = _builtin_function_ids g
  /\ _builtin_constant_ids (Class.exec (Class.__contains__ (numpy_functions N) obj) g)
     = _builtin_constant_ids g.
Proof.
  unfold Class.outcome, Class.exec, Class.__contains__, Class.__call__, Class.bind.
  destruct g as [b [ids names] c]. cbn. intros [->| ->]; cbn; auto.
Qed.

Lemma contains_builtin_constants g obj :
  function_ids (_builtin_constant_ids g) = None
  \/ function_ids (_builtin_constant_ids g) = Some (dom (builtin_constant_ids_init N)) ->
  Class.outcome (Class.__contains__ (builtin_constants N) obj) g
  = Return (bool_decide (obj ∈ dom (builtin_constant_ids_init N)))
  /\ function_ids (_builtin_constant_ids
                     (Class.exec (Class.__contains__ (builtin_constants N) obj) g))
     = Some (dom (builtin_constant_ids_init N))
  /\ _builtin_function_ids (Class.exec (Class.__contains__ (builtin_constants N) obj) g)
     = _builtin_function_ids g
  /\ _numpy_function_ids (Class.exec (Class.__contains__ (builtin_constants N) obj) g)
     = _numpy_function_ids g.
Proof.
  unfold Class.outcome, Class.exec, Class.__contains__, Class.__call__, Class.bind.
  destruct g as [b n [ids names]]. cbn. intros [->| ->]; cbn; auto.
Qed.

Lemma ask_untouched q g : untouched N g -> untouched N (Class.exec (ask N q) g).
Proof.
  intros (Hb & Hn & Hc). destruct q as [obj|obj|obj]; cbn [ask].
  - destruct (contains_builtin_functions g obj Hb) as (_ & Hb' & Hn' & Hc').
    unfold is_builtin_callable, untouched. rewrite Hb', Hn', Hc'. auto.
  - destruct (contains_builtin_constants g obj Hc) as (_ & Hc' & Hb' & Hn').
    unfold is_builtin_constant, untouched. rewrite Hb', Hn', Hc'. auto.
  - unfold is_numpy. destruct (HAS_NUMPY N); [|repeat split; assumption].
    destruct (is_ndarray N obj); [repeat split; assumption|].
    destruct (contains_numpy_functions g obj Hn) as (_ & Hn' & Hb' & Hc').
    unfold untouched. rewrite Hb', Hn', Hc'. auto.
Qed.

Lemma ask_all_untouched qs : forall g, untouched N g -> untouched N (ask_all N qs g).
Proof.
  induction qs as [|q qs IH]; intros g Hg; [exact Hg|].
  cbn. apply IH, ask_untouched, Hg.
Qed.

Lemma untouched_initial : untouched N initial.
Proof. repeat split; left; reflexivity. Qed.

Lemma outcome_is_builtin_callable qs obj :
  Class.outcome (is_builtin_callable N obj) (ask_all N qs initial)
  = Return (bool_decide (obj ∈ dom (builtin_function_ids_init N))).
Proof.
  destruct (ask_all_untouched qs initial untouched_initial) as (Hb & _ & _).
  apply (contains_builtin_functions _ obj Hb).
Qed.

Lemma outcome_is_builtin_constant qs obj :
  Class.outcome (is_builtin_constant N obj) (ask_all N qs initial)
  = Return (bool_decide (obj ∈ dom (builtin_constant_ids_init N))).
Proof.
  destruct (ask_all_untouched qs initial untouched_initial) as (_ & _ & Hc).
  apply (contains_builtin_constants _ obj Hc).
Qed.

Lemma outcome_is_numpy qs obj :
  Class.outcome (is_numpy N obj) (ask_all N qs initial)
  = Return (HAS_NUMPY N
            && (is_ndarray N obj
                || bool_decide (obj ∈ dom (numpy_function_ids_init N)))).
Proof.
  destruct (ask_all_untouched qs initial untouched_initial) as (_ & Hn & _).
  unfold is_numpy. destruct (HAS_NUMPY N); [|reflexivity].
  destruct (is_ndarray N obj); [reflexivity|].
  apply (contains_numpy_functions _ obj Hn).
Qed.

Lemma elem_of_builtin_constants obj :
  obj ∈ dom (builtin_constant_ids_init N)
  <-> exists k : string, (k, obj) ∈ builtins N /\ Discovery.startswith k "_" = false
                /\ callable N obj = false.
Proof.
  unfold builtin_constant_ids_init. rewrite elem_of_dom_dict_comprehension.
  unfold public_constant. split; intros (k & Hin & Hk); exists k; split; try exact Hin.
  - apply andb_true_iff in Hk as [Hpub Hcall].
    apply negb_true_iff in Hpub. apply negb_true_iff in Hcall. auto.
  - destruct Hk as [-> ->]. reflexivity.
Qed.

Lemma elem_of_builtin_functions obj :
  obj ∈ dom (builtin_function_ids_init N)
  <-> (exists k : string, (k, obj) ∈ builtins N /\ Discovery.startswith k "_" = false
                 /\ callable N obj = true)
      \/ (exists k : string, (k, obj) ∈ operator N /\ Discovery.startswith k "_" = false
                    /\ callable N obj = true)
      \/ obj = itertools_chain N \/ obj = itertools_islice N
      \/ obj = functools_reduce N.
Proof.
  unfold builtin_function_ids_init. cbn zeta.
  rewrite dom_insert_L, !dom_update, !dom_insert_L, dom_empty_L.
  rewrite !elem_of_union, !elem_of_singleton, !elem_of_dom_dict_comprehension.
  unfold public_callable.
  assert (forall items : list (string * Z),
             (exists k : string, (k, obj) ∈ items
                        /\ negb (Discovery.startswith k "_") && callable N obj = true)
             <-> (exists k : string, (k, obj) ∈ items /\ Discovery.startswith k "_" = false
                            /\ callable N obj = true)) as Hiff.
  { intros items. split; intros (k & Hin & Hk); exists k; split; try exact Hin.
    - apply andb_true_iff in Hk as [Hpub Hcall]. apply negb_true_iff in Hpub. auto.
    - destruct Hk as [-> ->]. reflexivity. }
  rewrite !Hiff. rewrite elem_of_empty. tauto.
Qed.

Lemma elem_of_numpy_functions obj :
  obj ∈ dom (numpy_function_ids_init N)
  <-> HAS_NUMPY N = true /\ callable N obj = true
      /\ ((exists k : string, (k, obj) ∈ np N /\ module_or N obj (np_name N) = np_name N)
          \/ (exists k : string, (k, obj) ∈ np_random N
                        /\ module_or N obj (np_random_name N) = np_random_name N)).
Proof.
  unfold numpy_function_ids_init. destruct (HAS_NUMPY N).
  - rewrite !dom_update, dom_empty_L.
    rewrite !elem_of_union, !elem_of_dom_dict_comprehension, elem_of_empty.
    unfold numpy_callable.
    assert (forall (items : list (string * Z)) name,
               (exists k : string, (k, obj) ∈ items
                          /\ callable N obj && String.eqb (module_or N obj name) name = true)
               <-> callable N obj = true
                   /\ exists k : string, (k, obj) ∈ items /\ module_or N obj name = name) as Hiff.
    { intros items name. split.
      - intros (k & Hin & Hk). apply andb_true_iff in Hk as [Hcall Heq].
        apply String.eqb_eq in Heq. eauto.
      - intros (Hcall & k & Hin & Heq). exists k. split; [exact Hin|].
        rewrite Hcall. apply String.eqb_eq in Heq. rewrite Heq. reflexivity. }
    rewrite !Hiff. tauto.
  - rewrite dom_empty_L, elem_of_empty. split; [tauto|]. intros [[=] _].
Qed.

End WithNamespaces.

(** X21. In every state reached by queries, [is_builtin_constant(obj)]
    is true exactly when [obj] is bound in [builtins] under a name that
    does not start with an underscore and is not callable. *)
Theorem builtin_constants_are (N : Namespaces) qs obj :
  exists answer,
    Class.outcome (is_builtin_constant N obj) (ask_all N qs initial) = Return answer
    /\ (answer = true
        <-> exists k : string, (k, obj) ∈ builtins N /\ Discovery.startswith k "_" = false
                      /\ callable N obj = false).
Proof.
  eexists. split; [apply outcome_is_builtin_constant|].
  rewrite bool_decide_eq_true. apply elem_of_builtin_constants.
Qed.

(** X22. In every state reached by queries, [is_builtin_callable(obj)]
    is true exactly when [obj] is callable and bound under a name
    without leading underscore in [builtins] or in [operator], or is one
    of [itertools.chain], [itertools.islice], [functools.reduce]. *)
Theorem builtin_callables_are (N : Namespaces) qs obj :
  exists answer,
    Class.outcome (is_builtin_callable N obj) (ask_all N qs initial) = Return answer
    /\ (answer = true
        <-> (exists k : string, (k, obj) ∈ builtins N /\ Discovery.startswith k "_" = false
                       /\ callable N obj = true)
            \/ (exists k : string, (k, obj) ∈ operator N /\ Discovery.startswith k "_" = false
                          /\ callable N obj = true)
            \/ obj = itertools_chain N \/ obj = itertools_islice N
            \/ obj = functools_reduce N).
Proof.
  eexists. split; [apply outcome_is_builtin_callable|].
  rewrite bool_decide_eq_true. apply elem_of_builtin_functions.
Qed.

(** X23. No object is both a built-in callable and a built-in constant:
    whenever [is_builtin_callable(obj)] is true the object is callable,
    [chain], [islice] and [reduce] being callable, and whenever
    [is_builtin_constant(obj)] is true it is not. *)
Theorem builtin_sets_disjoint (N : Namespaces) qs qs' obj :
  callable N (itertools_chain N) = true ->
  callable N (itertools_islice N) = true ->
  callable N (functools_reduce N) = true ->
  (Class.outcome (is_builtin_callable N obj) (ask_all N qs initial) = Return true ->
   callable N obj = true)
  /\ (Class.outcome (is_builtin_constant N obj) (ask_all N qs' initial) = Return true ->
      callable N obj = false)
  /\ ~ (Class.outcome (is_builtin_callable N obj) (ask_all N qs initial) = Return true
        /\ Class.outcome (is_builtin_constant N obj) (ask_all N qs' initial)
           = Return true).
Proof.
  intros Hchain Hislice Hreduce.
  assert (Class.outcome (is_builtin_callable N obj) (ask_all N qs initial) = Return true ->
          callable N obj = true) as Hcallable.
  { rewrite outcome_is_builtin_callable. intros [= Hin].
    apply bool_decide_eq_true, elem_of_builtin_functions in Hin.
    destruct Hin as [(k & _ & _ & H)|[(k & _ & _ & H)|[->|[->| ->]]]]; assumption. }
  assert (Class.outcome (is_builtin_constant N obj) (ask_all N qs' initial) = Return true ->
          callable N obj = false) as Hconstant.
  { rewrite outcome_is_builtin_constant. intros [= Hin].
    apply bool_decide_eq_true, elem_of_builtin_constants in Hin.
    destruct Hin as (k & _ & _ & H). exact H. }
  split; [exact Hcallable|]. split; [exact Hconstant|].
  intros [H1 H2]. rewrite (Hcallable H1) in Hconstant. specialize (Hconstant H2).
  discriminate.
Qed.

Lemma builtin_sets_disjoint_witness :
  callable MoreExamples.namespaces_A (itertools_chain MoreExamples.namespaces_A) = true
  /\ callable MoreExamples.namespaces_A (itertools_islice MoreExamples.namespaces_A) = true
  /\ callable MoreExamples.namespaces_A (functools_reduce MoreExamples.namespaces_A) = true
  /\ ~ (Class.outcome (is_builtin_callable MoreExamples.namespaces_A 101)
          (ask_all MoreExamples.namespaces_A [IsNumpy 130] initial) = Return true
        /\ Class.outcome (is_builtin_constant MoreExamples.namespaces_A 101)
             (ask_all MoreExamples.namespaces_A [] initial) = Return true).
Proof.
  split; [reflexivity|]. split; [reflexivity|]. split; [reflexivity|].
  exact (proj2 (proj2 (builtin_sets_disjoint MoreExamples.namespaces_A
                         [IsNumpy 130] [] 101 eq_refl eq_refl eq_refl))).
Defined.

(** X24. Without numpy [is_numpy] is false for every object. With numpy
    it is true exactly for the arrays and for the callables bound in
    [np] or in [np.random] whose [__module__] is that module, or is
    missing or empty; a callable that one of them only re-exports from
    another module is left out. *)
Theorem is_numpy_is (N : Namespaces) qs obj :
  exists answer,
    Class.outcome (is_numpy N obj) (ask_all N qs initial) = Return answer
    /\ (HAS_NUMPY N = false -> answer = false)
    /\ (HAS_NUMPY N = true ->
        (answer = true
         <-> is_ndarray N obj = true
             \/ (callable N obj = true
                 /\ ((exists k : string, (k, obj) ∈ np N
                                /\ module_or N obj (np_name N) = np_name N)
                     \/ (exists k : string, (k, obj) ∈ np_random N
                                   /\ module_or N obj (np_random_name N)
                                      = np_random_name N))))).
Proof.
  eexists. split; [apply outcome_is_numpy|]. split.
  - intros ->. reflexivity.
  - intros Hnumpy. rewrite Hnumpy. cbn [andb].
    rewrite orb_true_iff, bool_decide_eq_true, elem_of_numpy_functions, Hnumpy.
    tauto.
Qed.

End CollectorFacts.

